(** * Movin'In: location controller and paginated list components

    A shallow embedding of the location REST controller
    ([validate], [create], [update], [deleteLocation], [getLocation],
    [getLocations]) and of the list / select components of the web
    front ends ([AgencySelectList], [LocationSelectList], [AgencyList],
    [BookingList], [ImageEditor]), followed by the properties of the
    search / pagination contract.

    Modelling conventions
    - a name or a keyword is a [text], a sequence of Unicode code
      points; language codes, ids of the front end and error messages
      are [string]s;
    - the patterns are run by the regular expression engine of the
      database and the rows are ordered by its collator; the case
      folding of the engine, its reading of [$] and the order of the
      collator are parameters ([RegexEngine], [Collation]), so that
      what is proved holds for the tables of any version of them;
    - a collection of the document store is a finite map from [_id] to
      the remaining fields of the document;
    - a controller is a function of the database and the request
      parameters returning the new database and the HTTP response; a
      thrown exception is a [Throw] and the [try]/[catch] of the
      controller turns it into the 400 response;
    - a component is a record of its [useState] cells; a handler yields
      the sequence of state updates and calls it performs, in source
      order, and [run] applies such a sequence to a state;
    - an instant is a time value in milliseconds; the time zone of the
      browser is a parameter ([TimeZone]). *)

From Stdlib Require Import ZArith NArith Lia Ascii String List Bool.
From stdpp Require Import gmap strings list fin_maps sorting.

Local Open Scope string_scope.
Local Open Scope list_scope.

(** ** Exceptions *)

Inductive result (A : Type) : Type :=
| Ok (a : A)
| Throw (err : string).
Arguments Ok {A} a.
Arguments Throw {A} err.

#[global] Instance result_ret : MRet result := fun A a => Ok a.

#[global] Instance result_bind : MBind result := fun A B k r =>
  match r with
  | Ok a => k a
  | Throw e => Throw e
  end.

(** ** Text *)

(** A sequence of Unicode code points. *)
Definition text : Type := list N.

(** The text of a literal written in ASCII. *)
Definition text_of (s : string) : text := N_of_ascii <$> list_ascii_of_string s.

(** ** Regular expressions over escaped literals *)

Module JsRegExp.

Definition backslash : N := Eval cbv in N_of_ascii "\".
Definition dollar : N := Eval cbv in N_of_ascii "$".
Definition caret : N := Eval cbv in N_of_ascii "^".
Definition hyphen : N := Eval cbv in N_of_ascii "-".
Definition letter_x : N := Eval cbv in N_of_ascii "x".
Definition line_feed : N := 10.

(** The characters of the class [[|\\{}()[\]^$+*?.]]. *)
Definition special_chars : list N :=
  Eval cbv in
    N_of_ascii <$> ["|"; "\"; "{"; "}"; "("; ")"; "["; "]"; "^"; "$"; "+"; "*"; "?"; "."]%char.

Definition is_special (c : N) : bool := existsb (N.eqb c) special_chars.

(** [escapeStringRegexp] of the package escape-string-regexp:
    [string.replace(/[|\\{}()[\]^$+*?.]/g, '\\$&').replace(/-/g, '\\x2d')]. *)
Fixpoint escapeStringRegexp (s : text) : text :=
  match s with
  | [] => []
  | c :: t =>
      if is_special c then backslash :: c :: escapeStringRegexp t
      else if N.eqb c hyphen then text_of "\x2d" ++ escapeStringRegexp t
      else c :: escapeStringRegexp t
  end.

(** A pattern of the fragment the controller builds: an optional [^],
    literal characters, an optional final [$]. *)
Record regex : Type := MkRegex {
  bol : bool;
  body : text;
  eol : bool
}.

Definition hex_digit (n : N) : option N :=
  if (48 <=? n)%N && (n <=? 57)%N then Some (n - 48)%N
  else if (97 <=? n)%N && (n <=? 102)%N then Some (n - 87)%N
  else if (65 <=? n)%N && (n <=? 70)%N then Some (n - 55)%N
  else None.

Definition hex_escape (h l : N) : option N :=
  match hex_digit h, hex_digit l with
  | Some a, Some b => Some (16 * a + b)%N
  | _, _ => None
  end.

Definition cons_lit (c : N) (r : option (text * bool)) : option (text * bool) :=
  match r with
  | Some (cs, e) => Some (c :: cs, e)
  | None => None
  end.

(** Reads the pattern after the optional [^]: [\c] for a special
    character [c], [\xHH], a plain character, and [$] in last position.
    Any other use of a metacharacter is outside the fragment. *)
Fixpoint parse_body (s : text) : option (text * bool) :=
  match s with
  | [] => Some ([], false)
  | c :: rest =>
      if N.eqb c backslash then
        match rest with
        | [] => None
        | d :: rest' =>
            if N.eqb d letter_x then
              match rest' with
              | h :: l :: rest'' =>
                  match hex_escape h l with
                  | Some x => cons_lit x (parse_body rest'')
                  | None => None
                  end
              | _ => None
              end
            else if is_special d then cons_lit d (parse_body rest')
            else None
        end
      else if N.eqb c dollar then
        match rest with
        | [] => Some ([], true)
        | _ :: _ => None
        end
      else if is_special c then None
      else cons_lit c (parse_body rest)
  end.

(** [new RegExp(source)] *)
Definition compile (source : text) : option regex :=
  match source with
  | c :: rest =>
      if N.eqb c caret then
        match parse_body rest with
        | Some (cs, e) => Some (MkRegex true cs e)
        | None => None
        end
      else
        match parse_body source with
        | Some (cs, e) => Some (MkRegex false cs e)
        | None => None
        end
  | [] => Some (MkRegex false [] false)
  end.

Definition prepend (cs : text) (r : option (text * bool)) : option (text * bool) :=
  match r with
  | Some (cs', e) => Some (cs ++ cs', e)
  | None => None
  end.

(** What the model leaves to the engine that runs the pattern (the
    one of the database, PCRE in UTF mode):
    - [canonicalize], the case folding of the [i] flag: two characters
      match when their canonical forms are the same;
    - [dollar_endonly], whether [$] without the [m] flag is met at the
      very end of the input only; an engine of the PCRE family that is
      not told so also meets it before a line feed that ends the input. *)
Class RegexEngine : Type := MkEngine {
  canonicalize : N -> N;
  dollar_endonly : bool
}.

Section Matching.
Context {engine : RegexEngine}.

Definition char_eq (icase : bool) (p c : N) : bool :=
  if icase then N.eqb (canonicalize p) (canonicalize c) else N.eqb p c.

(** The position at which [s] remains is one that [$] accepts. *)
Definition end_of_input (s : text) : bool :=
  match s with
  | [] => true
  | [c] => negb dollar_endonly && N.eqb c line_feed
  | _ :: _ :: _ => false
  end.

(** The literal [pat] matches at the start of [s]; with [e] the match
    must end where [$] accepts it. *)
Fixpoint match_here (icase e : bool) (pat : text) (s : text) : bool :=
  match pat, s with
  | [], _ => negb e || end_of_input s
  | _ :: _, [] => false
  | p :: ps, c :: s' => char_eq icase p c && match_here icase e ps s'
  end.

(** The literal matches at some position of [s]. *)
Fixpoint search (icase e : bool) (pat : text) (s : text) : bool :=
  match_here icase e pat s
  || match s with
     | [] => false
     | _ :: s' => search icase e pat s'
     end.

Definition exec (r : regex) (icase : bool) (input : text) : bool :=
  if bol r then match_here icase (eol r) (body r) input
  else search icase (eol r) (body r) input.

(** The text folded as the [i] flag compares it. *)
Definition fold_case (s : text) : text := List.map canonicalize s.

(** [v] is [kw] up to the case of letters. *)
Definition same_up_to_case (kw v : text) : Prop := fold_case v = fold_case kw.

(** The keyword matches the whole of [v], up to the case of letters:
    [v] is the keyword or, for an engine whose [$] is not end-only,
    the keyword followed by one line feed. *)
Definition matches_entire_value (kw v : text) : Prop :=
  same_up_to_case kw v
  \/ (dollar_endonly = false /\ exists v', v = v' ++ [line_feed] /\ same_up_to_case kw v').

(** The keyword occurs somewhere in [v], up to the case of letters. *)
Definition matches_some_substring (kw v : text) : Prop :=
  exists pre mid post, v = pre ++ mid ++ post /\ fold_case mid = fold_case kw.

End Matching.

End JsRegExp.

(** [a.length > 0] *)
Definition nonempty {A : Type} (a : list A) : bool :=
  match a with
  | [] => false
  | _ :: _ => true
  end.

(** ** The paginated result envelope *)

Record PageInfo : Type := MkPageInfo { totalRecords : Z }.

(** The [pageInfo] field as JavaScript sees it: an array of entries, or
    some value that is not an array (the fallback object
    [{ totalRecord: 0 }] of the components). *)
Inductive PageInfoValue : Type :=
| NotAnArray
| IsArray (entries : list PageInfo).

Record Envelope (T : Type) : Type := MkEnvelope {
  resultData : list T;
  pageInfo : PageInfoValue
}.
Arguments MkEnvelope {T} resultData pageInfo.
Arguments resultData {T} e.
Arguments pageInfo {T} e.

(** [Array.isArray(pageInfo) && pageInfo.length > 0 ? pageInfo[0].totalRecords : 0] *)
Definition pageInfo_totalRecords (p : PageInfoValue) : Z :=
  match p with
  | IsArray (e :: _) => totalRecords e
  | IsArray [] => 0
  | NotAnArray => 0
  end.

(** [pageInfo] is not an array, or is an empty array. *)
Definition pageInfo_absent (p : PageInfoValue) : Prop :=
  p = NotAnArray \/ p = IsArray [].

(** ** The location controller *)

Module LocationController.
Import JsRegExp.

(** A document of the LocationValue collection, without its [_id]. *)
Record LocationValueDoc : Type := MkLocationValue {
  language : string;
  value : text
}.

(** A document of the Location collection, without its [_id]. *)
Record LocationDoc : Type := MkLocation {
  values : list N
}.

Record Database : Type := MkDatabase {
  Location : gmap N LocationDoc;
  LocationValue : gmap N LocationValueDoc
}.

(** A LocationValue document with its [_id]. *)
Definition ValueObject : Type := N * LocationValueDoc.

(** A Location after [$lookup]: [value] is the array of joined values. *)
Record Joined : Type := MkJoined {
  j_id : N;
  j_values : list N;
  j_value : list ValueObject
}.

(** A Location after [$unwind] and [$addFields]. *)
Record LocationRow : Type := MkRow {
  _id : N;
  row_values : list N;
  row_value : ValueObject;
  name : text
}.

Inductive Json : Type :=
| JsonLocation (id : N) (vals : list ValueObject) (nm : text)
| JsonPage (page : list (Envelope LocationRow)).

(** [res.sendStatus(c)],
    [res.status(204).send(`[location.delete] Location ${id} not found`)],
    [res.status(400).send(strings.DB_ERROR + err)] and [res.json(j)]. *)
Inductive Response : Type :=
| SendStatus (code : Z)
| NotFoundMessage (id : N)
| DbError (err : string)
| SendJson (j : Json).

Definition status (r : Response) : Z :=
  match r with
  | SendStatus c => c
  | NotFoundMessage _ => 204
  | DbError _ => 400
  | SendJson _ => 200
  end.

(** The [try { ... } catch (err) { return res.status(400)... }] of a controller. *)
Definition try_catch (body : result Response) : Response :=
  match body with
  | Ok r => r
  | Throw e => DbError e
  end.

Definition new_RegExp (source : text) : result regex :=
  match compile source with
  | Some r => Ok r
  | None => Throw "Invalid regular expression"
  end.

(** The collator of the database (ICU): [collation_leb a b] when [a]
    does not come after [b] in its order. *)
Class Collation : Type := collation_leb : text -> text -> bool.

Section Controller.
Context {engine : RegexEngine} {collation : Collation}.

(** The filter of [validate]:
    [{ language: { $eq: language }, value: { $regex: re, $options: 'i' } }]. *)
Definition validate_filter (lang : string) (re : regex) (d : ValueObject) : bool :=
  String.eqb (language d.2) lang && exec re true (value d.2).

Definition validate (db : Database) (lang : string) (nm : text) : Response :=
  try_catch (
    let keyword := escapeStringRegexp nm in
    re ← new_RegExp (caret :: keyword ++ [dollar]);
    let locationValue := List.find (validate_filter lang re) (map_to_list (LocationValue db)) in
    Ok (match locationValue with
        | Some _ => SendStatus 204
        | None => SendStatus 200
        end)).

(** [LocationValue.deleteMany({ _id: { $in: ids } })] *)
Definition deleteMany (ids : list N) (coll : gmap N LocationValueDoc) : gmap N LocationValueDoc :=
  filter (fun kv => kv.1 ∉ ids) coll.

Definition deleteLocation (db : Database) (id : N) : Database * Response :=
  match Location db !! id with
  | None => (db, NotFoundMessage id)
  | Some location =>
      let db1 := MkDatabase (delete id (Location db)) (LocationValue db) in
      let db2 := MkDatabase (Location db1) (deleteMany (values location) (LocationValue db1)) in
      (db2, SendStatus 200)
  end.

(** [populate('values')]: every id is replaced by its document; an id
    without a document is dropped. *)
Definition populate (db : Database) (ids : list N) : list ValueObject :=
  omap (fun i => (fun d => (i, d)) <$> LocationValue db !! i) ids.

(** [a[0].value]: reading a property of [undefined] throws. *)
Definition first_value (a : list ValueObject) : result text :=
  match a with
  | v :: _ => Ok (value v.2)
  | [] => Throw "TypeError: Cannot read properties of undefined (reading 'value')"
  end.

Definition getLocation (db : Database) (id : N) (lang : string) : Response :=
  try_catch (
    match Location db !! id with
    | Some location =>
        let vals := populate db (values location) in
        nm ← first_value (List.filter (fun v => String.eqb (language v.2) lang) vals);
        Ok (SendJson (JsonLocation id vals nm))
    | None => Ok (SendStatus 204)
    end).

(** The [$match] of the sub-pipeline of [$lookup]. The language codes
    are compared as they are; the collation of the aggregate is taken
    into account for the order of [$sort] only. *)
Definition lookup_match (vals : list N) (lang : string) (re : regex) (d : ValueObject) : bool :=
  bool_decide (d.1 ∈ vals)
  && String.eqb (language d.2) lang
  && exec re true (value d.2).

Definition lookup_stage (db : Database) (lang : string) (re : regex)
    (l : N * LocationDoc) : Joined :=
  MkJoined l.1 (values l.2)
    (List.filter (lookup_match (values l.2) lang re) (map_to_list (LocationValue db))).

(** [{ $unwind: { path: '$value', preserveNullAndEmptyArrays: false } }]
    followed by [{ $addFields: { name: '$value.value' } }]. *)
Definition unwind_addFields (j : Joined) : list LocationRow :=
  List.map (fun v => MkRow (j_id j) (j_values j) v (value v.2)) (j_value j).

(** The documents that reach [$facet]. *)
Definition matching_rows (db : Database) (lang : string) (re : regex) : list LocationRow :=
  List.flat_map (fun l => unwind_addFields (lookup_stage db lang re l))
    (map_to_list (Location db)).

(** Order of [{ $sort: { name: 1 } }] under the collation of the
    aggregate, [{ locale: env.DEFAULT_LANGUAGE, strength: 2 }]: the
    names are compared by the collator. *)
Definition name_le (a b : LocationRow) : Prop :=
  Is_true (collation_leb (name a) (name b)).

#[global] Instance name_le_dec (a b : LocationRow) : Decision (name_le a b).
Proof. unfold name_le. apply _. Defined.

Definition sort_stage (rows : list LocationRow) : list LocationRow :=
  merge_sort name_le rows.

(** [$skip] rejects a negative argument, [$limit] one that is not positive. *)
Definition skip_stage (n : Z) (rows : list LocationRow) : result (list LocationRow) :=
  if (n <? 0)%Z then Throw "$skip: argument must be non-negative"
  else Ok (drop (Z.to_nat n) rows).

Definition limit_stage (n : Z) (rows : list LocationRow) : result (list LocationRow) :=
  if (n <=? 0)%Z then Throw "$limit: the limit must be positive"
  else Ok (take (Z.to_nat n) rows).

(** [{ $count: 'totalRecords' }]: no document at all on an empty input. *)
Definition count_stage (rows : list LocationRow) : list PageInfo :=
  match rows with
  | [] => []
  | _ :: _ => [MkPageInfo (Z.of_nat (length rows))]
  end.

Definition aggregate (db : Database) (lang : string) (re : regex) (page size : Z)
    : result (list (Envelope LocationRow)) :=
  let rows := matching_rows db lang re in
  skipped ← skip_stage ((page - 1) * size) (sort_stage rows);
  limited ← limit_stage size skipped;
  Ok [MkEnvelope limited (IsArray (count_stage rows))].

(** [page] and [size] are the parsed path parameters, [s] the query
    parameter [req.query.s || '']. *)
Definition getLocations (db : Database) (page size : Z) (lang : string) (s : text)
    : Response :=
  try_catch (
    let keyword := escapeStringRegexp s in
    re ← new_RegExp keyword;
    locations ← aggregate db lang re page size;
    Ok (SendJson (JsonPage locations))).

(** The Location and the name value a row joins. *)
Definition row_key (r : LocationRow) : N * N := (_id r, (row_value r).1).

(** The pattern [getLocations] compiles for the query parameter [s]. *)
Definition keyword_regex (s : text) : regex :=
  MkRegex false s false.

(** [l] has a joined value: at least one of its names is in the
    language and matches. *)
Definition has_match (db : Database) (lang : string) (re : regex) (l : N * LocationDoc) : bool :=
  nonempty (j_value (lookup_stage db lang re l)).

(** The data model of the specification: the names of a Location are
    per language, no two of them in the same language. *)
Definition one_value_per_language (db : Database) : Prop :=
  forall id loc v1 v2 d1 d2,
    Location db !! id = Some loc ->
    v1 ∈ values loc -> v2 ∈ values loc ->
    LocationValue db !! v1 = Some d1 -> LocationValue db !! v2 = Some d2 ->
    language d1 = language d2 -> v1 = v2.

(** [loc] has a name in [lang] in which the keyword occurs. *)
Definition has_matching_value (db : Database) (lang : string) (kw : text)
    (loc : LocationDoc) : Prop :=
  exists v d, v ∈ values loc /\ LocationValue db !! v = Some d
              /\ language d = lang /\ matches_some_substring kw (value d).

(** [loc] has a name in [lang]. *)
Definition has_language (db : Database) (lang : string) (loc : LocationDoc) : Prop :=
  exists v d, v ∈ values loc /\ LocationValue db !! v = Some d /\ language d = lang.

(** The name value [v] of the Location [id] is in [lang] and the
    keyword occurs in it. *)
Definition matching_name (db : Database) (lang : string) (kw : text) (id v : N) : Prop :=
  exists loc d, Location db !! id = Some loc /\ v ∈ values loc
                /\ LocationValue db !! v = Some d
                /\ language d = lang /\ matches_some_substring kw (value d).

(** The order of the collator is total and transitive. *)
Definition collation_total_preorder : Prop :=
  (forall a b, collation_leb a b = true \/ collation_leb b a = true)
  /\ (forall a b c, collation_leb a b = true -> collation_leb b c = true ->
                    collation_leb a c = true).


End Controller.

(** The database without the Location [id]. *)
Definition without_location (db : Database) (id : N) : Database :=
  MkDatabase (delete id (Location db)) (LocationValue db).

End LocationController.


(** ** Types and configuration of the front ends *)

Module movininTypes.

Inductive BookingStatus : Type :=
| Void | Pending | Deposit | Paid | Reserved | Cancelled.

Definition BookingStatus_eqb (a b : BookingStatus) : bool :=
  match a, b with
  | Void, Void | Pending, Pending | Deposit, Deposit
  | Paid, Paid | Reserved, Reserved | Cancelled, Cancelled => true
  | _, _ => false
  end.

Record User : Type := MkUser {
  user_id : string;
  fullName : string;
  avatar : string
}.

Record Option : Type := MkOption {
  option_id : string;
  option_name : string;
  image : string
}.

Record Location : Type := MkLocationOption {
  location_id : string;
  location_name : string
}.

(** [from] is the instant the booking starts, in milliseconds. *)
Record Booking : Type := MkBooking {
  booking_id : string;
  from : Z;
  status : BookingStatus;
  cancellation : bool;
  cancelRequest : bool
}.

End movininTypes.

Inductive PaginationMode : Type := CLASSIC | INFINITE_SCROLL.

(** The values of [Env] the components read. *)
Record EnvConfig : Type := MkEnv {
  PAGE_SIZE : Z;
  PAGE_OFFSET : Z;
  INFINITE_SCROLL_OFFSET : Z;
  BOOKINGS_PAGE_SIZE : Z;
  BOOKINGS_MOBILE_PAGE_SIZE : Z;
  PAGINATION_MODE : PaginationMode;
  isMobile : bool
}.

(** [PAGINATION_MODE === INFINITE_SCROLL || Env.isMobile()] *)
Definition infinite_scroll (Env : EnvConfig) : bool :=
  match PAGINATION_MODE Env with
  | INFINITE_SCROLL => true
  | CLASSIC => isMobile Env
  end.

(** [PAGINATION_MODE === CLASSIC && !Env.isMobile()] *)
Definition classic_pager (Env : EnvConfig) : bool :=
  match PAGINATION_MODE Env with
  | CLASSIC => negb (isMobile Env)
  | INFINITE_SCROLL => false
  end.

(** ** State cells, updates and calls of a list component *)

Module ListComponent.
Section Cells.
Context {R T : Type}.

(** The [useState] cells of the list components; a component that
    does not declare a cell never writes it. [R] is the type of the
    buffered rows, [T] the type of the fetched records. *)
Record State : Type := MkState {
  init : bool;
  loading : bool;
  rows : list R;
  fetch : bool;
  page : Z;
  pageSize : Z;
  keyword : string;
  rowCount : Z;
  totalRecords : Z;
  selectedId : string;
  openCancelDialog : bool
}.

(** What a handler does, in source order: the setters, the awaited
    service call [Request], the callbacks [onFetch] and [onLoad]
    with their argument, [Helper.error] and [window.scrollTo(0, 0)]. *)
Inductive Action : Type :=
| setInit (b : bool)
| setLoading (b : bool)
| setRows (l : list R)
| setFetch (b : bool)
| setPage (p : Z)
| setKeyword (k : string)
| setRowCount (n : Z)
| setTotalRecords (n : Z)
| setSelectedId (id : string)
| setOpenCancelDialog (b : bool)
| Request (p : Z) (k : string) (size : Z)
| onFetch (data : list T) (count : Z)
| onLoad (data : list R) (count : Z)
| Helper_error
| scrollTo_top.

(** The effect of one action on the cells. The only [onFetch] the
    select lists pass is [() => { setInit(true) }]; [onLoad] belongs
    to the parent. *)
Definition step (st : State) (a : Action) : State :=
  match st with
  | MkState i l r f p ps k rc tr sid ocd =>
      match a with
      | setInit b => MkState b l r f p ps k rc tr sid ocd
      | setLoading b => MkState i b r f p ps k rc tr sid ocd
      | setRows x => MkState i l x f p ps k rc tr sid ocd
      | setFetch b => MkState i l r b p ps k rc tr sid ocd
      | setPage x => MkState i l r f x ps k rc tr sid ocd
      | setKeyword x => MkState i l r f p ps x rc tr sid ocd
      | setRowCount n => MkState i l r f p ps k n tr sid ocd
      | setTotalRecords n => MkState i l r f p ps k rc n sid ocd
      | setSelectedId x => MkState i l r f p ps k rc tr x ocd
      | setOpenCancelDialog b => MkState i l r f p ps k rc tr sid b
      | onFetch _ _ => MkState true l r f p ps k rc tr sid ocd
      | Request _ _ _ | onLoad _ _ | Helper_error | scrollTo_top => st
      end
  end.

Definition run (trace : list Action) (st : State) : State :=
  fold_left step trace st.

Definition is_Request (a : Action) : bool :=
  match a with
  | Request _ _ _ => true
  | _ => false
  end.

(** The actions performed before the first service call. *)
Fixpoint before_Request (trace : list Action) : list Action :=
  match trace with
  | [] => []
  | a :: t => if is_Request a then [] else a :: before_Request t
  end.

(** The service calls of a trace. *)
Definition requests (trace : list Action) : list Action :=
  List.filter is_Request trace.

(** The outcome of an awaited service call: it throws, or resolves
    to the response data, which may be missing, and whose first
    element may be missing. *)
Inductive ServiceResult : Type :=
| Rejected (err : string)
| Resolved (data : option (list (option (Envelope T)))).

(** [data && data.length > 0 ? data[0] : { pageInfo: { totalRecord: 0 }, resultData: [] }] *)
Definition first_or_default (data : option (list (option (Envelope T))))
    : option (Envelope T) :=
  match data with
  | Some (e :: _) => e
  | Some [] | None => Some (MkEnvelope [] NotAnArray)
  end.

(** A handler run on a sequence of events, each with the outcome of
    the service call it may make. *)
Fixpoint handle_all {E : Type} (h : State -> E -> ServiceResult -> list Action)
    (st : State) (evs : list (E * ServiceResult)) : list Action :=
  match evs with
  | [] => []
  | (ev, res) :: t =>
      let trace := h st ev res in
      trace ++ handle_all h (run trace st) t
  end.

End Cells.
Arguments State R : clear implicits.
Arguments Action R T : clear implicits.
Arguments ServiceResult T : clear implicits.
End ListComponent.

(** The position of a scrolled list box. *)
Record ListboxScroll : Type := MkListboxScroll {
  scrollTop : Z;
  clientHeight : Z;
  scrollHeight : Z
}.

(** [(event && event.target && 'value' in event.target && event.target.value) || ''] *)
Definition input_value (target_value : option string) : string :=
  match target_value with
  | Some v => v
  | None => ""
  end.

(** ** AgencySelectList *)

Module AgencySelectList.
Import movininTypes ListComponent.

Definition initial : State Option :=
  MkState false false [] true 1 0 "" 0 0 "" false.

Definition getAgencies (agencies : list User) : list Option :=
  List.map (fun agency => MkOption (user_id agency) (fullName agency) (avatar agency)) agencies.

Definition _fetch (Env : EnvConfig) (st : State Option) (_page : Z) (_keyword : string)
    (with_onFetch : bool) (res : ServiceResult User) : list (Action Option User) :=
  [setLoading true; Request _page _keyword (PAGE_SIZE Env)]
  ++ match res with
     | Rejected _ => [Helper_error]
     | Resolved data =>
         match first_or_default data with
         | None => [Helper_error]
         | Some _data =>
             let totalRecords := pageInfo_totalRecords (pageInfo _data) in
             let _rows :=
               if (_page =? 1)%Z then getAgencies (resultData _data)
               else rows st ++ getAgencies (resultData _data) in
             [setRows _rows; setFetch (nonempty (resultData _data))]
             ++ (if with_onFetch then [onFetch (resultData _data) totalRecords] else [])
         end
     end
  ++ [setLoading false].

Definition onScroll (Env : EnvConfig) (st : State Option) (listboxNode : ListboxScroll)
    (res : ServiceResult User) : list (Action Option User) :=
  if fetch st && negb (loading st)
     && (scrollHeight listboxNode - PAGE_OFFSET Env
         <=? scrollTop listboxNode + clientHeight listboxNode)%Z
  then
    let p := (page st + 1)%Z in
    setPage p :: _fetch Env st p (keyword st) false res
  else [].

Definition onFocus (Env : EnvConfig) (st : State Option) (res : ServiceResult User)
    : list (Action Option User) :=
  if negb (init st) then
    let p := 1%Z in
    [setRows []; setPage p] ++ _fetch Env st p (keyword st) true res
  else [].

Definition onInputChange (Env : EnvConfig) (st : State Option) (target_value : option string)
    (res : ServiceResult User) : list (Action Option User) :=
  let _value := input_value target_value in
  if negb (String.eqb _value (keyword st)) then
    [setRows []; setPage 1; setKeyword _value] ++ _fetch Env st 1 _value false res
  else [].

Definition onClear (Env : EnvConfig) (st : State Option) (res : ServiceResult User)
    : list (Action Option User) :=
  [setRows []; setPage 1; setKeyword ""; setFetch true] ++ _fetch Env st 1 "" false res.

End AgencySelectList.

(** ** LocationSelectList *)

Module LocationSelectList.
Import movininTypes ListComponent.

Definition initial : State Location :=
  MkState false false [] true 1 0 "" 0 0 "" false.

Definition _fetch (Env : EnvConfig) (st : State Location) (_page : Z) (_keyword : string)
    (with_onFetch : bool) (res : ServiceResult Location) : list (Action Location Location) :=
  (if fetch st || (_page =? 1)%Z then
     [setLoading true; Request _page _keyword (PAGE_SIZE Env)]
     ++ match res with
        | Rejected _ => [Helper_error]
        | Resolved data =>
            match first_or_default data with
            | None => []
            | Some _data =>
                let totalRecords := pageInfo_totalRecords (pageInfo _data) in
                let _rows :=
                  if (_page =? 1)%Z then resultData _data
                  else rows st ++ resultData _data in
                [setRows _rows; setFetch (nonempty (resultData _data))]
                ++ (if with_onFetch then [onFetch (resultData _data) totalRecords] else [])
            end
        end
   else [])
  ++ [setLoading false].

Definition onScroll (Env : EnvConfig) (st : State Location) (listboxNode : ListboxScroll)
    (res : ServiceResult Location) : list (Action Location Location) :=
  if fetch st && negb (loading st)
     && (scrollHeight listboxNode - PAGE_OFFSET Env
         <=? scrollTop listboxNode + clientHeight listboxNode)%Z
  then
    let p := (page st + 1)%Z in
    setPage p :: _fetch Env st p (keyword st) false res
  else [].

Definition onFocus (Env : EnvConfig) (st : State Location) (res : ServiceResult Location)
    : list (Action Location Location) :=
  if negb (init st) then
    let p := 1%Z in
    [setRows []; setPage p] ++ _fetch Env st p (keyword st) true res
  else [].

Definition onInputChange (Env : EnvConfig) (st : State Location)
    (target_value : option string) (res : ServiceResult Location)
    : list (Action Location Location) :=
  let _value := input_value target_value in
  if negb (String.eqb _value (keyword st)) then
    [setRows []; setPage 1; setKeyword _value] ++ _fetch Env st 1 _value false res
  else [].

Definition onClear (Env : EnvConfig) (st : State Location) (res : ServiceResult Location)
    : list (Action Location Location) :=
  [setRows []; setPage 1; setKeyword ""; setFetch true] ++ _fetch Env st 1 "" false res.

End LocationSelectList.

(** The position of the scrolled window or container. *)
Record WindowScroll : Type := MkWindowScroll {
  scrollY : Z;
  innerHeight : Z;
  body_scrollHeight : Z
}.

(** ** AgencyList *)

Module AgencyList.
Import movininTypes ListComponent.

Definition initial (agencyListKeyword : string) : State User :=
  MkState true false [] false 1 0 agencyListKeyword 0 0 "" false.

Definition _fetch (Env : EnvConfig) (with_onLoad : bool) (st : State User) (_page : Z)
    (_keyword : string) (res : ServiceResult User) : list (Action User User) :=
  [setLoading true; Request _page _keyword (PAGE_SIZE Env)]
  ++ match res with
     | Rejected _ => [Helper_error]
     | Resolved data =>
         match first_or_default data with
         | None => [Helper_error]
         | Some _data =>
             let _totalRecords := pageInfo_totalRecords (pageInfo _data) in
             let _rows :=
               if infinite_scroll Env then
                 if (_page =? 1)%Z then resultData _data
                 else rows st ++ resultData _data
               else resultData _data in
             [setRows _rows;
              setRowCount ((_page - 1) * PAGE_SIZE Env + Z.of_nat (length _rows));
              setTotalRecords _totalRecords;
              setFetch (nonempty (resultData _data))]
             ++ (if (infinite_scroll Env && (_page =? 1)%Z) || classic_pager Env
                 then [scrollTo_top] else [])
             ++ (if with_onLoad then [onLoad (resultData _data) _totalRecords] else [])
         end
     end
  ++ [setLoading false; setInit false].

(** [useEffect(() => { _fetch(page, keyword) }, [page])], run by the
    render that follows a change of [page]. *)
Definition page_effect (Env : EnvConfig) (with_onLoad : bool) (st : State User)
    (res : ServiceResult User) : list (Action User User) :=
  _fetch Env with_onLoad st (page st) (keyword st) res.

(** [element.onscroll], installed in infinite-scroll mode only; the
    change of [page] it makes triggers [page_effect]. *)
Definition onscroll (Env : EnvConfig) (with_onLoad : bool) (st : State User)
    (w : WindowScroll) (res : ServiceResult User) : list (Action User User) :=
  if infinite_scroll Env then
    if fetch st && negb (loading st) && (0 <? scrollY w)%Z
       && (body_scrollHeight w
           <=? scrollY w + innerHeight w + INFINITE_SCROLL_OFFSET Env)%Z
    then
      let updates := [setLoading true; setPage (page st + 1)] in
      updates ++ page_effect Env with_onLoad (run updates st) res
    else []
  else [].

(** [onNext] and [onPrevious] of the pager of the classic mode. *)
Definition onNext (Env : EnvConfig) (with_onLoad : bool) (st : State User)
    (res : ServiceResult User) : list (Action User User) :=
  let updates := [setPage (page st + 1)] in
  updates ++ page_effect Env with_onLoad (run updates st) res.

Definition onPrevious (Env : EnvConfig) (with_onLoad : bool) (st : State User)
    (res : ServiceResult User) : list (Action User User) :=
  let updates := [setPage (page st - 1)] in
  updates ++ page_effect Env with_onLoad (run updates st) res.

End AgencyList.

(** ** BookingList *)

Module BookingList.
Import movininTypes ListComponent.

Definition initial (Env : EnvConfig) : State Booking :=
  MkState true false [] false 0
    (if isMobile Env then BOOKINGS_MOBILE_PAGE_SIZE Env else BOOKINGS_PAGE_SIZE Env)
    "" 0 0 "" false.

(** [agencies_and_statuses] is the test [agencies && statuses]; the
    pages of this component count from 0. *)
Definition _fetch (Env : EnvConfig) (with_onLoad agencies_and_statuses : bool)
    (st : State Booking) (_page : Z) (res : ServiceResult Booking)
    : list (Action Booking Booking) :=
  let _pageSize := if isMobile Env then BOOKINGS_MOBILE_PAGE_SIZE Env else pageSize st in
  (if agencies_and_statuses then
     [setLoading true; Request _page "" _pageSize]
     ++ match res with
        | Rejected _ => [Helper_error]
        | Resolved data =>
            match first_or_default data with
            | None => [Helper_error]
            | Some _data =>
                let totalRecords := pageInfo_totalRecords (pageInfo _data) in
                if isMobile Env then
                  let _rows :=
                    if (_page =? 0)%Z then resultData _data
                    else rows st ++ resultData _data in
                  [setRows _rows; setRowCount totalRecords;
                   setFetch (nonempty (resultData _data))]
                  ++ (if with_onLoad then [onLoad _rows totalRecords] else [])
                else
                  [setRows (resultData _data); setRowCount totalRecords]
                  ++ (if with_onLoad then [onLoad (resultData _data) totalRecords] else [])
            end
        end
   else
     [setRows []; setRowCount 0]
     ++ (if with_onLoad then [onLoad [] 0%Z] else []))
  ++ [setLoading false; setInit false].

(** [useEffect(() => { if (agencies && statuses) { _fetch(page, user) } }, [page])] *)
Definition page_effect (Env : EnvConfig) (with_onLoad agencies_and_statuses : bool)
    (st : State Booking) (res : ServiceResult Booking) : list (Action Booking Booking) :=
  if agencies_and_statuses
  then _fetch Env with_onLoad agencies_and_statuses st (page st) res
  else [].

(** [element.onscroll], installed on mobile only; [scrollY] is the
    [scrollTop] of the container, [innerHeight] its [offsetHeight]. *)
Definition onscroll (Env : EnvConfig) (with_onLoad agencies_and_statuses : bool)
    (st : State Booking) (target : WindowScroll) (res : ServiceResult Booking)
    : list (Action Booking Booking) :=
  if isMobile Env then
    if fetch st && negb (loading st) then
      if (0 <? scrollY target)%Z
         && (body_scrollHeight target
             <=? innerHeight target + scrollY target + INFINITE_SCROLL_OFFSET Env)%Z
      then
        let updates := [setLoading true; setPage (page st + 1)] in
        updates ++ page_effect Env with_onLoad agencies_and_statuses (run updates st) res
      else []
    else []
  else [].

(** *** Dates

    A [Date] is its time value, the milliseconds since the epoch. The
    time zone of the browser is given by [LocalTZA t isUTC], the offset
    of local time in milliseconds: at the instant [t] when [isUTC], and
    for the local time [t] otherwise (ECMAScript, 21.4.1). *)
Record TimeZone : Type := MkTimeZone {
  LocalTZA : Z -> bool -> Z
}.

(** A zone whose offset never changes; [timezoneOffset] is what
    [getTimezoneOffset] answers in it, the minutes from local time to UTC. *)
Definition fixed_offset (timezoneOffset : Z) : TimeZone :=
  MkTimeZone (fun _ _ => (- timezoneOffset * 60000)%Z).

Definition msPerDay : Z := 86400000.
Definition msPerHour : Z := 3600000.
Definition msPerMinute : Z := 60000.
Definition msPerSecond : Z := 1000.

Definition Day (t : Z) : Z := (t / msPerDay)%Z.
Definition HourFromTime (t : Z) : Z := ((t / msPerHour) mod 24)%Z.
Definition MinFromTime (t : Z) : Z := ((t / msPerMinute) mod 60)%Z.
Definition SecFromTime (t : Z) : Z := ((t / msPerSecond) mod 60)%Z.
Definition msFromTime (t : Z) : Z := (t mod msPerSecond)%Z.

Definition MakeTime (hour min sec ms : Z) : Z :=
  (hour * msPerHour + min * msPerMinute + sec * msPerSecond + ms)%Z.
Definition MakeDate (day time : Z) : Z := (day * msPerDay + time)%Z.

Definition LocalTime (tz : TimeZone) (t : Z) : Z := (t + LocalTZA tz t true)%Z.
Definition UTC (tz : TimeZone) (t : Z) : Z := (t - LocalTZA tz t false)%Z.

(** [Date.prototype.setHours(hour)] and its siblings, each called with
    one argument: the other fields of the local time are kept. *)
Definition setHours (tz : TimeZone) (tv hour : Z) : Z :=
  let t := LocalTime tz tv in
  UTC tz (MakeDate (Day t) (MakeTime hour (MinFromTime t) (SecFromTime t) (msFromTime t))).

Definition setMinutes (tz : TimeZone) (tv min : Z) : Z :=
  let t := LocalTime tz tv in
  UTC tz (MakeDate (Day t) (MakeTime (HourFromTime t) min (SecFromTime t) (msFromTime t))).

Definition setSeconds (tz : TimeZone) (tv sec : Z) : Z :=
  let t := LocalTime tz tv in
  UTC tz (MakeDate (Day t) (MakeTime (HourFromTime t) (MinFromTime t) sec (msFromTime t))).

Definition setMilliseconds (tz : TimeZone) (tv ms : Z) : Z :=
  let t := LocalTime tz tv in
  UTC tz (MakeDate (Day t) (MakeTime (HourFromTime t) (MinFromTime t) (SecFromTime t) ms)).

(** [const today = new Date()] followed by [today.setHours(0)],
    [today.setMinutes(0)], [today.setSeconds(0)] and
    [today.setMilliseconds(0)]. *)
Definition today (tz : TimeZone) (now : Z) : Z :=
  setMilliseconds tz (setSeconds tz (setMinutes tz (setHours tz now 0) 0) 0) 0.

(** The condition of the cancel button in the action cell of the grid. *)
Definition action_cell_cancel (tz : TimeZone) (now : Z) (row : Booking) : bool :=
  cancellation row
  && negb (cancelRequest row)
  && negb (BookingStatus_eqb (status row) Cancelled)
  && (today tz now <=? from row)%Z.

(** The condition of the cancel button of a booking on mobile:
    [new Date(booking.from) > new Date()]. *)
Definition mobile_cancel_button (now : Z) (booking : Booking) : bool :=
  cancellation booking
  && negb (cancelRequest booking)
  && negb (BookingStatus_eqb (status booking) Cancelled)
  && (now <? from booking)%Z.

(** The cancel button of a rendered booking: the list on mobile, the
    grid otherwise. *)
Definition cancel_button (Env : EnvConfig) (tz : TimeZone) (now : Z) (booking : Booking)
    : bool :=
  if isMobile Env then mobile_cancel_button now booking
  else action_cell_cancel tz now booking.

(** A click on the cancel button of a booking, which opens the
    confirm dialog; there is nothing to click when it is not rendered. *)
Definition cancelBooking (Env : EnvConfig) (tz : TimeZone) (now : Z) (booking : Booking)
    : option (list (Action Booking Booking)) :=
  if cancel_button Env tz now booking
  then Some [setSelectedId (booking_id booking); setOpenCancelDialog true]
  else None.

(** The preconditions of the specification: cancellation enabled, no
    cancel request yet, status other than Cancelled, and a [from]
    date that is today or later. *)
Definition cancellation_allowed (tz : TimeZone) (now : Z) (booking : Booking) : Prop :=
  cancellation booking = true
  /\ cancelRequest booking = false
  /\ status booking <> Cancelled
  /\ (today tz now <= from booking)%Z.

(** The calendar day of the instant [t] in the zone is the day of
    [now], or a later one. *)
Definition today_or_later (tz : TimeZone) (now t : Z) : Prop :=
  (Day (LocalTime tz now) <= Day (LocalTime tz t))%Z.

End BookingList.


(** ** Sample data *)

Module Samples.
Import movininTypes ListComponent JsRegExp LocationController.

(** A sample engine: the case folding is the upper-case mapping of
    the letters of the Basic Latin and Latin-1 Supplement blocks, on
    which the engines agree, and [$] is not end-only. *)
Definition upper_latin1 (c : N) : N :=
  if (97 <=? c)%N && (c <=? 122)%N then (c - 32)%N
  else if (224 <=? c)%N && (c <=? 254)%N && negb (c =? 247)%N then (c - 32)%N
  else c.

#[export] Instance engine : RegexEngine := MkEngine upper_latin1 false.

(** A sample collator: the order of the code points of the folded names. *)
Fixpoint lex_leb (a b : text) : bool :=
  match a, b with
  | [], _ => true
  | _ :: _, [] => false
  | x :: a', y :: b' => (x <? y)%N || ((x =? y)%N && lex_leb a' b')
  end.

#[export] Instance collation : Collation :=
  fun a b => lex_leb (List.map upper_latin1 a) (List.map upper_latin1 b).

(** Two Locations: Paris, named in English and in French, and
    Londres, named in French only. *)
Definition db : Database :=
  MkDatabase
    (<[ 1%N := MkLocation [10%N; 11%N] ]> {[ 2%N := MkLocation [12%N] ]})
    (<[ 10%N := MkLocationValue "en" (text_of "Paris") ]>
       (<[ 11%N := MkLocationValue "fr" (text_of "Paris") ]>
          {[ 12%N := MkLocationValue "fr" (text_of "Londres") ]})).

(** New York around the night of 5 November 2023, when the clocks
    went back from 02:00 (UTC-4) to 01:00 (UTC-5), at 06:00 UTC; a
    local time of the repeated hour is read with the offset before
    the change. *)
Definition new_york_november_2023 : BookingList.TimeZone :=
  BookingList.MkTimeZone (fun t isUTC =>
    if isUTC then (if (t <? 1699164000000)%Z then -14400000 else -18000000)%Z
    else (if (t <? 1699149600000)%Z then -14400000 else -18000000)%Z).

Definition Env : EnvConfig := MkEnv 10 50 40 20 10 INFINITE_SCROLL false.

Definition alpha : User := MkUser "a1" "Alpha" "alpha.png".
Definition beta : User := MkUser "a2" "Beta" "beta.png".

Definition paris : movininTypes.Location := MkLocationOption "1" "Paris".
Definition parma : movininTypes.Location := MkLocationOption "3" "Parma".

Definition booking1 : Booking := MkBooking "b1" 1699948800000 Paid true false.
Definition booking2 : Booking := MkBooking "b2" 1700035200000 Pending true false.

Definition stA : State Option :=
  MkState true false [MkOption "a1" "Alpha" "alpha.png"] true 1 0 "al" 0 0 "" false.
Definition stL : State movininTypes.Location :=
  MkState true false [paris] true 1 0 "par" 0 0 "" false.
Definition stG : State User :=
  MkState false false [alpha] true 1 0 "" 1 2 "" false.
Definition stB : State Booking :=
  MkState false false [booking1] true 0 10 "" 2 0 "" false.

(** Responses of one envelope, with and without a [pageInfo] entry. *)
Definition users : option (list (option (Envelope User))) :=
  Some [Some (MkEnvelope [beta] (IsArray [MkPageInfo 2]))].
Definition locations : option (list (option (Envelope movininTypes.Location))) :=
  Some [Some (MkEnvelope [parma] (IsArray [MkPageInfo 2]))].
Definition bookings : option (list (option (Envelope Booking))) :=
  Some [Some (MkEnvelope [booking2] (IsArray [MkPageInfo 2]))].

Definition users_no_pageInfo : option (list (option (Envelope User))) :=
  Some [Some (MkEnvelope [beta] (IsArray []))].
Definition locations_no_pageInfo : option (list (option (Envelope movininTypes.Location))) :=
  Some [Some (MkEnvelope [parma] NotAnArray)].
Definition bookings_no_pageInfo : option (list (option (Envelope Booking))) :=
  Some [].

End Samples.


(** ** The location controller: create and update *)

Module LocationName.

(** [movininTypes.LocationName] *)
Record t : Type := Mk {
  language : string;
  name : text
}.

End LocationName.

Module LocationWrites.
Import LocationController.

(** The ids in use: the [_id] of every document and every id a
    [values] list refers to. *)
Definition used_ids (db : Database) : gset N :=
  dom (Location db) ∪ dom (LocationValue db)
  ∪ ⋃ (List.map (fun l : N * LocationDoc => list_to_set (values l.2))
         (map_to_list (Location db))).

(** The [_id] Mongoose gives a new document: an ObjectId that is not
    in use; the model takes the first one. *)
Definition new_ObjectId (db : Database) : N := fresh (used_ids db).

(** [new LocationValue({ language: name.language, value: name.name })] *)
Definition new_LocationValue (nm : LocationName.t) : LocationValueDoc :=
  MkLocationValue (LocationName.language nm) (LocationName.name nm).

(** The loop of [create]: each name is saved as a new LocationValue
    document, whose [_id] is pushed on [values]. *)
Fixpoint save_names (db : Database) (names : list LocationName.t) (vals : list N)
    : Database * list N :=
  match names with
  | [] => (db, vals)
  | nm :: rest =>
      let i := new_ObjectId db in
      let db' := MkDatabase (Location db)
                   (<[ i := new_LocationValue nm ]> (LocationValue db)) in
      save_names db' rest (vals ++ [i])
  end.

(** The [_id] of the Location [create] saves. *)
Definition created_id (db : Database) (names : list LocationName.t) : N :=
  new_ObjectId (save_names db names []).1.

Definition create (db : Database) (names : list LocationName.t) : Database * Response :=
  let saved := save_names db names [] in
  let db1 := saved.1 in
  let location := MkLocation saved.2 in
  (MkDatabase (<[ new_ObjectId db1 := location ]> (Location db1)) (LocationValue db1),
   SendStatus 200).

(** [locationValue.value = name.name] on a populated document: the
    document is the same object at every position of the array that
    holds it. *)
Definition set_value (i : N) (v : text) (mem : list ValueObject) : list ValueObject :=
  List.map (fun o : ValueObject =>
              if N.eqb o.1 i then (o.1, MkLocationValue (language o.2) v) else o) mem.

(** The loop of [update]; [mem] is [location.values], the populated
    array held in memory. A name whose language the Location has is
    written to the first value of that language; any other name is
    saved as a new LocationValue, pushed on [location.values], and the
    Location is saved with the new [_id] pushed on its [values]. *)
Fixpoint update_names (db : Database) (id : N) (mem : list ValueObject)
    (names : list LocationName.t) : Database :=
  match names with
  | [] => db
  | nm :: rest =>
      match List.filter
              (fun value : ValueObject =>
                 String.eqb (language value.2) (LocationName.language nm)) mem with
      | locationValue :: _ =>
          let saved := MkLocationValue (language locationValue.2) (LocationName.name nm) in
          let db' := MkDatabase (Location db)
                       (<[ locationValue.1 := saved ]> (LocationValue db)) in
          update_names db' id (set_value locationValue.1 (LocationName.name nm) mem) rest
      | [] =>
          let i := new_ObjectId db in
          let lv := new_LocationValue nm in
          let db1 := MkDatabase (Location db) (<[ i := lv ]> (LocationValue db)) in
          let db2 := MkDatabase
                       (alter (fun l => MkLocation (values l ++ [i])) id (Location db1))
                       (LocationValue db1) in
          update_names db2 id (mem ++ [(i, lv)]) rest
      end
  end.

Definition update (db : Database) (id : N) (names : list LocationName.t)
    : Database * Response :=
  match Location db !! id with
  | Some location =>
      (update_names db id (populate db (values location)) names, SendStatus 200)
  | None => (db, SendStatus 204)
  end.

(** One turn of the loop of [update], on the Location as it is stored. *)
Definition update_one (db : Database) (id : N) (nm : LocationName.t) : Database :=
  match Location db !! id with
  | Some location => update_names db id (populate db (values location)) [nm]
  | None => db
  end.

(** The name of the first of [names] in the language, and of the last. *)
Definition first_name (lang : string) (names : list LocationName.t) : option text :=
  LocationName.name <$> List.find (fun nm => String.eqb (LocationName.language nm) lang) names.

Definition last_name (lang : string) (names : list LocationName.t) : option text :=
  first_name lang (rev names).

(** The name [getLocation] reads for a language: the value of the first
    of the populated values in that language. *)
Definition stored_name (db : Database) (id : N) (lang : string) : option text :=
  match Location db !! id with
  | Some location =>
      match List.filter (fun v : ValueObject => String.eqb (language v.2) lang)
              (populate db (values location)) with
      | v :: _ => Some (value v.2)
      | [] => None
      end
  | None => None
  end.

End LocationWrites.

(** The outcome of an awaited service call that resolves to an HTTP
    status: it throws, or gives the status. *)
Inductive StatusResult : Type :=
| Threw (err : string)
| Status (code : Z).

(** ** AgencyList: the delete dialog *)

Module AgencyListDelete.
Import movininTypes ListComponent.

(** The cells of the dialog. *)
Record Dialog : Type := MkDialog {
  openDeleteDialog : bool;
  agencyId : string;
  agencyIndex : Z
}.

Definition initial : Dialog := MkDialog false "" (-1).

(** What [handleConfirmDelete] leaves: the updates of the cells of the
    list, the cells of the dialog, and the argument of [onDelete] when
    it is called. *)
Record Outcome : Type := MkOutcome {
  trace : list (Action User User);
  dialog : Dialog;
  onDelete : option Z
}.

(** [data_id] and [data_index] are the attributes of the clicked button. *)
Definition handleDelete (data_id : string) (data_index : Z) : Dialog :=
  MkDialog true data_id data_index.

Definition handleCancelDelete : Dialog := MkDialog false "" (-1).

(** [rows.splice(index, 1)] for an index that is not negative. *)
Definition splice1 {A : Type} (index : Z) (rows : list A) : list A :=
  delete (Z.to_nat index) rows.

Definition handleConfirmDelete (with_onDelete : bool) (st : State User) (dlg : Dialog)
    (res : StatusResult) : Outcome :=
  if negb (String.eqb (agencyId dlg) "") && (-1 <? agencyIndex dlg)%Z then
    let begun := [setLoading false] in
    match res with
    | Threw _ =>
        MkOutcome (begun ++ [Helper_error])
          (MkDialog false (agencyId dlg) (agencyIndex dlg)) None
    | Status status =>
        if (status =? 200)%Z then
          let _rowCount := (rowCount st - 1)%Z in
          MkOutcome
            (begun ++ [setRows (splice1 (agencyIndex dlg) (rows st));
                       setRowCount _rowCount;
                       setTotalRecords (totalRecords st - 1);
                       setLoading false])
            (MkDialog false "" (-1))
            (if with_onDelete then Some _rowCount else None)
        else
          MkOutcome (begun ++ [Helper_error; setLoading false])
            (MkDialog false "" (-1)) None
    end
  else
    MkOutcome [Helper_error; setLoading false] (MkDialog false "" (-1)) None.

(** The count the pager of the classic mode shows is the number of
    rows up to the end of the page on display. *)
Definition rowCount_counts_rows (Env : EnvConfig) (st : State User) : Prop :=
  rowCount st = ((page st - 1) * PAGE_SIZE Env + Z.of_nat (length (rows st)))%Z.

End AgencyListDelete.

(** ** BookingList: the cancel dialog *)

Module BookingListCancel.
Import movininTypes ListComponent.

(** The cells of the dialog that the list does not share. *)
Record Dialog : Type := MkDialog {
  cancelRequestSent : bool;
  cancelRequestProcessing : bool
}.

Definition with_cancelRequest (row : Booking) : Booking :=
  MkBooking (booking_id row) (from row) (status row) (cancellation row) true.

(** [const row = rows.find((r) => r._id === selectedId)] followed by
    [row.cancelRequest = true]: the first row of that id is changed in
    place. [None] when there is no such row. *)
Fixpoint request_cancel (selected : string) (rows : list Booking) : option (list Booking) :=
  match rows with
  | [] => None
  | r :: rest =>
      if String.eqb (booking_id r) selected then Some (with_cancelRequest r :: rest)
      else match request_cancel selected rest with
           | Some rest' => Some (r :: rest')
           | None => None
           end
  end.

Definition handleConfirmCancelBooking (st : State Booking) (dlg : Dialog)
    (res : StatusResult) : list (Action Booking Booking) * Dialog :=
  let processing := MkDialog (cancelRequestSent dlg) true in
  match res with
  | Threw _ =>
      ([Helper_error; setOpenCancelDialog false], MkDialog (cancelRequestSent dlg) false)
  | Status status =>
      if (status =? 200)%Z then
        match request_cancel (selectedId st) (rows st) with
        | Some rows' => ([setRows rows'; setSelectedId ""], MkDialog true false)
        | None => ([Helper_error], processing)
        end
      else
        ([Helper_error; setOpenCancelDialog false], MkDialog (cancelRequestSent dlg) false)
  end.

End BookingListCancel.

(** ** ImageEditor: the additional images *)

Module ImageEditor.

Record ImageItem : Type := MkImageItem {
  temp : bool;
  filename : string
}.

(** The cells [images] and [filenames]. *)
Record State : Type := MkState {
  images : list ImageItem;
  filenames : list string
}.

(** [useState(ieImages || [])] and [useState([])] *)
Definition initial (ieImages : list ImageItem) : State := MkState ieImages [].

(** What a handler asks of the outside: an upload, the callbacks
    [onAdd] and [onDelete], [Helper.error]. *)
Inductive Effect : Type :=
| uploadImage (name : string)
| onAdd (image : ImageItem)
| deleteTempImage (filename : string)
| onDelete (image : ImageItem)
| Helper_error.

(** [reader.onloadend] of [handleImagesChange] for one file; [uploaded]
    is the file name the upload resolves to, [None] when it throws. *)
Definition onloadend (st : State) (file_name : string) (uploaded : option string)
    : State * list Effect :=
  if negb (existsb (String.eqb file_name) (filenames st)) then
    match uploaded with
    | Some name =>
        let imgItem := MkImageItem true name in
        (MkState (images st ++ [imgItem]) (filenames st ++ [file_name]),
         [uploadImage file_name; onAdd imgItem])
    | None => (st, [uploadImage file_name; Helper_error])
    end
  else (st, []).

(** The click on the delete button of the image rendered at [index]. *)
Definition onClick_delete (st : State) (index : nat) (res : StatusResult)
    : State * list Effect :=
  match images st !! index with
  | None => (st, [])
  | Some _image =>
      match res with
      | Threw _ => (st, [deleteTempImage (filename _image); Helper_error])
      | Status status =>
          if (status =? 200)%Z then
            (MkState (delete index (images st)) (delete index (filenames st)),
             [deleteTempImage (filename _image); onDelete _image])
          else (st, [deleteTempImage (filename _image); Helper_error])
      end
  end.

Inductive Event : Type :=
| FileLoaded (file_name : string) (uploaded : option string)
| DeleteClicked (index : nat) (res : StatusResult).

Definition handle (st : State) (ev : Event) : State * list Effect :=
  match ev with
  | FileLoaded file_name uploaded => onloadend st file_name uploaded
  | DeleteClicked index res => onClick_delete st index res
  end.

(** The events handled one after the other, each on the state the one
    before left. *)
Fixpoint handle_events (st : State) (evs : list Event) : State * list Effect :=
  match evs with
  | [] => (st, [])
  | ev :: rest =>
      let r := handle st ev in
      let r' := handle_events r.1 rest in
      (r'.1, r.2 ++ r'.2)
  end.

End ImageEditor.

(** ** List components: outcomes and positions *)

(** The service call threw, or resolved to data whose first element is
    missing. *)
Definition fetch_failed {T : Type} (res : ListComponent.ServiceResult T) : Prop :=
  match res with
  | ListComponent.Rejected _ => True
  | ListComponent.Resolved data => ListComponent.first_or_default data = None
  end.

(** The cells a fetch may write, apart from the flags [loading] and
    [init], are the same in both states. *)
Definition same_data {R : Type} (st st' : ListComponent.State R) : Prop :=
  ListComponent.rows st' = ListComponent.rows st
  /\ ListComponent.fetch st' = ListComponent.fetch st
  /\ ListComponent.page st' = ListComponent.page st
  /\ ListComponent.keyword st' = ListComponent.keyword st
  /\ ListComponent.rowCount st' = ListComponent.rowCount st
  /\ ListComponent.totalRecords st' = ListComponent.totalRecords st.

(** The list box is scrolled to within [PAGE_OFFSET] of its end. *)
Definition at_end (Env : EnvConfig) (listboxNode : ListboxScroll) : Prop :=
  (scrollHeight listboxNode - PAGE_OFFSET Env
   <= scrollTop listboxNode + clientHeight listboxNode)%Z.

(** A scroll to the end of the list box answered by one envelope. *)
Definition scrolled_page {T : Type} (ev : ListboxScroll * Envelope T)
    : ListboxScroll * ListComponent.ServiceResult T :=
  (ev.1, ListComponent.Resolved (Some [Some ev.2])).

(** ** More sample data *)

Module MoreSamples.
Import movininTypes ListComponent LocationController.

(** Rome, named twice in English. *)
Definition rome : list LocationName.t :=
  [LocationName.Mk "en" (text_of "Rome"); LocationName.Mk "fr" (text_of "Rome");
   LocationName.Mk "en" (text_of "Roma")].

(** Lisbon, named once per language. *)
Definition lisbon : list LocationName.t :=
  [LocationName.Mk "en" (text_of "Lisbon"); LocationName.Mk "fr" (text_of "Lisbonne")].

(** The row and the envelope of a search for [par] in English. *)
Definition paris_row : LocationRow :=
  MkRow 1 [10%N; 11%N] (10%N, MkLocationValue "en" (text_of "Paris")) (text_of "Paris").

Definition paris_page : Envelope LocationRow :=
  MkEnvelope [paris_row] (IsArray [MkPageInfo 1]).

(** The sample database after Rome was created, and the two pages of
    a search for [Rom] in English, one row a page. *)
Definition rome_db : Database := (LocationWrites.create Samples.db rome).1.

Definition roma_page : Envelope LocationRow :=
  MkEnvelope
    [MkRow 16 [13%N; 14%N; 15%N] (15%N, MkLocationValue "en" (text_of "Roma"))
       (text_of "Roma")]
    (IsArray [MkPageInfo 2]).

Definition rome_page : Envelope LocationRow :=
  MkEnvelope
    [MkRow 16 [13%N; 14%N; 15%N] (13%N, MkLocationValue "en" (text_of "Rome"))
       (text_of "Rome")]
    (IsArray [MkPageInfo 2]).

(** A list box scrolled to its end. *)
Definition scrolled : ListboxScroll := MkListboxScroll 100 50 150.

Definition users_envelope : Envelope User :=
  MkEnvelope [Samples.beta] (IsArray [MkPageInfo 2]).

Definition locations_envelope : Envelope movininTypes.Location :=
  MkEnvelope [Samples.parma] (IsArray [MkPageInfo 2]).

(** A select list that has not been focused yet. *)
Definition fresh_agencies : State Option := AgencySelectList.initial.
Definition fresh_locations : State movininTypes.Location := LocationSelectList.initial.

(** The booking list with the first booking selected for cancellation. *)
Definition stB_selected : State Booking :=
  MkState false false [Samples.booking1; Samples.booking2] true 0 10 "" 2 0 "b1" true.

(** The booking list with a selection that is not among its rows. *)
Definition stB_stale : State Booking :=
  MkState false false [Samples.booking2] true 0 10 "" 2 0 "b1" true.

End MoreSamples.

(** ** Escaping and matching *)

Module JsRegExpFacts.
Import JsRegExp.

Lemma is_special_false (c : N) :
  is_special c = false ->
  N.eqb c backslash = false /\ N.eqb c dollar = false /\ N.eqb c caret = false.
Proof.
  unfold is_special; simpl; intros H.
  repeat (apply orb_false_iff in H as [? H]). auto.
Qed.

Lemma is_special_not_x (c : N) : is_special c = true -> N.eqb c letter_x = false.
Proof.
  intros H. destruct (N.eqb_spec c letter_x) as [-> |]; [discriminate H | reflexivity].
Qed.

Lemma parse_body_escape (kw tail : text) :
  parse_body (escapeStringRegexp kw ++ tail) = prepend kw (parse_body tail).
Proof.
  induction kw as [| c t IH]; simpl.
  - destruct (parse_body tail) as [[cs e] |]; reflexivity.
  - destruct (is_special c) eqn:Hs.
    + simpl. rewrite (is_special_not_x c Hs), Hs, IH.
      destruct (parse_body tail) as [[cs e] |]; reflexivity.
    + destruct (is_special_false c Hs) as (Hb & Hd & _).
      destruct (N.eqb_spec c hyphen) as [-> | Hm].
      * simpl. rewrite IH.
        destruct (parse_body tail) as [[cs e] |]; reflexivity.
      * simpl. rewrite Hb, Hd, Hs, IH.
        destruct (parse_body tail) as [[cs e] |]; reflexivity.
Qed.

Lemma escape_no_caret (kw : text) c rest :
  escapeStringRegexp kw = c :: rest -> N.eqb c caret = false.
Proof.
  destruct kw as [| a t]; simpl; [discriminate |].
  destruct (is_special a) eqn:Hs.
  - intros [= <- _]. reflexivity.
  - destruct (N.eqb a hyphen).
    + intros [= <- _]. reflexivity.
    + intros [= <- _]. apply (is_special_false a Hs).
Qed.

(** The escaped keyword compiles to the literal keyword, unanchored. *)
Lemma compile_escaped (kw : text) :
  compile (escapeStringRegexp kw) = Some (MkRegex false kw false).
Proof.
  pose proof (parse_body_escape kw []) as H.
  rewrite !app_nil_r in H. simpl in H. rewrite app_nil_r in H.
  unfold compile.
  destruct (escapeStringRegexp kw) as [| c rest] eqn:E.
  - destruct kw as [| a t]; [reflexivity |].
    simpl in E. destruct (is_special a); [discriminate |].
    destruct (N.eqb a hyphen); discriminate.
  - rewrite (escape_no_caret kw c rest E), H. reflexivity.
Qed.

(** Between [^] and [$] it compiles to the literal keyword, anchored at both ends. *)
Lemma compile_anchored (kw : text) :
  compile (caret :: escapeStringRegexp kw ++ [dollar]) = Some (MkRegex true kw true).
Proof.
  simpl. rewrite parse_body_escape. simpl. rewrite app_nil_r. reflexivity.
Qed.

Section Matching.
Context {engine : RegexEngine}.

Lemma end_of_input_spec (s : text) :
  end_of_input s = true <-> s = [] \/ (dollar_endonly = false /\ s = [line_feed]).
Proof.
  destruct s as [| c [| d s']]; simpl.
  - split; [auto | reflexivity].
  - rewrite andb_true_iff, negb_true_iff, N.eqb_eq. split.
    + intros [He ->]. right. auto.
    + intros [H | [He H]]; [discriminate H | injection H as ->; auto].
  - split; [discriminate | intros [H | [_ H]]; discriminate H].
Qed.

Lemma match_here_entire (kw s : text) :
  match_here true true kw s = true <-> matches_entire_value kw s.
Proof.
  unfold matches_entire_value, same_up_to_case, fold_case. revert s.
  induction kw as [| p ps IH]; intros s.
  - simpl. destruct s as [| c s']; [simpl; split; auto |].
    change (match_here true true [] (c :: s')) with (end_of_input (c :: s')).
    rewrite end_of_input_spec. split.
    + intros [H | [He H]]; [discriminate H |]. right. split; [exact He |].
      exists []. rewrite H. split; reflexivity.
    + intros [H | [He (v' & Hv & Hf)]]; [discriminate H |]. right. split; [exact He |].
      destruct v'; [exact Hv | discriminate Hf].
  - destruct s as [| c s']; simpl.
    + split; [discriminate |].
      intros [H | [_ (v' & Hv & _)]]; [discriminate H | destruct v'; discriminate Hv].
    + unfold char_eq. rewrite andb_true_iff, IH, N.eqb_eq. split.
      * intros [Hc [Hf | [He (v' & -> & Hf)]]].
        -- left. simpl. congruence.
        -- right. split; [exact He |]. exists (c :: v'). split; [reflexivity |].
           simpl. congruence.
      * intros [Hf | [He (v' & Hv & Hf)]].
        -- injection Hf as Hc Hf. split; [congruence |]. left. exact Hf.
        -- destruct v' as [| c' v'']; [discriminate Hf |].
           injection Hv as -> ->. injection Hf as Hc Hf.
           split; [congruence |]. right. split; [exact He |]. exists v''. auto.
Qed.

Lemma match_here_prefix (kw s : text) :
  match_here true false kw s = true
  <-> exists mid post, s = mid ++ post /\ fold_case mid = fold_case kw.
Proof.
  unfold fold_case. revert s. induction kw as [| p ps IH]; intros s; simpl.
  - split.
    + intros _. exists [], s. split; reflexivity.
    + intros _. reflexivity.
  - destruct s as [| c s'].
    + split; [discriminate |].
      intros (mid & post & Hs & Hf). destruct mid; simpl in *; discriminate.
    + unfold char_eq. rewrite andb_true_iff, IH, N.eqb_eq. split.
      * intros (Hc & mid & post & -> & Hf).
        exists (c :: mid), post. simpl. rewrite Hc, Hf. split; reflexivity.
      * intros (mid & post & Hs & Hf).
        destruct mid as [| m mid']; simpl in *; [discriminate |].
        injection Hs as -> ->. injection Hf as Hc Hf.
        split; [congruence |]. exists mid', post. auto.
Qed.

Lemma search_substring (kw s : text) :
  search true false kw s = true <-> matches_some_substring kw s.
Proof.
  unfold matches_some_substring.
  induction s as [| c s' IH]; simpl; rewrite orb_true_iff.
  - split.
    + intros [H | H]; [| discriminate].
      apply (match_here_prefix kw []) in H as (mid & post & Hs & Hf).
      exists [], mid, post. auto.
    + intros (pre & mid & post & Hs & Hf). left.
      apply (match_here_prefix kw []). destruct pre; simpl in Hs; [| discriminate].
      exists mid, post. auto.
  - rewrite IH. split.
    + intros [H | (pre & mid & post & -> & Hf)].
      * apply match_here_prefix in H as (mid & post & Hs & Hf).
        exists [], mid, post. auto.
      * exists (c :: pre), mid, post. auto.
    + intros (pre & mid & post & Hs & Hf).
      destruct pre as [| a pre']; simpl in Hs.
      * left. apply match_here_prefix. exists mid, post. auto.
      * injection Hs as -> ->. right. exists pre', mid, post. auto.
Qed.

End Matching.

End JsRegExpFacts.

(** ** The location controller: search *)

Module LocationFacts.
Import JsRegExp JsRegExpFacts LocationController.

Section Search.
Context {engine : RegexEngine} {collation : Collation}.

Lemma new_RegExp_escaped (kw : text) :
  new_RegExp (escapeStringRegexp kw) = Ok (keyword_regex kw).
Proof. unfold new_RegExp. rewrite compile_escaped. reflexivity. Qed.

Lemma new_RegExp_anchored (nm : text) :
  new_RegExp (caret :: escapeStringRegexp nm ++ [dollar]) = Ok (MkRegex true nm true).
Proof. unfold new_RegExp. rewrite compile_anchored. reflexivity. Qed.

Lemma validate_filter_spec (lang : string) (nm : text) (d : ValueObject) :
  validate_filter lang (MkRegex true nm true) d = true
  <-> language d.2 = lang /\ matches_entire_value nm (value d.2).
Proof.
  unfold validate_filter, exec; simpl.
  rewrite andb_true_iff, String.eqb_eq, match_here_entire. reflexivity.
Qed.

Lemma lookup_match_spec (vals : list N) (lang : string) (kw : text) (d : ValueObject) :
  lookup_match vals lang (keyword_regex kw) d = true
  <-> d.1 ∈ vals /\ language d.2 = lang /\ matches_some_substring kw (value d.2).
Proof.
  unfold lookup_match, exec; simpl.
  rewrite !andb_true_iff, String.eqb_eq, search_substring, bool_decide_eq_true.
  tauto.
Qed.

(** Every row of the join comes from a Location of the collection and
    from one of its values that passes the [$match]. *)
Lemma in_matching_rows (db : Database) (lang : string) (re : regex) (r : LocationRow) :
  In r (matching_rows db lang re)
  <-> exists loc, Location db !! _id r = Some loc
        /\ row_values r = values loc
        /\ name r = value (row_value r).2
        /\ LocationValue db !! (row_value r).1 = Some (row_value r).2
        /\ lookup_match (values loc) lang re (row_value r) = true.
Proof.
  unfold matching_rows, unwind_addFields, lookup_stage.
  rewrite in_flat_map. split.
  - intros ([id loc] & Hl & Hr). simpl in Hr.
    apply in_map_iff in Hr as (v & <- & Hv).
    apply filter_In in Hv as [Hv Hm]. simpl.
    apply list_elem_of_In, elem_of_map_to_list in Hl.
    apply list_elem_of_In in Hv. destruct v as [vi vd].
    apply elem_of_map_to_list in Hv.
    exists loc. auto.
  - intros (loc & Hl & Hvs & Hn & Hv & Hm).
    exists (_id r, loc). split.
    + apply list_elem_of_In, elem_of_map_to_list. exact Hl.
    + simpl. apply in_map_iff. exists (row_value r). split.
      * destruct r as [i vs v n]; simpl in *. congruence.
      * apply filter_In. split; [| exact Hm].
        apply list_elem_of_In. destruct (row_value r) as [vi vd].
        apply elem_of_map_to_list. exact Hv.
Qed.

(** The rows of a search by keyword: a Location of the collection
    joined with one of the names its [values] list refers to, the
    name being in the language and the keyword occurring in it. *)
Lemma in_keyword_rows (db : Database) (lang : string) (kw : text) (r : LocationRow) :
  In r (matching_rows db lang (keyword_regex kw))
  <-> exists loc, Location db !! _id r = Some loc
        /\ row_values r = values loc
        /\ (row_value r).1 ∈ values loc
        /\ LocationValue db !! (row_value r).1 = Some (row_value r).2
        /\ language (row_value r).2 = lang
        /\ name r = value (row_value r).2
        /\ matches_some_substring kw (name r).
Proof.
  rewrite in_matching_rows. split.
  - intros (loc & Hl & Hvs & Hn & Hv & Hm).
    apply lookup_match_spec in Hm as (Hin & Hlang & Hsub).
    exists loc. rewrite Hn. auto 10.
  - intros (loc & Hl & Hvs & Hin & Hv & Hlang & Hn & Hsub).
    exists loc. repeat (split; [assumption |]).
    apply lookup_match_spec. rewrite <- Hn. auto.
Qed.

Lemma count_stage_total (rows : list LocationRow) :
  pageInfo_totalRecords (IsArray (count_stage rows)) = Z.of_nat (length rows).
Proof. destruct rows; reflexivity. Qed.

(** What [getLocations] answers on a valid page request. *)
Lemma getLocations_ok (db : Database) (p s : Z) (lang : string) (kw : text) :
  (1 <= p)%Z -> (0 < s)%Z ->
  getLocations db p s lang kw
  = SendJson (JsonPage
      [MkEnvelope
         (take (Z.to_nat s)
            (drop (Z.to_nat ((p - 1) * s))
               (sort_stage (matching_rows db lang (keyword_regex kw)))))
         (IsArray (count_stage (matching_rows db lang (keyword_regex kw))))]).
Proof.
  intros Hp Hs. unfold getLocations. rewrite new_RegExp_escaped. simpl.
  unfold aggregate, skip_stage, limit_stage.
  assert (((p - 1) * s <? 0)%Z = false) as -> by (apply Z.ltb_ge; nia).
  simpl.
  assert ((s <=? 0)%Z = false) as -> by (apply Z.leb_gt; lia).
  reflexivity.
Qed.

(** A row of a page is a row of the join. *)
Lemma in_page (db : Database) (p s : Z) (lang : string) (kw : text)
    (env : Envelope LocationRow) (r : LocationRow) :
  getLocations db p s lang kw = SendJson (JsonPage [env]) ->
  r ∈ resultData env ->
  In r (matching_rows db lang (keyword_regex kw)).
Proof.
  unfold getLocations. rewrite new_RegExp_escaped. simpl.
  unfold aggregate, skip_stage.
  destruct ((p - 1) * s <? 0)%Z; simpl; [discriminate |].
  unfold limit_stage. destruct (s <=? 0)%Z; simpl; [discriminate |].
  intros [= <-]. cbn [resultData]. intros Hr.
  apply subseteq_take, subseteq_drop in Hr.
  unfold sort_stage in Hr. rewrite merge_sort_Permutation in Hr.
  apply list_elem_of_In. exact Hr.
Qed.



Lemma flat_map_length_le1 {A B : Type} (f : A -> list B) (l : list A) :
  (forall x, In x l -> (length (f x) <= 1)%nat) ->
  length (flat_map f l) = length (List.filter (fun x => nonempty (f x)) l).
Proof.
  induction l as [| a l IH]; intros H; simpl; [reflexivity |].
  rewrite length_app, IH by (intros x Hx; apply H; right; exact Hx).
  pose proof (H a (or_introl eq_refl)) as Ha.
  destruct (f a) as [| b [| b' t]]; simpl in *; [reflexivity | reflexivity | lia].
Qed.

Lemma filter_length_le1 {A : Type} (P : A -> bool) (l : list A) :
  NoDup l ->
  (forall x y, In x l -> In y l -> P x = true -> P y = true -> x = y) ->
  (length (List.filter P l) <= 1)%nat.
Proof.
  intros Hnd Huniq.
  destruct (List.filter P l) as [| a [| b t]] eqn:E; simpl; [lia | lia |].
  exfalso.
  assert (In a (List.filter P l)) as Ha by (rewrite E; left; reflexivity).
  assert (In b (List.filter P l)) as Hb by (rewrite E; right; left; reflexivity).
  apply filter_In in Ha as [Ha Pa]. apply filter_In in Hb as [Hb Pb].
  pose proof (Huniq a b Ha Hb Pa Pb) as ->.
  assert (NoDup (List.filter P l)) as Hnd'.
  { apply NoDup_ListNoDup, List.NoDup_filter, NoDup_ListNoDup, Hnd. }
  rewrite E in Hnd'. apply NoDup_cons in Hnd' as [Hnotin _].
  apply Hnotin. left.
Qed.

Lemma lookup_stage_le1 (db : Database) (lang : string) (re : regex) (l : N * LocationDoc) :
  one_value_per_language db ->
  In l (map_to_list (Location db)) ->
  (length (j_value (lookup_stage db lang re l)) <= 1)%nat.
Proof.
  intros Hone Hl. destruct l as [id loc].
  apply list_elem_of_In, elem_of_map_to_list in Hl.
  unfold lookup_stage; simpl. apply filter_length_le1.
  - apply NoDup_map_to_list.
  - intros [v1 d1] [v2 d2] H1 H2 P1 P2.
    apply list_elem_of_In, elem_of_map_to_list in H1, H2.
    unfold lookup_match in P1, P2; simpl in *.
    apply andb_true_iff in P1 as [P1 _]. apply andb_true_iff in P1 as [I1 L1].
    apply andb_true_iff in P2 as [P2 _]. apply andb_true_iff in P2 as [I2 L2].
    apply bool_decide_eq_true in I1, I2. apply String.eqb_eq in L1, L2.
    assert (v1 = v2) as -> by (eapply (Hone id loc v1 v2 d1 d2); eauto; congruence).
    congruence.
Qed.

(** With one name per language a Location contributes at most one
    row: the rows of the join are as many as the Locations that have
    a match. *)
Lemma matching_rows_count_locations (db : Database) (lang : string) (re : regex) :
  one_value_per_language db ->
  length (matching_rows db lang re)
  = length (List.filter (has_match db lang re) (map_to_list (Location db))).
Proof.
  intros Hone. unfold matching_rows.
  rewrite flat_map_length_le1.
  - apply f_equal, List.filter_ext. intros l. unfold has_match, unwind_addFields.
    destruct (j_value (lookup_stage db lang re l)); reflexivity.
  - intros l Hl. unfold unwind_addFields. rewrite length_map.
    apply lookup_stage_le1; assumption.
Qed.

Lemma has_match_spec (db : Database) (lang : string) (kw : text) (l : N * LocationDoc) :
  has_match db lang (keyword_regex kw) l = true <-> has_matching_value db lang kw l.2.
Proof.
  unfold has_match, has_matching_value, lookup_stage; simpl. split.
  - destruct (List.filter _ _) as [| [v d] t] eqn:E; [discriminate |]. intros _.
    assert (In (v, d) (List.filter (lookup_match (values l.2) lang (keyword_regex kw))
                         (map_to_list (LocationValue db)))) as Hin
      by (rewrite E; left; reflexivity).
    apply filter_In in Hin as [Hin Hm].
    apply list_elem_of_In, elem_of_map_to_list in Hin.
    apply lookup_match_spec in Hm as (Hv & Hl & Hs). simpl in *.
    exists v, d. auto.
  - intros (v & d & Hv & Hd & Hl & Hs).
    assert (In (v, d) (List.filter (lookup_match (values l.2) lang (keyword_regex kw))
                         (map_to_list (LocationValue db)))) as Hin.
    { apply filter_In. split.
      - apply list_elem_of_In, elem_of_map_to_list. exact Hd.
      - apply lookup_match_spec. simpl. auto. }
    destruct (List.filter _ _); [destruct Hin | reflexivity].
Qed.

(** A row of the join is determined by the Location and the name value. *)
Lemma row_key_inj (db : Database) (lang : string) (re : regex) (r r' : LocationRow) :
  In r (matching_rows db lang re) -> In r' (matching_rows db lang re) ->
  row_key r = row_key r' -> r = r'.
Proof.
  intros Hr Hr' Hk.
  apply in_matching_rows in Hr as (loc & Hl & Hvs & Hn & Hv & _).
  apply in_matching_rows in Hr' as (loc' & Hl' & Hvs' & Hn' & Hv' & _).
  destruct r as [i vs [v d] n], r' as [i' vs' [v' d'] n']. unfold row_key in Hk.
  simpl in *. injection Hk as -> ->.
  rewrite Hl in Hl'. injection Hl' as <-. rewrite Hv in Hv'. injection Hv' as <-.
  congruence.
Qed.

Lemma flat_map_bind {A B : Type} (f : A -> list B) (l : list A) :
  flat_map f l = l ≫= f.
Proof. induction l as [| a l IH]; [reflexivity |]. simpl. rewrite IH. reflexivity. Qed.

(** The join holds no row twice. *)
Lemma NoDup_matching_rows (db : Database) (lang : string) (re : regex) :
  NoDup (matching_rows db lang re).
Proof.
  unfold matching_rows. rewrite flat_map_bind. apply NoDup_bind.
  - intros [i loc] [i' loc'] r Hi Hi' Hr Hr'.
    apply elem_of_map_to_list in Hi, Hi'.
    unfold unwind_addFields, lookup_stage in Hr, Hr'. simpl in Hr, Hr'.
    apply list_elem_of_In, in_map_iff in Hr as (v & <- & _).
    apply list_elem_of_In, in_map_iff in Hr' as (v' & [= <- _ _ _] & _).
    rewrite Hi in Hi'. congruence.
  - intros [i loc] _. unfold unwind_addFields, lookup_stage. simpl.
    apply NoDup_ListNoDup, List.NoDup_map_NoDup_ForallPairs.
    + intros v v' _ _ [= ->]. reflexivity.
    + apply List.NoDup_filter, NoDup_ListNoDup, NoDup_map_to_list.
  - apply NoDup_map_to_list.
Qed.

(** The Locations joined with their matching names, each pair once. *)
Lemma matching_names (db : Database) (lang : string) (kw : text) :
  let names := List.map row_key (matching_rows db lang (keyword_regex kw)) in
  NoDup names
  /\ (forall id v, (id, v) ∈ names <-> matching_name db lang kw id v)
  /\ length names = length (matching_rows db lang (keyword_regex kw)).
Proof.
  cbn zeta. split; [| split].
  - apply NoDup_ListNoDup, List.NoDup_map_NoDup_ForallPairs.
    + intros r r'. apply row_key_inj.
    + apply NoDup_ListNoDup, NoDup_matching_rows.
  - intros id v. rewrite list_elem_of_In, in_map_iff. split.
    + intros (r & Hk & Hr). injection Hk as <- <-.
      apply in_keyword_rows in Hr as (loc & Hl & _ & Hin & Hv & Hlang & Hn & Hsub).
      exists loc, (row_value r).2. rewrite <- Hn. auto.
    + intros (loc & d & Hl & Hin & Hv & Hlang & Hsub).
      exists (MkRow id (values loc) (v, d) (value d)). split; [reflexivity |].
      apply in_keyword_rows. exists loc. simpl. auto 10.
  - apply length_map.
Qed.

(** The Locations that have a matching name, each once. *)
Lemma matching_locations (db : Database) (lang : string) (kw : text) :
  let ids := List.map fst (List.filter (has_match db lang (keyword_regex kw))
                             (map_to_list (Location db))) in
  NoDup ids
  /\ (forall id, id ∈ ids
        <-> exists loc, Location db !! id = Some loc /\ has_matching_value db lang kw loc)
  /\ length ids = length (List.filter (has_match db lang (keyword_regex kw))
                            (map_to_list (Location db))).
Proof.
  cbn zeta. split; [| split].
  - apply NoDup_ListNoDup, List.NoDup_map_NoDup_ForallPairs.
    + intros [i loc] [i' loc'] Hi Hi' Heq. simpl in Heq. subst i'.
      apply filter_In in Hi as [Hi _]. apply filter_In in Hi' as [Hi' _].
      apply list_elem_of_In, elem_of_map_to_list in Hi, Hi'. congruence.
    + apply List.NoDup_filter, NoDup_ListNoDup, NoDup_map_to_list.
  - intros id. rewrite list_elem_of_In, in_map_iff. split.
    + intros ([i loc] & Hi & Hl). simpl in Hi. subst i.
      apply filter_In in Hl as [Hl Hm].
      apply list_elem_of_In, elem_of_map_to_list in Hl.
      apply has_match_spec in Hm. exists loc. auto.
    + intros (loc & Hl & Hm). exists (id, loc). split; [reflexivity |].
      apply filter_In. split.
      * apply list_elem_of_In, elem_of_map_to_list. exact Hl.
      * apply has_match_spec. exact Hm.
  - apply length_map.
Qed.

(** C1, as amended. A request for page [p >= 1] of size [s > 0] is
    answered with one envelope. Its [pageInfo] counts the matching
    name values, the pairs of a Location and of one of its names that
    is in the language and contains the keyword: a Location counts
    once for each such name, whatever [p] and [s] are (no entry at
    all, read as 0, when there is none). When no Location has two
    names in one language that number is the number of Locations that
    have a matching name. [resultData] has at most [s] rows. *)
Theorem getLocations_totalRecords_and_page_size
    (db : Database) (p s : Z) (lang : string) (kw : text) :
  (1 <= p)%Z -> (0 < s)%Z ->
  exists (env : Envelope LocationRow) (names : list (N * N)),
    getLocations db p s lang kw = SendJson (JsonPage [env])
    /\ NoDup names
    /\ (forall id v, (id, v) ∈ names <-> matching_name db lang kw id v)
    /\ pageInfo_totalRecords (pageInfo env) = Z.of_nat (length names)
    /\ pageInfo env
       = IsArray (if nonempty names then [MkPageInfo (Z.of_nat (length names))] else [])
    /\ (one_value_per_language db ->
        exists ids : list N,
          NoDup ids
          /\ (forall id, id ∈ ids
                <-> exists loc, Location db !! id = Some loc
                                /\ has_matching_value db lang kw loc)
          /\ pageInfo_totalRecords (pageInfo env) = Z.of_nat (length ids))
    /\ (Z.of_nat (length (resultData env)) <= s)%Z.
Proof.
  intros Hp Hs.
  destruct (matching_names db lang kw) as (Hnd & Hin & Hlen).
  eexists. eexists. split; [apply getLocations_ok; assumption |].
  cbn [pageInfo resultData].
  split; [exact Hnd |]. split; [exact Hin |].
  split; [rewrite count_stage_total, Hlen; reflexivity |]. split; [| split].
  - rewrite Hlen. unfold count_stage.
    destruct (matching_rows db lang (keyword_regex kw)); reflexivity.
  - intros Hone. destruct (matching_locations db lang kw) as (Hnd' & Hin' & Hlen').
    eexists. split; [exact Hnd' |]. split; [exact Hin' |].
    rewrite count_stage_total, Hlen', matching_rows_count_locations by assumption.
    reflexivity.
  - rewrite length_take. lia.
Qed.

(** What [validate] answers: 204 when some stored name in the
    language equals the given name up to case, 200 otherwise. *)
Lemma validate_answers (db : Database) (lang : string) (nm : text) :
  ((exists v d, LocationValue db !! v = Some d /\ language d = lang
                /\ matches_entire_value nm (value d))
   /\ validate db lang nm = SendStatus 204)
  \/ ((forall v d, LocationValue db !! v = Some d -> language d = lang ->
                   ~ matches_entire_value nm (value d))
      /\ validate db lang nm = SendStatus 200).
Proof.
  unfold validate. rewrite new_RegExp_anchored. simpl.
  destruct (List.find _ _) as [[v d] |] eqn:E.
  - left. apply find_some in E as [Hin Hf].
    apply list_elem_of_In, elem_of_map_to_list in Hin.
    apply validate_filter_spec in Hf as [Hl Hm]. split; [| reflexivity].
    exists v, d. auto.
  - right. split; [| reflexivity]. intros v d Hd Hl Hm.
    pose proof (find_none _ _ E (v, d)) as Hn.
    rewrite (proj2 (validate_filter_spec lang nm (v, d))) in Hn by auto.
    discriminate Hn.
    apply list_elem_of_In, elem_of_map_to_list. exact Hd.
Qed.


End Search.

End LocationFacts.

(** ** The location controller: deletion and fetch by id *)

Module LocationStoreFacts.
Import JsRegExp JsRegExpFacts LocationController LocationFacts.

Lemma deleteMany_lookup_in (ids : list N) (coll : gmap N LocationValueDoc) (v : N) :
  v ∈ ids -> deleteMany ids coll !! v = None.
Proof.
  intros Hv. unfold deleteMany. apply map_lookup_filter_None. right.
  intros x _ Hn. apply Hn. exact Hv.
Qed.

Lemma deleteMany_lookup_notin (ids : list N) (coll : gmap N LocationValueDoc) (v : N) :
  v ∉ ids -> deleteMany ids coll !! v = coll !! v.
Proof.
  intros Hv. unfold deleteMany. destruct (coll !! v) as [x |] eqn:E.
  - apply map_lookup_filter_Some. split; [exact E | exact Hv].
  - apply map_lookup_filter_None. left. exact E.
Qed.

Lemma getLocation_absent (db : Database) (id : N) (lang : string) :
  Location db !! id = None -> getLocation db id lang = SendStatus 204.
Proof. intros H. unfold getLocation. rewrite H. reflexivity. Qed.

(** C5. Deleting an existing Location answers 200, removes its
    document and every LocationValue document its [values] list
    names, leaves every other document as it was, and a later fetch
    of the id answers 204; deleting an id that names no Location
    leaves the database as it was and answers 204. *)
Theorem deleteLocation_cascades (db : Database) (id : N) :
  match Location db !! id with
  | Some loc =>
      status (deleteLocation db id).2 = 200%Z
      /\ Location (deleteLocation db id).1 !! id = None
      /\ (forall v, v ∈ values loc -> LocationValue (deleteLocation db id).1 !! v = None)
      /\ (forall j, j <> id ->
            Location (deleteLocation db id).1 !! j = Location db !! j)
      /\ (forall v, v ∉ values loc ->
            LocationValue (deleteLocation db id).1 !! v = LocationValue db !! v)
      /\ (forall lang, getLocation (deleteLocation db id).1 id lang = SendStatus 204)
  | None =>
      (deleteLocation db id).1 = db
      /\ status (deleteLocation db id).2 = 204%Z
  end.
Proof.
  unfold deleteLocation. destruct (Location db !! id) as [loc |] eqn:E; simpl.
  - split; [reflexivity |]. split; [apply lookup_delete_eq |].
    split; [intros v Hv; apply deleteMany_lookup_in; exact Hv |].
    split; [intros j Hj; apply lookup_delete_ne; congruence |].
    split; [intros v Hv; apply deleteMany_lookup_notin; exact Hv |].
    intros lang. apply getLocation_absent. simpl. apply lookup_delete_eq.
  - split; reflexivity.
Qed.

(** On the sample database: deleting Paris removes its two names and
    keeps Londres and its name; deleting an unknown id changes nothing. *)
Lemma deleteLocation_sample :
  let db' := (deleteLocation Samples.db 1).1 in
  (deleteLocation Samples.db 1).2 = SendStatus 200
  /\ Location db' !! 1%N = None
  /\ LocationValue db' !! 10%N = None
  /\ LocationValue db' !! 11%N = None
  /\ Location db' !! 2%N = Some (MkLocation [12%N])
  /\ LocationValue db' !! 12%N = Some (MkLocationValue "fr" (text_of "Londres"))
  /\ getLocation db' 1 "en" = SendStatus 204
  /\ deleteLocation Samples.db 7 = (Samples.db, NotFoundMessage 7).
Proof. repeat split; vm_compute; reflexivity. Qed.

Lemma in_populate (db : Database) (ids : list N) (v : N) (d : LocationValueDoc) :
  In (v, d) (populate db ids) <-> v ∈ ids /\ LocationValue db !! v = Some d.
Proof.
  unfold populate. rewrite <- list_elem_of_In, list_elem_of_omap. split.
  - intros (i & Hi & Hf). destruct (LocationValue db !! i) as [x |] eqn:E;
      simpl in Hf; [| discriminate].
    injection Hf as -> ->. auto.
  - intros [Hv Hd]. exists v. split; [exact Hv |]. rewrite Hd. reflexivity.
Qed.

(** C10. For an existing Location, [getLocation] answers the
    location JSON, with one of its names in the language, exactly
    when it has a name in the requested language; when it has none
    the answer is the 400 of the error path, and it is never 204. *)
Theorem getLocation_without_language_is_400
    (db : Database) (id : N) (loc : LocationDoc) (lang : string) :
  Location db !! id = Some loc ->
  (has_language db lang loc ->
     exists v d, v ∈ values loc /\ LocationValue db !! v = Some d /\ language d = lang
       /\ getLocation db id lang
          = SendJson (JsonLocation id (populate db (values loc)) (value d)))
  /\ (~ has_language db lang loc ->
       status (getLocation db id lang) = 400%Z
       /\ exists e, getLocation db id lang = DbError e)
  /\ ((exists j, getLocation db id lang = SendJson j) -> has_language db lang loc)
  /\ status (getLocation db id lang) <> 204%Z.
Proof.
  intros Hloc. unfold getLocation, has_language. rewrite Hloc.
  destruct (List.filter (fun v => String.eqb (language v.2) lang)
              (populate db (values loc))) as [| [v d] t] eqn:E; simpl.
  - assert (forall v d, v ∈ values loc -> LocationValue db !! v = Some d ->
                        language d <> lang) as Hnone.
    { intros v d Hv Hd Hl.
      assert (In (v, d) (List.filter (fun v => String.eqb (language v.2) lang)
                           (populate db (values loc)))) as Hin.
      { apply filter_In. split; [apply in_populate; auto |].
        simpl. apply String.eqb_eq. exact Hl. }
      rewrite E in Hin. destruct Hin. }
    split; [intros (v & d & Hv & Hd & Hl); destruct (Hnone v d Hv Hd Hl) |].
    split; [intros _; split; [reflexivity | eexists; reflexivity] |].
    split; [intros [j Hj]; discriminate Hj | discriminate].
  - assert (In (v, d) (List.filter (fun v => String.eqb (language v.2) lang)
                         (populate db (values loc)))) as Hin
      by (rewrite E; left; reflexivity).
    apply filter_In in Hin as [Hin Hl]. apply in_populate in Hin as [Hv Hd].
    simpl in Hl. apply String.eqb_eq in Hl.
    split; [intros _; exists v, d; auto |].
    split; [intros Hn; destruct Hn; exists v, d; auto |].
    split; [intros _; exists v, d; auto | discriminate].
Qed.

End LocationStoreFacts.

(** ** The location controller: Locations without a matching name *)

Module LocationJoinFacts.
Import JsRegExp JsRegExpFacts LocationController LocationFacts.

Section Join.
Context {engine : RegexEngine} {collation : Collation}.

Lemma count_stage_length (rows rows' : list LocationRow) :
  length rows = length rows' -> count_stage rows = count_stage rows'.
Proof.
  destruct rows, rows'; simpl; intros H; try discriminate H; congruence.
Qed.

(** A Location without a match adds nothing to the join. *)
Lemma unwind_no_match (db : Database) (lang : string) (kw : text) (id : N) (loc : LocationDoc) :
  ~ has_matching_value db lang kw loc ->
  unwind_addFields (lookup_stage db lang (keyword_regex kw) (id, loc)) = [].
Proof.
  intros Hno. unfold unwind_addFields.
  destruct (j_value (lookup_stage db lang (keyword_regex kw) (id, loc))) eqn:E;
    [reflexivity |].
  destruct Hno. apply (has_match_spec db lang kw (id, loc)).
  unfold has_match. rewrite E. reflexivity.
Qed.

(** The join is, up to the order of its rows, the join of the
    database without that Location. *)
Lemma matching_rows_without (db : Database) (lang : string) (kw : text) (id : N) (loc : LocationDoc) :
  Location db !! id = Some loc ->
  ~ has_matching_value db lang kw loc ->
  matching_rows db lang (keyword_regex kw)
  ≡ₚ matching_rows (without_location db id) lang (keyword_regex kw).
Proof.
  intros Hloc Hno. unfold matching_rows.
  rewrite <- (map_to_list_delete (Location db) id loc Hloc).
  simpl. rewrite (unwind_no_match db lang kw id loc Hno). reflexivity.
Qed.

Lemma row_of_other_location (db : Database) (lang : string) (kw : text) (id : N)
    (loc : LocationDoc) (r : LocationRow) :
  Location db !! id = Some loc ->
  ~ has_matching_value db lang kw loc ->
  In r (matching_rows db lang (keyword_regex kw)) ->
  _id r <> id.
Proof.
  intros Hloc Hno Hr Heq. apply in_matching_rows in Hr as (loc' & Hl & _ & _ & Hv & Hm).
  rewrite Heq, Hloc in Hl. injection Hl as <-.
  apply lookup_match_spec in Hm as (Hin & Hlang & Hsub).
  apply Hno. exists (row_value r).1, (row_value r).2. auto.
Qed.

(** C6. A Location none of whose names is in the language and
    contains the keyword has no row in [resultData], and the
    [pageInfo] is the one of the same request on the database without
    that Location; a request the pipeline rejects is rejected alike
    on both. *)
Theorem getLocations_excludes_unmatched_location
    (db : Database) (p s : Z) (lang : string) (kw : text) (id : N) (loc : LocationDoc) :
  Location db !! id = Some loc ->
  ~ has_matching_value db lang kw loc ->
  (exists env env',
      getLocations db p s lang kw = SendJson (JsonPage [env])
      /\ getLocations (without_location db id) p s lang kw = SendJson (JsonPage [env'])
      /\ (forall r, r ∈ resultData env -> _id r <> id)
      /\ pageInfo env = pageInfo env')
  \/ (exists e,
      getLocations db p s lang kw = DbError e
      /\ getLocations (without_location db id) p s lang kw = DbError e).
Proof.
  intros Hloc Hno. unfold getLocations. rewrite new_RegExp_escaped. simpl.
  unfold aggregate, skip_stage.
  destruct ((p - 1) * s <? 0)%Z; simpl;
    [right; eexists; split; reflexivity |].
  unfold limit_stage.
  destruct (s <=? 0)%Z; simpl; [right; eexists; split; reflexivity |].
  left. do 2 eexists. split; [reflexivity |]. split; [reflexivity |].
  cbn [resultData pageInfo]. split.
  - intros r Hr. apply subseteq_take, subseteq_drop in Hr.
    unfold sort_stage in Hr. rewrite merge_sort_Permutation in Hr.
    apply list_elem_of_In in Hr.
    exact (row_of_other_location db lang kw id loc r Hloc Hno Hr).
  - f_equal. apply count_stage_length, Permutation_length.
    exact (matching_rows_without db lang kw id loc Hloc Hno).
Qed.

End Join.

End LocationJoinFacts.

(** ** The location controller: searches on the sample data *)

Module SearchExamples.
Import JsRegExp LocationController LocationFacts LocationWrites Samples.


(** Rome, created with two names in English, in both of which [Rom]
    occurs: the search counts 2 and returns two rows, for the one
    Location that matches. *)
Lemma getLocations_counts_Rome_twice :
  let db' := (create db MoreSamples.rome).1 in
  let kw := text_of "Rom" in
  (exists env,
      getLocations db' 1 10 "en" kw = SendJson (JsonPage [env])
      /\ pageInfo env = IsArray [MkPageInfo 2]
      /\ List.map _id (resultData env) = [16%N; 16%N])
  /\ (forall id loc,
        Location db' !! id = Some loc -> has_matching_value db' "en" kw loc -> id = 16%N).
Proof.
  cbn zeta. split.
  - eexists. split; [vm_compute; reflexivity |]. split; reflexivity.
  - intros id loc Hl Hm.
    apply (has_match_spec _ "en" (text_of "Rom") (id, loc)) in Hm.
    apply elem_of_map_to_list, list_elem_of_In in Hl.
    vm_compute in Hl.
    destruct Hl as [[= <- <-] | [[= <- <-] | [[= <- <-] | []]]];
      [reflexivity | vm_compute in Hm; discriminate Hm ..].
Qed.

(** The case of an accented letter is ignored as well: the name
    [évry] is taken once [Évry] is stored. *)
Lemma validate_folds_accented_letters :
  let Evry := [201; 118; 114; 121]%N in
  let evry := [233; 118; 114; 121]%N in
  validate (MkDatabase ∅ {[ 1%N := MkLocationValue "fr" Evry ]}) "fr" evry = SendStatus 204.
Proof. vm_compute. reflexivity. Qed.

End SearchExamples.

(** ** List components: traces *)

Module ListComponentFacts.
Import ListComponent.

Section Traces.
Context {R T : Type}.
Implicit Types (st : State R) (trace : list (Action R T)).

Lemma run_app trace trace' st :
  run (trace ++ trace') st = run trace' (run trace st).
Proof. unfold run. apply fold_left_app. Qed.

Lemma run_cons (a : Action R T) trace st :
  run (a :: trace) st = run trace (step st a).
Proof. reflexivity. Qed.

Lemma requests_app trace trace' :
  requests (trace ++ trace') = requests trace ++ requests trace'.
Proof. unfold requests. apply List.filter_app. Qed.

(** A handler that does nothing while the [fetch] flag is down does
    nothing on any sequence of events. *)
Lemma handle_all_gated {E : Type} (h : State R -> E -> ServiceResult T -> list (Action R T)) :
  (forall st ev res, fetch st = false -> h st ev res = []) ->
  forall evs st, fetch st = false -> handle_all h st evs = [].
Proof.
  intros Hgate evs. induction evs as [| [ev res] t IH]; intros st Hf; simpl.
  - reflexivity.
  - rewrite (Hgate st ev res Hf). simpl. apply IH. exact Hf.
Qed.

End Traces.
End ListComponentFacts.

(** ** Select lists: change of the keyword *)

Module SelectListFacts.
Import movininTypes ListComponent ListComponentFacts.

Lemma AgencySelectList_onInputChange (Env : EnvConfig) (st : State Option)
    (target_value : option string) (res : ServiceResult User) :
  input_value target_value <> keyword st ->
  exists rest,
    AgencySelectList.onInputChange Env st target_value res
    = [setRows []; setPage 1; setKeyword (input_value target_value); setLoading true;
       Request 1 (input_value target_value) (PAGE_SIZE Env)] ++ rest
    /\ requests rest = [].
Proof.
  intros Hne. unfold AgencySelectList.onInputChange.
  apply String.eqb_neq in Hne. rewrite Hne. simpl.
  unfold AgencySelectList._fetch. eexists. split; [reflexivity |].
  destruct res as [err | data]; [reflexivity |].
  destruct (first_or_default data); reflexivity.
Qed.

Lemma LocationSelectList_onInputChange (Env : EnvConfig) (st : State Location)
    (target_value : option string) (res : ServiceResult Location) :
  input_value target_value <> keyword st ->
  exists rest,
    LocationSelectList.onInputChange Env st target_value res
    = [setRows []; setPage 1; setKeyword (input_value target_value); setLoading true;
       Request 1 (input_value target_value) (PAGE_SIZE Env)] ++ rest
    /\ requests rest = [].
Proof.
  intros Hne. unfold LocationSelectList.onInputChange.
  apply String.eqb_neq in Hne. rewrite Hne. simpl.
  unfold LocationSelectList._fetch. rewrite orb_true_r.
  eexists. split; [reflexivity |].
  destruct res as [err | data]; [reflexivity |].
  destruct (first_or_default data); reflexivity.
Qed.

Lemma reset_before_request {R T : Type} (st : State R) (v : string) (size : Z)
    (rest : list (Action R T)) :
  let trace := [setRows []; setPage 1; setKeyword v; setLoading true; Request 1 v size]
               ++ rest in
  requests rest = [] ->
  rows (run (before_Request trace) st) = []
  /\ page (run (before_Request trace) st) = 1%Z
  /\ keyword (run (before_Request trace) st) = v
  /\ requests trace = [Request 1 v size].
Proof.
  intros trace Hrest. subst trace.
  split; [destruct st; reflexivity |].
  split; [destruct st; reflexivity |].
  split; [destruct st; reflexivity |].
  rewrite requests_app, Hrest. reflexivity.
Qed.

(** C7. In both select lists, an input whose value differs from the
    current keyword sets the rows to the empty list, the page to 1
    and the keyword to the new value, and only then calls the
    service, once, for page 1 with the new keyword. *)
Theorem onInputChange_resets_before_fetch
    (Env : EnvConfig) (target_value : option string)
    (stA : State Option) (resA : ServiceResult User)
    (stL : State Location) (resL : ServiceResult Location) :
  input_value target_value <> keyword stA ->
  input_value target_value <> keyword stL ->
  let v := input_value target_value in
  let traceA := AgencySelectList.onInputChange Env stA target_value resA in
  let traceL := LocationSelectList.onInputChange Env stL target_value resL in
  (before_Request traceA = [setRows []; setPage 1; setKeyword v; setLoading true]
   /\ rows (run (before_Request traceA) stA) = []
   /\ page (run (before_Request traceA) stA) = 1%Z
   /\ keyword (run (before_Request traceA) stA) = v
   /\ requests traceA = [Request 1 v (PAGE_SIZE Env)])
  /\ (before_Request traceL = [setRows []; setPage 1; setKeyword v; setLoading true]
      /\ rows (run (before_Request traceL) stL) = []
      /\ page (run (before_Request traceL) stL) = 1%Z
      /\ keyword (run (before_Request traceL) stL) = v
      /\ requests traceL = [Request 1 v (PAGE_SIZE Env)]).
Proof.
  intros HA HL v traceA traceL. split.
  - destruct (AgencySelectList_onInputChange Env stA target_value resA HA)
      as (rest & Htrace & Hrest).
    subst traceA. rewrite Htrace. split; [reflexivity |].
    apply (reset_before_request stA v (PAGE_SIZE Env) rest Hrest).
  - destruct (LocationSelectList_onInputChange Env stL target_value resL HL)
      as (rest & Htrace & Hrest).
    subst traceL. rewrite Htrace. split; [reflexivity |].
    apply (reset_before_request stL v (PAGE_SIZE Env) rest Hrest).
Qed.

End SelectListFacts.

(** ** List components: what a fetch does to the rows *)

Module FetchFacts.
Import movininTypes ListComponent ListComponentFacts.

(** Unfolds a trace on a state given by its cells. *)
Ltac run_trace st :=
  destruct st; cbn [run fold_left step app rows fetch page keyword rowCount
                    totalRecords init loading].

Lemma AgencySelectList_fetch_trace (Env : EnvConfig) (st : State Option) (p : Z)
    (kw : string) (cb : bool) data (_data : Envelope User) :
  first_or_default data = Some _data ->
  AgencySelectList._fetch Env st p kw cb (Resolved data)
  = [setLoading true; Request p kw (PAGE_SIZE Env);
     setRows (if (p =? 1)%Z then AgencySelectList.getAgencies (resultData _data)
              else rows st ++ AgencySelectList.getAgencies (resultData _data));
     setFetch (nonempty (resultData _data))]
    ++ (if cb then [onFetch (resultData _data) (pageInfo_totalRecords (pageInfo _data))]
        else [])
    ++ [setLoading false].
Proof. intros H. unfold AgencySelectList._fetch. rewrite H. reflexivity. Qed.

Lemma LocationSelectList_fetch_trace (Env : EnvConfig) (st : State Location) (p : Z)
    (kw : string) (cb : bool) data (_data : Envelope Location) :
  first_or_default data = Some _data ->
  LocationSelectList._fetch Env st p kw cb (Resolved data)
  = (if fetch st || (p =? 1)%Z then
       [setLoading true; Request p kw (PAGE_SIZE Env);
        setRows (if (p =? 1)%Z then resultData _data else rows st ++ resultData _data);
        setFetch (nonempty (resultData _data))]
       ++ (if cb then [onFetch (resultData _data) (pageInfo_totalRecords (pageInfo _data))]
           else [])
     else [])
    ++ [setLoading false].
Proof. intros H. unfold LocationSelectList._fetch. rewrite H. reflexivity. Qed.

Lemma AgencyList_fetch_trace (Env : EnvConfig) (cb : bool) (st : State User) (p : Z)
    (kw : string) data (_data : Envelope User) :
  first_or_default data = Some _data ->
  let _rows :=
    if infinite_scroll Env then
      if (p =? 1)%Z then resultData _data else rows st ++ resultData _data
    else resultData _data in
  AgencyList._fetch Env cb st p kw (Resolved data)
  = [setLoading true; Request p kw (PAGE_SIZE Env);
     setRows _rows;
     setRowCount ((p - 1) * PAGE_SIZE Env + Z.of_nat (length _rows));
     setTotalRecords (pageInfo_totalRecords (pageInfo _data));
     setFetch (nonempty (resultData _data))]
    ++ (if (infinite_scroll Env && (p =? 1)%Z) || classic_pager Env
        then [scrollTo_top] else [])
    ++ (if cb then [onLoad (resultData _data) (pageInfo_totalRecords (pageInfo _data))]
        else [])
    ++ [setLoading false; setInit false].
Proof.
  intros H _rows. unfold AgencyList._fetch. rewrite H.
  cbn zeta. rewrite <- !app_assoc. reflexivity.
Qed.

Lemma BookingList_fetch_trace (Env : EnvConfig) (cb : bool) (st : State Booking) (p : Z)
    data (_data : Envelope Booking) :
  first_or_default data = Some _data ->
  let _pageSize := if isMobile Env then BOOKINGS_MOBILE_PAGE_SIZE Env else pageSize st in
  let total := pageInfo_totalRecords (pageInfo _data) in
  BookingList._fetch Env cb true st p (Resolved data)
  = [setLoading true; Request p "" _pageSize]
    ++ (if isMobile Env then
          let _rows := if (p =? 0)%Z then resultData _data
                       else rows st ++ resultData _data in
          [setRows _rows; setRowCount total; setFetch (nonempty (resultData _data))]
          ++ (if cb then [onLoad _rows total] else [])
        else
          [setRows (resultData _data); setRowCount total]
          ++ (if cb then [onLoad (resultData _data) total] else []))
    ++ [setLoading false; setInit false].
Proof.
  intros H _pageSize total. unfold BookingList._fetch. rewrite H.
  cbn zeta. rewrite <- !app_assoc. reflexivity.
Qed.

Lemma AgencySelectList_fetch_rows (Env : EnvConfig) (st : State Option) (p : Z)
    (kw : string) (cb : bool) data (_data : Envelope User) :
  first_or_default data = Some _data ->
  rows (run (AgencySelectList._fetch Env st p kw cb (Resolved data)) st)
  = if (p =? 1)%Z then AgencySelectList.getAgencies (resultData _data)
    else rows st ++ AgencySelectList.getAgencies (resultData _data).
Proof.
  intros H. rewrite (AgencySelectList_fetch_trace Env st p kw cb data _data H).
  destruct cb; run_trace st; reflexivity.
Qed.

Lemma LocationSelectList_fetch_rows (Env : EnvConfig) (st : State Location) (p : Z)
    (kw : string) (cb : bool) data (_data : Envelope Location) :
  first_or_default data = Some _data ->
  rows (run (LocationSelectList._fetch Env st p kw cb (Resolved data)) st)
  = if fetch st || (p =? 1)%Z then
      if (p =? 1)%Z then resultData _data else rows st ++ resultData _data
    else rows st.
Proof.
  intros H. rewrite (LocationSelectList_fetch_trace Env st p kw cb data _data H).
  destruct (fetch st || (p =? 1)%Z), cb; run_trace st; reflexivity.
Qed.

Lemma AgencyList_fetch_rows (Env : EnvConfig) (cb : bool) (st : State User) (p : Z)
    (kw : string) data (_data : Envelope User) :
  first_or_default data = Some _data ->
  rows (run (AgencyList._fetch Env cb st p kw (Resolved data)) st)
  = if infinite_scroll Env then
      if (p =? 1)%Z then resultData _data else rows st ++ resultData _data
    else resultData _data.
Proof.
  intros H. rewrite (AgencyList_fetch_trace Env cb st p kw data _data H).
  destruct ((infinite_scroll Env && (p =? 1)%Z) || classic_pager Env), cb;
    run_trace st; reflexivity.
Qed.

Lemma BookingList_fetch_rows (Env : EnvConfig) (cb : bool) (st : State Booking) (p : Z)
    data (_data : Envelope Booking) :
  first_or_default data = Some _data ->
  rows (run (BookingList._fetch Env cb true st p (Resolved data)) st)
  = if isMobile Env then
      if (p =? 0)%Z then resultData _data else rows st ++ resultData _data
    else resultData _data.
Proof.
  intros H. rewrite (BookingList_fetch_trace Env cb st p data _data H).
  destruct (isMobile Env), cb; run_trace st; reflexivity.
Qed.

(** C4, as amended. When a fetch resolves to an envelope: the select
    lists, and AgencyList in infinite-scroll mode or on mobile,
    replace the rows by the result on page 1 and append the result
    to the rows on any other page; BookingList on mobile, whose pages
    count from 0, replaces on page 0 and appends on any other page;
    AgencyList in classic mode on the desktop and BookingList on the
    desktop replace the rows on every page. LocationSelectList makes
    no call, and keeps its rows, for a page other than 1 while its
    [fetch] flag is down; otherwise it makes the one call for the page. *)
Theorem fetched_page_replaces_or_appends
    (Env : EnvConfig) (p : Z) (kw : string) (cb : bool)
    (stA : State Option) (stL : State Location) (stG : State User) (stB : State Booking)
    dataU (_dataU : Envelope User) dataL (_dataL : Envelope Location)
    dataB (_dataB : Envelope Booking) :
  first_or_default dataU = Some _dataU ->
  first_or_default dataL = Some _dataL ->
  first_or_default dataB = Some _dataB ->
  let rowsA := rows (run (AgencySelectList._fetch Env stA p kw cb (Resolved dataU)) stA) in
  let traceL := LocationSelectList._fetch Env stL p kw cb (Resolved dataL) in
  let rowsL := rows (run traceL stL) in
  let rowsG := rows (run (AgencyList._fetch Env cb stG p kw (Resolved dataU)) stG) in
  let rowsB := rows (run (BookingList._fetch Env cb true stB p (Resolved dataB)) stB) in
  ((p = 1%Z -> rowsA = AgencySelectList.getAgencies (resultData _dataU))
   /\ (p <> 1%Z ->
       rowsA = rows stA ++ AgencySelectList.getAgencies (resultData _dataU)))
  /\ ((p = 1%Z -> rowsL = resultData _dataL)
      /\ (p <> 1%Z -> fetch stL = true -> rowsL = rows stL ++ resultData _dataL)
      /\ (p <> 1%Z -> fetch stL = false -> rowsL = rows stL /\ requests traceL = [])
      /\ (p = 1%Z \/ fetch stL = true -> requests traceL = [Request p kw (PAGE_SIZE Env)]))
  /\ (infinite_scroll Env = true ->
      (p = 1%Z -> rowsG = resultData _dataU)
      /\ (p <> 1%Z -> rowsG = rows stG ++ resultData _dataU))
  /\ (infinite_scroll Env = false -> rowsG = resultData _dataU)
  /\ (isMobile Env = true ->
      (p = 0%Z -> rowsB = resultData _dataB)
      /\ (p <> 0%Z -> rowsB = rows stB ++ resultData _dataB))
  /\ (isMobile Env = false -> rowsB = resultData _dataB).
Proof.
  intros HU HL HB rowsA traceL rowsL rowsG rowsB.
  subst rowsA rowsL rowsG rowsB.
  rewrite (AgencySelectList_fetch_rows Env stA p kw cb dataU _dataU HU).
  unfold traceL at 1 2 3.
  rewrite (LocationSelectList_fetch_rows Env stL p kw cb dataL _dataL HL).
  rewrite (AgencyList_fetch_rows Env cb stG p kw dataU _dataU HU).
  rewrite (BookingList_fetch_rows Env cb stB p dataB _dataB HB).
  subst traceL.
  rewrite (LocationSelectList_fetch_trace Env stL p kw cb dataL _dataL HL).
  repeat match goal with |- _ /\ _ => split end.
  - intros ->. reflexivity.
  - intros Hp. apply Z.eqb_neq in Hp. rewrite Hp. reflexivity.
  - intros ->. rewrite orb_true_r. reflexivity.
  - intros Hp Hf. apply Z.eqb_neq in Hp. rewrite Hp, Hf. reflexivity.
  - intros Hp Hf. apply Z.eqb_neq in Hp. rewrite Hp, Hf. split; reflexivity.
  - intros Hgate.
    assert (fetch stL || (p =? 1)%Z = true) as ->.
    { destruct Hgate as [-> | ->]; [apply orb_true_r | reflexivity]. }
    destruct cb; reflexivity.
  - intros Hmode. rewrite Hmode. split.
    + intros ->. reflexivity.
    + intros Hp. apply Z.eqb_neq in Hp. rewrite Hp. reflexivity.
  - intros Hmode. rewrite Hmode. reflexivity.
  - intros Hmobile. rewrite Hmobile. split.
    + intros ->. reflexivity.
    + intros Hp. apply Z.eqb_neq in Hp. rewrite Hp. reflexivity.
  - intros Hmobile. rewrite Hmobile. reflexivity.
Qed.

(** In classic mode on the desktop, page 2 of AgencyList replaces the
    row already shown instead of following it. *)
Lemma AgencyList_classic_page_2_replaces :
  let Env := MkEnv 10 50 40 20 10 CLASSIC false in
  let shown := MkUser "a1" "Alpha" "alpha.png" in
  let fetched := MkUser "a2" "Beta" "beta.png" in
  let st := MkState false false [shown] true 2 0 "" 1 11 "" false in
  let res := Resolved (Some [Some (MkEnvelope [fetched] (IsArray [MkPageInfo 11]))]) in
  rows (run (AgencyList._fetch Env false st 2 "" res) st) = [fetched]
  /\ rows (run (AgencyList._fetch Env false st 2 "" res) st) <> rows st ++ [fetched].
Proof. split; [reflexivity | discriminate]. Qed.

End FetchFacts.

(** ** List components: the [fetch] flag and the scroll handlers *)

Module ScrollFacts.
Import movininTypes ListComponent ListComponentFacts FetchFacts.

Lemma nonempty_true {A : Type} (l : list A) : nonempty l = true <-> l <> [].
Proof. destruct l; simpl; split; congruence. Qed.

Lemma AgencySelectList_fetch_flag (Env : EnvConfig) (st : State Option) (p : Z)
    (kw : string) (cb : bool) data (_data : Envelope User) :
  first_or_default data = Some _data ->
  fetch (run (AgencySelectList._fetch Env st p kw cb (Resolved data)) st)
  = nonempty (resultData _data).
Proof.
  intros H. rewrite (AgencySelectList_fetch_trace Env st p kw cb data _data H).
  destruct cb; run_trace st; reflexivity.
Qed.

Lemma LocationSelectList_fetch_flag (Env : EnvConfig) (st : State Location) (p : Z)
    (kw : string) (cb : bool) data (_data : Envelope Location) :
  first_or_default data = Some _data ->
  fetch (run (LocationSelectList._fetch Env st p kw cb (Resolved data)) st)
  = if fetch st || (p =? 1)%Z then nonempty (resultData _data) else fetch st.
Proof.
  intros H. rewrite (LocationSelectList_fetch_trace Env st p kw cb data _data H).
  destruct (fetch st || (p =? 1)%Z), cb; run_trace st; reflexivity.
Qed.

Lemma AgencyList_fetch_flag (Env : EnvConfig) (cb : bool) (st : State User) (p : Z)
    (kw : string) data (_data : Envelope User) :
  first_or_default data = Some _data ->
  fetch (run (AgencyList._fetch Env cb st p kw (Resolved data)) st)
  = nonempty (resultData _data).
Proof.
  intros H. rewrite (AgencyList_fetch_trace Env cb st p kw data _data H).
  destruct ((infinite_scroll Env && (p =? 1)%Z) || classic_pager Env), cb;
    run_trace st; reflexivity.
Qed.

Lemma BookingList_fetch_flag (Env : EnvConfig) (cb : bool) (st : State Booking) (p : Z)
    data (_data : Envelope Booking) :
  first_or_default data = Some _data ->
  fetch (run (BookingList._fetch Env cb true st p (Resolved data)) st)
  = if isMobile Env then nonempty (resultData _data) else fetch st.
Proof.
  intros H. rewrite (BookingList_fetch_trace Env cb st p data _data H).
  destruct (isMobile Env), cb; run_trace st; reflexivity.
Qed.

Lemma AgencySelectList_onScroll_gated (Env : EnvConfig) (st : State Option)
    (ev : ListboxScroll) (res : ServiceResult User) :
  fetch st = false -> AgencySelectList.onScroll Env st ev res = [].
Proof. intros H. unfold AgencySelectList.onScroll. rewrite H. reflexivity. Qed.

Lemma LocationSelectList_onScroll_gated (Env : EnvConfig) (st : State Location)
    (ev : ListboxScroll) (res : ServiceResult Location) :
  fetch st = false -> LocationSelectList.onScroll Env st ev res = [].
Proof. intros H. unfold LocationSelectList.onScroll. rewrite H. reflexivity. Qed.

Lemma AgencyList_onscroll_gated (Env : EnvConfig) (cb : bool) (st : State User)
    (ev : WindowScroll) (res : ServiceResult User) :
  fetch st = false -> AgencyList.onscroll Env cb st ev res = [].
Proof.
  intros H. unfold AgencyList.onscroll. rewrite H.
  destruct (infinite_scroll Env); reflexivity.
Qed.

Lemma BookingList_onscroll_gated (Env : EnvConfig) (cb aas : bool) (st : State Booking)
    (ev : WindowScroll) (res : ServiceResult Booking) :
  fetch st = false -> BookingList.onscroll Env cb aas st ev res = [].
Proof.
  intros H. unfold BookingList.onscroll. rewrite H.
  destruct (isMobile Env); reflexivity.
Qed.

Lemma not_nil_gated {B : Type} (b : bool) (x : list B) :
  (b = false -> x = []) -> x <> [] -> b = true.
Proof. destruct b; [reflexivity |]. intros H Hx. destruct Hx. apply H. reflexivity. Qed.

(** C8. In each list that scrolls without end (the two select
    lists, AgencyList, BookingList on mobile), after a fetch that
    resolved to an envelope the [fetch] flag is up exactly when the
    [resultData] of that envelope is not empty; the scroll handler
    does something only when the flag is up; hence after an empty
    page no sequence of scroll events makes it do anything. *)
Theorem fetch_flag_gates_scroll
    (Env : EnvConfig) (p : Z) (kw : string) (cb aas : bool)
    (stA : State Option) (stL : State Location) (stG : State User) (stB : State Booking)
    dataU (_dataU : Envelope User) dataL (_dataL : Envelope Location)
    dataB (_dataB : Envelope Booking) :
  first_or_default dataU = Some _dataU ->
  first_or_default dataL = Some _dataL ->
  first_or_default dataB = Some _dataB ->
  let stA' := run (AgencySelectList._fetch Env stA p kw cb (Resolved dataU)) stA in
  let stL' := run (LocationSelectList._fetch Env stL p kw cb (Resolved dataL)) stL in
  let stG' := run (AgencyList._fetch Env cb stG p kw (Resolved dataU)) stG in
  let stB' := run (BookingList._fetch Env cb true stB p (Resolved dataB)) stB in
  ((fetch stA' = true <-> resultData _dataU <> [])
   /\ (forall st ev res, AgencySelectList.onScroll Env st ev res <> [] -> fetch st = true)
   /\ (resultData _dataU = [] ->
       forall evs, handle_all (AgencySelectList.onScroll Env) stA' evs = []))
  /\ ((fetch stL = true \/ p = 1%Z -> (fetch stL' = true <-> resultData _dataL <> []))
      /\ (forall st ev res, LocationSelectList.onScroll Env st ev res <> [] -> fetch st = true)
      /\ (resultData _dataL = [] ->
          forall evs, handle_all (LocationSelectList.onScroll Env) stL' evs = []))
  /\ ((fetch stG' = true <-> resultData _dataU <> [])
      /\ (forall st ev res, AgencyList.onscroll Env cb st ev res <> [] -> fetch st = true)
      /\ (resultData _dataU = [] ->
          forall evs, handle_all (AgencyList.onscroll Env cb) stG' evs = []))
  /\ ((isMobile Env = true -> (fetch stB' = true <-> resultData _dataB <> []))
      /\ (forall st ev res, BookingList.onscroll Env cb aas st ev res <> [] -> fetch st = true)
      /\ (isMobile Env = true -> resultData _dataB = [] ->
          forall evs, handle_all (BookingList.onscroll Env cb aas) stB' evs = [])).
Proof.
  intros HU HL HB stA' stL' stG' stB'.
  assert (fetch stA' = nonempty (resultData _dataU)) as HfA
    by apply (AgencySelectList_fetch_flag Env stA p kw cb dataU _dataU HU).
  assert (fetch stL' = if fetch stL || (p =? 1)%Z then nonempty (resultData _dataL)
                       else fetch stL) as HfL
    by apply (LocationSelectList_fetch_flag Env stL p kw cb dataL _dataL HL).
  assert (fetch stG' = nonempty (resultData _dataU)) as HfG
    by apply (AgencyList_fetch_flag Env cb stG p kw dataU _dataU HU).
  assert (fetch stB' = if isMobile Env then nonempty (resultData _dataB) else fetch stB)
    as HfB by apply (BookingList_fetch_flag Env cb stB p dataB _dataB HB).
  clearbody stA' stL' stG' stB'.
  split; [| split; [| split]].
  - split; [rewrite HfA; apply nonempty_true |]. split.
    + intros st ev res. apply not_nil_gated.
      apply AgencySelectList_onScroll_gated.
    + intros Hrd evs. apply handle_all_gated.
      * intros st ev res. apply AgencySelectList_onScroll_gated.
      * rewrite HfA, Hrd. reflexivity.
  - split; [| split].
    + intros Hgate. rewrite HfL.
      assert (fetch stL || (p =? 1)%Z = true) as ->.
      { destruct Hgate as [-> | ->]; [reflexivity | apply orb_true_r]. }
      apply nonempty_true.
    + intros st ev res. apply not_nil_gated.
      apply LocationSelectList_onScroll_gated.
    + intros Hrd evs. apply handle_all_gated.
      * intros st ev res. apply LocationSelectList_onScroll_gated.
      * rewrite HfL, Hrd. destruct (fetch stL) eqn:E; simpl; [reflexivity |].
        destruct (p =? 1)%Z; reflexivity.
  - split; [rewrite HfG; apply nonempty_true |]. split.
    + intros st ev res. apply not_nil_gated.
      apply AgencyList_onscroll_gated.
    + intros Hrd evs. apply handle_all_gated.
      * intros st ev res. apply AgencyList_onscroll_gated.
      * rewrite HfG, Hrd. reflexivity.
  - split; [| split].
    + intros Hm. rewrite HfB, Hm. apply nonempty_true.
    + intros st ev res. apply not_nil_gated.
      apply BookingList_onscroll_gated.
    + intros Hm Hrd evs. apply handle_all_gated.
      * intros st ev res. apply BookingList_onscroll_gated.
      * rewrite HfB, Hm, Hrd. reflexivity.
Qed.

(** Clearing the keyword raises the flag again before it fetches. *)
Lemma onClear_raises_flag (Env : EnvConfig)
    (stA : State Option) (resA : ServiceResult User)
    (stL : State Location) (resL : ServiceResult Location) :
  fetch (run (before_Request (AgencySelectList.onClear Env stA resA)) stA) = true
  /\ fetch (run (before_Request (LocationSelectList.onClear Env stL resL)) stL) = true.
Proof.
  unfold AgencySelectList.onClear, LocationSelectList.onClear,
    AgencySelectList._fetch, LocationSelectList._fetch.
  rewrite orb_true_r. split; [destruct stA | destruct stL]; reflexivity.
Qed.

(** With the flag up and the list box scrolled to its end, [onScroll]
    asks for the next page and appends it to the rows; once that page
    has come back empty it does nothing. *)
Lemma AgencySelectList_onScroll_next_page :
  let ev := MkListboxScroll 100 50 150 in
  let trace := AgencySelectList.onScroll Samples.Env Samples.stA ev (Resolved Samples.users) in
  let st' := run trace Samples.stA in
  requests trace = [Request 2 "al" 10]
  /\ page st' = 2%Z
  /\ rows st' = [MkOption "a1" "Alpha" "alpha.png"; MkOption "a2" "Beta" "beta.png"]
  /\ fetch st' = true
  /\ let trace' := AgencySelectList.onScroll Samples.Env st' ev (Resolved (Some [])) in
     requests trace' = [Request 3 "al" 10]
     /\ fetch (run trace' st') = false
     /\ AgencySelectList.onScroll Samples.Env (run trace' st') ev (Resolved Samples.users) = [].
Proof. repeat split. Qed.

End ScrollFacts.

(** ** List components: an envelope without [pageInfo] entry *)

Module PageInfoFacts.
Import movininTypes ListComponent ListComponentFacts FetchFacts.

Lemma pageInfo_absent_zero (pi : PageInfoValue) :
  pageInfo_absent pi -> pageInfo_totalRecords pi = 0%Z.
Proof. intros [-> | ->]; reflexivity. Qed.

(** Closes [~ In Helper_error trace] and [In a trace] on a trace
    whose shape is known. *)
Ltac trace_member :=
  cbn [app In];
  first [ intuition discriminate | intuition reflexivity ].

(** C9. When a list component processes an envelope whose
    [pageInfo] is not an array, or is an empty array, it does not
    call [Helper.error]: it updates the rows from [resultData] as for
    any other envelope and uses 0 as the total number of records,
    which the select lists pass to [onFetch], AgencyList stores in
    [totalRecords] and passes to [onLoad], and BookingList stores in
    [rowCount] and passes to [onLoad]. *)
Theorem absent_pageInfo_counts_zero
    (Env : EnvConfig) (p : Z) (kw : string)
    (stA : State Option) (stL : State Location) (stG : State User) (stB : State Booking)
    dataU (_dataU : Envelope User) dataL (_dataL : Envelope Location)
    dataB (_dataB : Envelope Booking) :
  first_or_default dataU = Some _dataU -> pageInfo_absent (pageInfo _dataU) ->
  first_or_default dataL = Some _dataL -> pageInfo_absent (pageInfo _dataL) ->
  first_or_default dataB = Some _dataB -> pageInfo_absent (pageInfo _dataB) ->
  let traceA := AgencySelectList._fetch Env stA p kw true (Resolved dataU) in
  let traceL := LocationSelectList._fetch Env stL p kw true (Resolved dataL) in
  let traceG := AgencyList._fetch Env true stG p kw (Resolved dataU) in
  let traceB := BookingList._fetch Env true true stB p (Resolved dataB) in
  (~ In Helper_error traceA
   /\ In (onFetch (resultData _dataU) 0%Z) traceA
   /\ rows (run traceA stA)
      = if (p =? 1)%Z then AgencySelectList.getAgencies (resultData _dataU)
        else rows stA ++ AgencySelectList.getAgencies (resultData _dataU))
  /\ (~ In Helper_error traceL
      /\ (fetch stL = true \/ p = 1%Z ->
          In (onFetch (resultData _dataL) 0%Z) traceL
          /\ rows (run traceL stL)
             = if (p =? 1)%Z then resultData _dataL else rows stL ++ resultData _dataL))
  /\ (~ In Helper_error traceG
      /\ In (onLoad (resultData _dataU) 0%Z) traceG
      /\ totalRecords (run traceG stG) = 0%Z
      /\ rows (run traceG stG)
         = if infinite_scroll Env then
             if (p =? 1)%Z then resultData _dataU else rows stG ++ resultData _dataU
           else resultData _dataU)
  /\ (~ In Helper_error traceB
      /\ In (onLoad (rows (run traceB stB)) 0%Z) traceB
      /\ rowCount (run traceB stB) = 0%Z
      /\ rows (run traceB stB)
         = if isMobile Env then
             if (p =? 0)%Z then resultData _dataB else rows stB ++ resultData _dataB
           else resultData _dataB).
Proof.
  intros HU PU HL PL HB PB traceA traceL traceG traceB.
  apply pageInfo_absent_zero in PU, PL, PB.
  split; [| split; [| split]].
  - subst traceA.
    rewrite (AgencySelectList_fetch_rows Env stA p kw true dataU _dataU HU).
    rewrite (AgencySelectList_fetch_trace Env stA p kw true dataU _dataU HU), PU.
    split; [trace_member |]. split; [trace_member | reflexivity].
  - subst traceL.
    rewrite (LocationSelectList_fetch_rows Env stL p kw true dataL _dataL HL).
    rewrite (LocationSelectList_fetch_trace Env stL p kw true dataL _dataL HL), PL.
    split.
    + destruct (fetch stL || (p =? 1)%Z); trace_member.
    + intros Hgate.
      assert (fetch stL || (p =? 1)%Z = true) as ->.
      { destruct Hgate as [-> | ->]; [reflexivity | apply orb_true_r]. }
      split; [trace_member | reflexivity].
  - subst traceG.
    rewrite (AgencyList_fetch_rows Env true stG p kw dataU _dataU HU).
    rewrite (AgencyList_fetch_trace Env true stG p kw dataU _dataU HU), PU.
    split; [| split; [| split]].
    + destruct ((infinite_scroll Env && (p =? 1)%Z) || classic_pager Env); trace_member.
    + destruct ((infinite_scroll Env && (p =? 1)%Z) || classic_pager Env); trace_member.
    + destruct ((infinite_scroll Env && (p =? 1)%Z) || classic_pager Env);
        run_trace stG; reflexivity.
    + reflexivity.
  - subst traceB.
    rewrite (BookingList_fetch_rows Env true stB p dataB _dataB HB).
    rewrite (BookingList_fetch_trace Env true stB p dataB _dataB HB), PB.
    split; [| split; [| split]].
    + destruct (isMobile Env); trace_member.
    + destruct (isMobile Env); trace_member.
    + destruct (isMobile Env); run_trace stB; reflexivity.
    + reflexivity.
Qed.

End PageInfoFacts.

(** ** BookingList: the cancel button *)

Module CancellationFacts.
Import movininTypes ListComponent BookingList.

(** The fields of a local time that is given by its fields. *)
Lemma fields_of_MakeDate (day hour min sec ms : Z) :
  (0 <= hour < 24)%Z -> (0 <= min < 60)%Z -> (0 <= sec < 60)%Z -> (0 <= ms < 1000)%Z ->
  let t := MakeDate day (MakeTime hour min sec ms) in
  Day t = day /\ HourFromTime t = hour /\ MinFromTime t = min
  /\ SecFromTime t = sec /\ msFromTime t = ms.
Proof.
  intros Hh Hm Hs Hms t. subst t.
  unfold Day, HourFromTime, MinFromTime, SecFromTime, msFromTime, MakeDate, MakeTime,
    msPerDay, msPerHour, msPerMinute, msPerSecond.
  repeat split.
  - symmetry. apply (Z.div_unique _ _ _ (hour * 3600000 + min * 60000 + sec * 1000 + ms)); lia.
  - rewrite <- (Z.div_unique _ 3600000 (day * 24 + hour) (min * 60000 + sec * 1000 + ms))
      by lia.
    symmetry. apply (Z.mod_unique _ _ day); lia.
  - rewrite <- (Z.div_unique _ 60000 (day * 1440 + hour * 60 + min) (sec * 1000 + ms))
      by lia.
    symmetry. apply (Z.mod_unique _ _ (day * 24 + hour)); lia.
  - rewrite <- (Z.div_unique _ 1000 (day * 86400 + hour * 3600 + min * 60 + sec) ms) by lia.
    symmetry. apply (Z.mod_unique _ _ (day * 1440 + hour * 60 + min)); lia.
  - symmetry. apply (Z.mod_unique _ _ (day * 86400 + hour * 3600 + min * 60 + sec)); lia.
Qed.

(** A local time is given by its fields. *)
Lemma MakeDate_fields (t : Z) :
  t = MakeDate (Day t) (MakeTime (HourFromTime t) (MinFromTime t) (SecFromTime t)
                          (msFromTime t))
  /\ (0 <= HourFromTime t < 24)%Z /\ (0 <= MinFromTime t < 60)%Z
  /\ (0 <= SecFromTime t < 60)%Z /\ (0 <= msFromTime t < 1000)%Z.
Proof.
  unfold Day, HourFromTime, MinFromTime, SecFromTime, msFromTime, MakeDate, MakeTime,
    msPerDay, msPerHour, msPerMinute, msPerSecond.
  Z.div_mod_to_equations. lia.
Qed.

(** In a zone whose offset never changes the four setters leave the
    local midnight that precedes [now]. *)
Lemma today_fixed_offset (timezoneOffset now : Z) :
  today (fixed_offset timezoneOffset) now
  = (MakeDate (Day (now - timezoneOffset * 60000)) 0 + timezoneOffset * 60000)%Z.
Proof.
  unfold today, setMilliseconds, setSeconds, setMinutes, setHours, LocalTime, UTC.
  cbn [LocalTZA fixed_offset].
  set (t := (now + - timezoneOffset * 60000)%Z).
  replace (now - timezoneOffset * 60000)%Z with t by (subst t; lia).
  destruct (MakeDate_fields t) as (_ & _ & Hm & Hs & Hms).
  set (t1 := MakeDate (Day t) (MakeTime 0 (MinFromTime t) (SecFromTime t) (msFromTime t))).
  replace (t1 - - timezoneOffset * 60000 + - timezoneOffset * 60000)%Z with t1 by lia.
  destruct (fields_of_MakeDate (Day t) 0 (MinFromTime t) (SecFromTime t) (msFromTime t))
    as (D1 & H1 & _ & S1 & MS1); [lia | lia | lia | lia |].
  fold t1 in D1, H1, S1, MS1. rewrite D1, H1, S1, MS1.
  set (t2 := MakeDate (Day t) (MakeTime 0 0 (SecFromTime t) (msFromTime t))).
  replace (t2 - - timezoneOffset * 60000 + - timezoneOffset * 60000)%Z with t2 by lia.
  destruct (fields_of_MakeDate (Day t) 0 0 (SecFromTime t) (msFromTime t))
    as (D2 & H2 & M2 & _ & MS2); [lia | lia | lia | lia |].
  fold t2 in D2, H2, M2, MS2. rewrite D2, H2, M2, MS2.
  set (t3 := MakeDate (Day t) (MakeTime 0 0 0 (msFromTime t))).
  replace (t3 - - timezoneOffset * 60000 + - timezoneOffset * 60000)%Z with t3 by lia.
  destruct (fields_of_MakeDate (Day t) 0 0 0 (msFromTime t))
    as (D3 & H3 & M3 & S3 & _); [lia | lia | lia | lia |].
  fold t3 in D3, H3, M3, S3. rewrite D3, H3, M3, S3.
  unfold MakeDate, MakeTime. lia.
Qed.

Lemma today_le_now (timezoneOffset now : Z) :
  (today (fixed_offset timezoneOffset) now <= now)%Z.
Proof.
  rewrite today_fixed_offset. unfold MakeDate, Day, msPerDay.
  Z.div_mod_to_equations. lia.
Qed.

(** In such a zone an instant is at or after the midnight of today
    exactly when its calendar day is the day of [now] or a later one. *)
Lemma today_le_iff (timezoneOffset now t : Z) :
  (today (fixed_offset timezoneOffset) now <= t)%Z
  <-> today_or_later (fixed_offset timezoneOffset) now t.
Proof.
  rewrite today_fixed_offset. unfold today_or_later, LocalTime.
  cbn [LocalTZA fixed_offset]. unfold MakeDate, Day, msPerDay.
  Z.div_mod_to_equations. lia.
Qed.

Lemma status_not_Cancelled (s : BookingStatus) :
  negb (BookingStatus_eqb s Cancelled) = true <-> s <> Cancelled.
Proof. destruct s; simpl; split; congruence. Qed.

(** The grid shows the cancel button exactly under the preconditions
    of the specification. *)
Lemma action_cell_cancel_spec (tz : TimeZone) (now : Z) (row : Booking) :
  action_cell_cancel tz now row = true <-> cancellation_allowed tz now row.
Proof.
  unfold action_cell_cancel, cancellation_allowed.
  rewrite !andb_true_iff, negb_true_iff, status_not_Cancelled, Z.leb_le. tauto.
Qed.

(** The list on mobile shows it when, moreover, the booking has not
    started yet. *)
Lemma mobile_cancel_button_spec (timezoneOffset now : Z) (booking : Booking) :
  mobile_cancel_button now booking = true
  <-> cancellation_allowed (fixed_offset timezoneOffset) now booking
      /\ (now < from booking)%Z.
Proof.
  unfold mobile_cancel_button, cancellation_allowed.
  rewrite !andb_true_iff, negb_true_iff, status_not_Cancelled, Z.ltb_lt.
  pose proof (today_le_now timezoneOffset now). intuition lia.
Qed.

(** In a zone whose offset never changes, neither shows it for a
    booking that started before today. *)
Lemma past_booking_has_no_cancel_button
    (Env : EnvConfig) (timezoneOffset now : Z) (booking : Booking) :
  (from booking < today (fixed_offset timezoneOffset) now)%Z ->
  cancelBooking Env (fixed_offset timezoneOffset) now booking = None.
Proof.
  intros Hpast. unfold cancelBooking, cancel_button.
  destruct (isMobile Env).
  - destruct (mobile_cancel_button now booking) eqn:E; [| reflexivity].
    apply (mobile_cancel_button_spec timezoneOffset) in E as [(_ & _ & _ & H) _]. lia.
  - destruct (action_cell_cancel (fixed_offset timezoneOffset) now booking) eqn:E;
      [| reflexivity].
    apply action_cell_cancel_spec in E as (_ & _ & _ & H). lia.
Qed.

(** The day the clocks go back in New York, at noon: the setters
    leave the midnight of that day, five hours after which the offset
    changed. *)
Lemma today_on_a_day_of_clock_change :
  today Samples.new_york_november_2023 1699203600000 = 1699156800000%Z.
Proof. reflexivity. Qed.

(** C3. A paid booking with cancellation enabled and no cancel
    request, starting at 08:00 today and looked at at 22:13 the same
    day (UTC): the preconditions hold and the grid offers the
    cancellation, the list on mobile does not. *)
Theorem mobile_cancel_button_hides_booking_of_today :
  let booking := MkBooking "b1" 1699948800000 Paid true false in
  let now := 1700000000000%Z in
  let desktop := MkEnv 10 50 40 20 10 CLASSIC false in
  let mobile := MkEnv 10 50 40 20 10 CLASSIC true in
  let utc := fixed_offset 0 in
  (today utc now = 1699920000000)%Z
  /\ cancellation_allowed utc now booking
  /\ cancelBooking desktop utc now booking
     = Some [setSelectedId "b1"; setOpenCancelDialog true]
  /\ cancelBooking mobile utc now booking = None.
Proof.
  cbn zeta. split; [reflexivity |]. split.
  - apply action_cell_cancel_spec. reflexivity.
  - split; reflexivity.
Qed.

End CancellationFacts.

(** ** The theorems at the sample data *)

Module Instances.
Import movininTypes ListComponent LocationController JsRegExp Samples.

(** The sample database follows the data model: one name per language. *)
Lemma db_one_value_per_language : one_value_per_language db.
Proof.
  intros id loc v1 v2 d1 d2 Hl H1 H2 Hd1 Hd2 Hlang. unfold db in *. simpl in *.
  apply lookup_insert_Some in Hl as [[<- <-] | [Hne Hl]];
    [| apply lookup_singleton_Some in Hl as [<- <-]]; simpl in *.
  - apply list_elem_of_In in H1, H2. simpl in H1, H2.
    destruct H1 as [<- | [<- | []]], H2 as [<- | [<- | []]];
      try reflexivity; vm_compute in Hd1, Hd2;
      injection Hd1 as <-; injection Hd2 as <-; discriminate Hlang.
  - apply list_elem_of_In in H1, H2. simpl in H1, H2.
    destruct H1 as [<- | []], H2 as [<- | []]. reflexivity.
Qed.

Lemma getLocations_totalRecords_and_page_size_witness :
  let kw := text_of "par" in
  (1 <= 1)%Z /\ (0 < 10)%Z
  /\ exists (env : Envelope LocationRow) (names : list (N * N)),
    getLocations db 1 10 "en" kw = SendJson (JsonPage [env])
    /\ NoDup names
    /\ (forall id v, (id, v) ∈ names <-> matching_name db "en" kw id v)
    /\ pageInfo_totalRecords (pageInfo env) = Z.of_nat (length names)
    /\ pageInfo env
       = IsArray (if nonempty names then [MkPageInfo (Z.of_nat (length names))] else [])
    /\ (one_value_per_language db ->
        exists ids : list N,
          NoDup ids
          /\ (forall id, id ∈ ids
                <-> exists loc, Location db !! id = Some loc
                                /\ has_matching_value db "en" kw loc)
          /\ pageInfo_totalRecords (pageInfo env) = Z.of_nat (length ids))
    /\ (Z.of_nat (length (resultData env)) <= 10)%Z.
Proof.
  intros kw. split; [lia |]. split; [lia |].
  apply (LocationFacts.getLocations_totalRecords_and_page_size db 1 10 "en" kw); lia.
Defined.


Lemma getLocations_excludes_unmatched_location_witness :
  let kw := text_of "par" in
  Location db !! 2%N = Some (MkLocation [12%N])
  /\ ~ has_matching_value db "en" kw (MkLocation [12%N])
  /\ ((exists env env',
          getLocations db 1 10 "en" kw = SendJson (JsonPage [env])
          /\ getLocations (without_location db 2) 1 10 "en" kw
             = SendJson (JsonPage [env'])
          /\ (forall r, r ∈ resultData env -> _id r <> 2%N)
          /\ pageInfo env = pageInfo env')
      \/ (exists e,
          getLocations db 1 10 "en" kw = DbError e
          /\ getLocations (without_location db 2) 1 10 "en" kw = DbError e)).
Proof.
  intros kw.
  assert (~ has_matching_value db "en" kw (MkLocation [12%N])) as Hno.
  { intros H. apply (LocationFacts.has_match_spec db "en" kw (2%N, MkLocation [12%N])) in H.
    vm_compute in H. discriminate H. }
  split; [reflexivity |]. split; [exact Hno |].
  apply (LocationJoinFacts.getLocations_excludes_unmatched_location
           db 1 10 "en" kw 2 (MkLocation [12%N])); [reflexivity | exact Hno].
Defined.

Lemma getLocation_without_language_is_400_witness :
  let loc := MkLocation [12%N] in
  Location db !! 2%N = Some loc
  /\ (has_language db "en" loc ->
        exists v d, v ∈ values loc /\ LocationValue db !! v = Some d /\ language d = "en"
          /\ getLocation db 2 "en"
             = SendJson (JsonLocation 2 (populate db (values loc)) (value d)))
  /\ (~ has_language db "en" loc ->
       status (getLocation db 2 "en") = 400%Z
       /\ exists e, getLocation db 2 "en" = DbError e)
  /\ ((exists j, getLocation db 2 "en" = SendJson j) -> has_language db "en" loc)
  /\ status (getLocation db 2 "en") <> 204%Z.
Proof.
  intros loc. split; [reflexivity |].
  apply (LocationStoreFacts.getLocation_without_language_is_400 db 2 loc "en").
  reflexivity.
Defined.

Lemma onInputChange_resets_before_fetch_witness :
  let target_value := Some "be" in
  let resA := Resolved users in
  let resL := Resolved locations in
  input_value target_value <> keyword stA
  /\ input_value target_value <> keyword stL
  /\ let v := input_value target_value in
     let traceA := AgencySelectList.onInputChange Env stA target_value resA in
     let traceL := LocationSelectList.onInputChange Env stL target_value resL in
     (before_Request traceA = [setRows []; setPage 1; setKeyword v; setLoading true]
      /\ rows (run (before_Request traceA) stA) = []
      /\ page (run (before_Request traceA) stA) = 1%Z
      /\ keyword (run (before_Request traceA) stA) = v
      /\ requests traceA = [Request 1 v (PAGE_SIZE Env)])
     /\ (before_Request traceL = [setRows []; setPage 1; setKeyword v; setLoading true]
         /\ rows (run (before_Request traceL) stL) = []
         /\ page (run (before_Request traceL) stL) = 1%Z
         /\ keyword (run (before_Request traceL) stL) = v
         /\ requests traceL = [Request 1 v (PAGE_SIZE Env)]).
Proof.
  intros target_value resA resL.
  split; [discriminate |]. split; [discriminate |].
  apply (SelectListFacts.onInputChange_resets_before_fetch
           Env target_value stA resA stL resL); discriminate.
Defined.


Lemma fetched_page_replaces_or_appends_witness :
  let p := 2%Z in
  let kw := "" in
  let cb := false in
  let dataU := users in
  let _dataU := MkEnvelope [beta] (IsArray [MkPageInfo 2]) in
  let dataL := locations in
  let _dataL := MkEnvelope [parma] (IsArray [MkPageInfo 2]) in
  let dataB := bookings in
  let _dataB := MkEnvelope [booking2] (IsArray [MkPageInfo 2]) in
  first_or_default dataU = Some _dataU
  /\ first_or_default dataL = Some _dataL
  /\ first_or_default dataB = Some _dataB
  /\ (
  let rowsA := rows (run (AgencySelectList._fetch Env stA p kw cb (Resolved dataU)) stA) in
  let traceL := LocationSelectList._fetch Env stL p kw cb (Resolved dataL) in
  let rowsL := rows (run traceL stL) in
  let rowsG := rows (run (AgencyList._fetch Env cb stG p kw (Resolved dataU)) stG) in
  let rowsB := rows (run (BookingList._fetch Env cb true stB p (Resolved dataB)) stB) in
  ((p = 1%Z -> rowsA = AgencySelectList.getAgencies (resultData _dataU))
   /\ (p <> 1%Z ->
       rowsA = rows stA ++ AgencySelectList.getAgencies (resultData _dataU)))
  /\ ((p = 1%Z -> rowsL = resultData _dataL)
      /\ (p <> 1%Z -> fetch stL = true -> rowsL = rows stL ++ resultData _dataL)
      /\ (p <> 1%Z -> fetch stL = false -> rowsL = rows stL /\ requests traceL = [])
      /\ (p = 1%Z \/ fetch stL = true -> requests traceL = [Request p kw (PAGE_SIZE Env)]))
  /\ (infinite_scroll Env = true ->
      (p = 1%Z -> rowsG = resultData _dataU)
      /\ (p <> 1%Z -> rowsG = rows stG ++ resultData _dataU))
  /\ (infinite_scroll Env = false -> rowsG = resultData _dataU)
  /\ (isMobile Env = true ->
      (p = 0%Z -> rowsB = resultData _dataB)
      /\ (p <> 0%Z -> rowsB = rows stB ++ resultData _dataB))
  /\ (isMobile Env = false -> rowsB = resultData _dataB)).
Proof.
  intros p kw cb dataU _dataU dataL _dataL dataB _dataB.
  split; [reflexivity |]. split; [reflexivity |]. split; [reflexivity |].
  apply (FetchFacts.fetched_page_replaces_or_appends Env p kw cb stA stL stG stB
           dataU _dataU dataL _dataL dataB _dataB); reflexivity.
Defined.

Lemma fetch_flag_gates_scroll_witness :
  let p := 2%Z in
  let kw := "" in
  let cb := false in
  let aas := true in
  let dataU := users in
  let _dataU := MkEnvelope [beta] (IsArray [MkPageInfo 2]) in
  let dataL := locations in
  let _dataL := MkEnvelope [parma] (IsArray [MkPageInfo 2]) in
  let dataB := bookings in
  let _dataB := MkEnvelope [booking2] (IsArray [MkPageInfo 2]) in
  first_or_default dataU = Some _dataU
  /\ first_or_default dataL = Some _dataL
  /\ first_or_default dataB = Some _dataB
  /\ (
  let stA' := run (AgencySelectList._fetch Env stA p kw cb (Resolved dataU)) stA in
  let stL' := run (LocationSelectList._fetch Env stL p kw cb (Resolved dataL)) stL in
  let stG' := run (AgencyList._fetch Env cb stG p kw (Resolved dataU)) stG in
  let stB' := run (BookingList._fetch Env cb true stB p (Resolved dataB)) stB in
  ((fetch stA' = true <-> resultData _dataU <> [])
   /\ (forall st ev res, AgencySelectList.onScroll Env st ev res <> [] -> fetch st = true)
   /\ (resultData _dataU = [] ->
       forall evs, handle_all (AgencySelectList.onScroll Env) stA' evs = []))
  /\ ((fetch stL = true \/ p = 1%Z -> (fetch stL' = true <-> resultData _dataL <> []))
      /\ (forall st ev res, LocationSelectList.onScroll Env st ev res <> [] -> fetch st = true)
      /\ (resultData _dataL = [] ->
          forall evs, handle_all (LocationSelectList.onScroll Env) stL' evs = []))
  /\ ((fetch stG' = true <-> resultData _dataU <> [])
      /\ (forall st ev res, AgencyList.onscroll Env cb st ev res <> [] -> fetch st = true)
      /\ (resultData _dataU = [] ->
          forall evs, handle_all (AgencyList.onscroll Env cb) stG' evs = []))
  /\ ((isMobile Env = true -> (fetch stB' = true <-> resultData _dataB <> []))
      /\ (forall st ev res, BookingList.onscroll Env cb aas st ev res <> [] -> fetch st = true)
      /\ (isMobile Env = true -> resultData _dataB = [] ->
          forall evs, handle_all (BookingList.onscroll Env cb aas) stB' evs = []))).
Proof.
  intros p kw cb aas dataU _dataU dataL _dataL dataB _dataB.
  split; [reflexivity |]. split; [reflexivity |]. split; [reflexivity |].
  apply (ScrollFacts.fetch_flag_gates_scroll Env p kw cb aas stA stL stG stB
           dataU _dataU dataL _dataL dataB _dataB); reflexivity.
Defined.

Lemma absent_pageInfo_counts_zero_witness :
  let p := 1%Z in
  let kw := "" in
  let dataU := users_no_pageInfo in
  let _dataU := MkEnvelope [beta] (IsArray []) in
  let dataL := locations_no_pageInfo in
  let _dataL := MkEnvelope [parma] NotAnArray in
  let dataB := bookings_no_pageInfo in
  let _dataB := MkEnvelope [] NotAnArray in
  first_or_default dataU = Some _dataU /\ pageInfo_absent (pageInfo _dataU)
  /\ first_or_default dataL = Some _dataL /\ pageInfo_absent (pageInfo _dataL)
  /\ first_or_default dataB = Some _dataB /\ pageInfo_absent (pageInfo _dataB)
  /\ (
  let traceA := AgencySelectList._fetch Env stA p kw true (Resolved dataU) in
  let traceL := LocationSelectList._fetch Env stL p kw true (Resolved dataL) in
  let traceG := AgencyList._fetch Env true stG p kw (Resolved dataU) in
  let traceB := BookingList._fetch Env true true stB p (Resolved dataB) in
  (~ In Helper_error traceA
   /\ In (onFetch (resultData _dataU) 0%Z) traceA
   /\ rows (run traceA stA)
      = if (p =? 1)%Z then AgencySelectList.getAgencies (resultData _dataU)
        else rows stA ++ AgencySelectList.getAgencies (resultData _dataU))
  /\ (~ In Helper_error traceL
      /\ (fetch stL = true \/ p = 1%Z ->
          In (onFetch (resultData _dataL) 0%Z) traceL
          /\ rows (run traceL stL)
             = if (p =? 1)%Z then resultData _dataL else rows stL ++ resultData _dataL))
  /\ (~ In Helper_error traceG
      /\ In (onLoad (resultData _dataU) 0%Z) traceG
      /\ totalRecords (run traceG stG) = 0%Z
      /\ rows (run traceG stG)
         = if infinite_scroll Env then
             if (p =? 1)%Z then resultData _dataU else rows stG ++ resultData _dataU
           else resultData _dataU)
  /\ (~ In Helper_error traceB
      /\ In (onLoad (rows (run traceB stB)) 0%Z) traceB
      /\ rowCount (run traceB stB) = 0%Z
      /\ rows (run traceB stB)
         = if isMobile Env then
             if (p =? 0)%Z then resultData _dataB else rows stB ++ resultData _dataB
           else resultData _dataB)).
Proof.
  intros p kw dataU _dataU dataL _dataL dataB _dataB.
  assert (pageInfo_absent (pageInfo _dataU)) as PU by (right; reflexivity).
  assert (pageInfo_absent (pageInfo _dataL)) as PL by (left; reflexivity).
  assert (pageInfo_absent (pageInfo _dataB)) as PB by (left; reflexivity).
  split; [reflexivity |]. split; [exact PU |].
  split; [reflexivity |]. split; [exact PL |].
  split; [reflexivity |]. split; [exact PB |].
  apply (PageInfoFacts.absent_pageInfo_counts_zero Env p kw stA stL stG stB
           dataU _dataU dataL _dataL dataB _dataB);
    [reflexivity | exact PU | reflexivity | exact PL | reflexivity | exact PB].
Defined.

End Instances.

(** ** The location controller: what a search returns *)

Module SearchFacts.
Import JsRegExp JsRegExpFacts LocationController LocationFacts.

Section Search.
Context {engine : RegexEngine} {collation : Collation}.


(** X3. Every row of a page is a stored Location joined with one of the
    names its [values] list refers to; that name is in the requested
    language, contains the keyword up to case, and is the [name] of
    the row. *)
Theorem getLocations_rows_are_matches (db : Database) (p s : Z) (lang : string) (kw : text)
    (env : Envelope LocationRow) (r : LocationRow) :
  getLocations db p s lang kw = SendJson (JsonPage [env]) ->
  r ∈ resultData env ->
  exists loc,
    Location db !! _id r = Some loc
    /\ row_values r = values loc
    /\ (row_value r).1 ∈ values loc
    /\ LocationValue db !! (row_value r).1 = Some (row_value r).2
    /\ language (row_value r).2 = lang
    /\ name r = value (row_value r).2
    /\ matches_some_substring kw (name r).
Proof.
  intros Hget Hr.
  apply (in_page db p s lang kw env r Hget), in_keyword_rows in Hr. exact Hr.
Qed.

Lemma Sorted_drop {A : Type} (R : relation A) (n : nat) (l : list A) :
  Sorted R l -> Sorted R (drop n l).
Proof.
  revert l. induction n as [| n IH]; intros l Hl; [exact Hl |].
  destruct l as [| a l]; [constructor |]. simpl. apply IH.
  apply Sorted_inv in Hl as [Hl _]. exact Hl.
Qed.

Lemma Sorted_take {A : Type} (R : relation A) (n : nat) (l : list A) :
  Sorted R l -> Sorted R (take n l).
Proof.
  revert l. induction n as [| n IH]; intros l Hl; [constructor |].
  destruct l as [| a l]; [constructor |]. simpl.
  apply Sorted_inv in Hl as [Hl Hhd]. constructor; [apply IH; exact Hl |].
  destruct n; [constructor |]. destruct l; [constructor |]. simpl.
  constructor. apply HdRel_inv in Hhd. exact Hhd.
Qed.

Lemma StronglySorted_lookup {A : Type} (R : relation A) (l : list A) (i j : nat) (x y : A) :
  StronglySorted R l -> (i < j)%nat -> l !! i = Some x -> l !! j = Some y -> R x y.
Proof.
  intros Hl. revert i j. induction Hl as [| a l Hl IH Hall]; intros i j Hij Hi Hj.
  - discriminate Hi.
  - destruct j as [| j]; [lia |]. destruct i as [| i].
    + injection Hi as <-. simpl in Hj. rewrite List.Forall_forall in Hall.
      apply Hall, list_elem_of_In, (list_elem_of_lookup_2 _ j), Hj.
    + apply (IH i j); [lia | exact Hi | exact Hj].
Qed.

Lemma name_le_order :
  collation_total_preorder -> Total name_le /\ Transitive name_le.
Proof.
  intros [Htotal Htrans]. unfold name_le. split.
  - intros a b. destruct (Htotal (name a) (name b)) as [H | H]; rewrite H; [left | right];
      exact I.
  - intros a b c Hab Hbc. apply Is_true_true in Hab, Hbc. apply Is_true_true.
    exact (Htrans _ _ _ Hab Hbc).
Qed.

(** X4. The pages are in the order of the collator: on a page each
    name is at most the next one, and a name of a page is at most any
    name of a later page. *)
Theorem getLocations_page_is_sorted (db : Database) (p p' s : Z) (lang : string)
    (kw : text) (env env' : Envelope LocationRow) :
  collation_total_preorder ->
  getLocations db p s lang kw = SendJson (JsonPage [env]) ->
  getLocations db p' s lang kw = SendJson (JsonPage [env']) ->
  Sorted name_le (resultData env)
  /\ ((p < p')%Z ->
      forall r r', r ∈ resultData env -> r' ∈ resultData env' -> name_le r r').
Proof.
  intros Horder. destruct (name_le_order Horder) as [Htotal Htrans].
  unfold getLocations. rewrite new_RegExp_escaped. simpl.
  unfold aggregate, skip_stage.
  destruct ((p - 1) * s <? 0)%Z eqn:Hp; simpl; [discriminate |].
  destruct ((p' - 1) * s <? 0)%Z eqn:Hp'; simpl; [discriminate |].
  unfold limit_stage. destruct (s <=? 0)%Z eqn:Hs; simpl; [discriminate |].
  intros [= <-] [= <-]. cbn [resultData]. split.
  - apply Sorted_take, Sorted_drop. unfold sort_stage. apply Sorted_merge_sort, Htotal.
  - intros Hlt r r' Hr Hr'.
    apply Z.ltb_ge in Hp, Hp'. apply Z.leb_gt in Hs.
    apply list_elem_of_lookup in Hr as [i Hi]. apply list_elem_of_lookup in Hr' as [j Hj].
    apply lookup_take_Some in Hi as [Hi Hlti]. apply lookup_take_Some in Hj as [Hj _].
    rewrite lookup_drop in Hi, Hj.
    refine (StronglySorted_lookup name_le _ _ _ r r' _ _ Hi Hj).
    + unfold sort_stage. apply StronglySorted_merge_sort; assumption.
    + nia.
Qed.

(** X5. A page holds the rows left after the pages before it, up to the
    page size: it is full while [p * s] does not exceed the total, and
    empty once the pages before it cover the total. *)
Theorem getLocations_page_length (db : Database) (p s : Z) (lang : string) (kw : text) :
  (1 <= p)%Z -> (0 < s)%Z ->
  let total := Z.of_nat (length (matching_rows db lang (keyword_regex kw))) in
  exists env,
    getLocations db p s lang kw = SendJson (JsonPage [env])
    /\ Z.of_nat (length (resultData env)) = Z.max 0 (Z.min s (total - (p - 1) * s))
    /\ ((p * s <= total)%Z -> Z.of_nat (length (resultData env)) = s)
    /\ ((total <= (p - 1) * s)%Z -> resultData env = []).
Proof.
  intros Hp Hs total. eexists. split; [apply getLocations_ok; assumption |].
  cbn [resultData].
  assert (Z.of_nat (length (take (Z.to_nat s)
            (drop (Z.to_nat ((p - 1) * s))
               (sort_stage (matching_rows db lang (keyword_regex kw))))))
          = Z.max 0 (Z.min s (total - (p - 1) * s))) as Hlen.
  { rewrite length_take, length_drop. unfold sort_stage.
    rewrite (Permutation_length (merge_sort_Permutation _ _)).
    subst total. nia. }
  split; [exact Hlen |]. split.
  - intros Hfull. rewrite Hlen. lia.
  - intros Hpast. apply length_zero_iff_nil. lia.
Qed.



Lemma matches_fold_case (kw kw' v : text) :
  fold_case kw = fold_case kw' ->
  (matches_some_substring kw v <-> matches_some_substring kw' v)
  /\ (matches_entire_value kw v <-> matches_entire_value kw' v).
Proof.
  intros H. unfold matches_some_substring, matches_entire_value, same_up_to_case.
  rewrite H. tauto.
Qed.

Lemma bool_ext (a b : bool) : (a = true <-> b = true) -> a = b.
Proof. destruct a, b; intuition discriminate. Qed.

(** X7. The case of the letters of the keyword does not matter: two
    keywords that differ in case only get the same answer from
    [getLocations], and two such names the same answer from [validate]. *)
Theorem keyword_case_is_ignored (db : Database) (p s : Z) (lang : string)
    (kw kw' : text) :
  fold_case kw = fold_case kw' ->
  getLocations db p s lang kw = getLocations db p s lang kw'
  /\ validate db lang kw = validate db lang kw'.
Proof.
  intros Hfold. split.
  - assert (matching_rows db lang (keyword_regex kw)
            = matching_rows db lang (keyword_regex kw')) as Hrows.
    { unfold matching_rows. apply flat_map_ext. intros l.
      unfold lookup_stage. f_equal. f_equal. apply List.filter_ext. intros d.
      apply bool_ext. rewrite !lookup_match_spec.
      pose proof (matches_fold_case kw kw' (value d.2) Hfold). tauto. }
    unfold getLocations. rewrite !new_RegExp_escaped.
    unfold mbind, result_bind, aggregate. rewrite Hrows. reflexivity.
  - unfold validate. rewrite !new_RegExp_anchored. simpl.
    assert (forall d, validate_filter lang (MkRegex true kw true) d
                      = validate_filter lang (MkRegex true kw' true) d)
      as Hext.
    { intros d. apply bool_ext. rewrite !validate_filter_spec.
      pose proof (matches_fold_case kw kw' (value d.2) Hfold). tauto. }
    induction (map_to_list (LocationValue db)) as [| d t IH]; simpl; [reflexivity |].
    rewrite Hext. destruct (validate_filter _ _ d); [reflexivity | exact IH].
Qed.



End Search.

End SearchFacts.

(** ** The location controller: new documents *)

Module WriteFacts.
Import JsRegExp JsRegExpFacts LocationController LocationFacts LocationStoreFacts
  LocationWrites.

Section Writes.
Context {engine : RegexEngine} {collation : Collation}.

Lemma used_ids_location (db : Database) (id : N) (loc : LocationDoc) :
  Location db !! id = Some loc -> id ∈ used_ids db.
Proof.
  intros H. unfold used_ids. apply elem_of_union_l, elem_of_union_l, elem_of_dom.
  rewrite H. eauto.
Qed.

Lemma used_ids_value (db : Database) (v : N) (d : LocationValueDoc) :
  LocationValue db !! v = Some d -> v ∈ used_ids db.
Proof.
  intros H. unfold used_ids. apply elem_of_union_l, elem_of_union_r, elem_of_dom.
  rewrite H. eauto.
Qed.

Lemma used_ids_reference (db : Database) (id v : N) (loc : LocationDoc) :
  Location db !! id = Some loc -> v ∈ values loc -> v ∈ used_ids db.
Proof.
  intros Hloc Hv. unfold used_ids. apply elem_of_union_r, elem_of_union_list.
  exists (list_to_set (values loc)). split; [| apply elem_of_list_to_set; exact Hv].
  apply list_elem_of_In, in_map_iff. exists (id, loc). split; [reflexivity |].
  apply list_elem_of_In, elem_of_map_to_list. exact Hloc.
Qed.

Lemma new_ObjectId_fresh (db : Database) : new_ObjectId db ∉ used_ids db.
Proof. unfold new_ObjectId. apply is_fresh. Qed.

Lemma used_ids_insert_value (db : Database) (i : N) (d : LocationValueDoc) :
  used_ids (MkDatabase (Location db) (<[ i := d ]> (LocationValue db)))
  = {[ i ]} ∪ used_ids db.
Proof.
  unfold used_ids. simpl. rewrite dom_insert_L.
  apply set_eq. intros x. rewrite !elem_of_union, elem_of_singleton. tauto.
Qed.

(** What the loop of [create] leaves: the Locations as they were, one
    new document per name under an id that was not in use, and every
    other LocationValue as it was. *)
Lemma save_names_spec (names : list LocationName.t) (db : Database) (acc : list N) :
  exists ids,
    (save_names db names acc).2 = acc ++ ids
    /\ Location (save_names db names acc).1 = Location db
    /\ Forall2 (fun v nm => LocationValue (save_names db names acc).1 !! v
                            = Some (new_LocationValue nm)) ids names
    /\ NoDup ids
    /\ (forall v, v ∈ ids -> v ∉ used_ids db)
    /\ (forall v, v ∉ ids ->
          LocationValue (save_names db names acc).1 !! v = LocationValue db !! v).
Proof.
  revert db acc. induction names as [| nm rest IH]; intros db acc; simpl.
  - exists []. rewrite app_nil_r. repeat split; try constructor.
    intros v Hv. apply elem_of_nil in Hv. destruct Hv.
  - set (i := new_ObjectId db).
    set (db' := MkDatabase (Location db) (<[ i := new_LocationValue nm ]> (LocationValue db))).
    destruct (IH db' (acc ++ [i])) as (ids & Hacc & Hloc & Hdocs & Hnd & Hfresh & Hframe).
    assert (i ∉ ids) as Hi.
    { intros Hin. apply (Hfresh i Hin). unfold db'.
      rewrite used_ids_insert_value. apply elem_of_union_l, elem_of_singleton.
      reflexivity. }
    exists (i :: ids). split; [rewrite Hacc, <- app_assoc; reflexivity |].
    split; [exact Hloc |]. split.
    { constructor; [| exact Hdocs]. rewrite (Hframe i Hi). unfold db'. simpl.
      apply lookup_insert_eq. }
    split; [constructor; assumption |]. split.
    + intros v Hv. apply elem_of_cons in Hv as [-> | Hv].
      * apply new_ObjectId_fresh.
      * intros Hused. apply (Hfresh v Hv). unfold db'.
        rewrite used_ids_insert_value. apply elem_of_union_r. exact Hused.
    + intros v Hv. apply not_elem_of_cons in Hv as [Hne Hv].
      rewrite (Hframe v Hv). unfold db'. simpl. apply lookup_insert_ne. congruence.
Qed.

Lemma populate_Forall2 (db : Database) (ids : list N) (docs : list LocationValueDoc) :
  Forall2 (fun v d => LocationValue db !! v = Some d) ids docs ->
  populate db ids = zip ids docs.
Proof.
  unfold populate. induction 1 as [| v d ids docs Hv _ IH]; csimpl; [reflexivity |].
  rewrite Hv. csimpl. rewrite IH. reflexivity.
Qed.

(** The parts of the database [create] leaves: [ids] are the new
    values, in the order of the names. *)
Lemma create_spec (db : Database) (names : list LocationName.t) :
  exists ids,
    Location (create db names).1
    = (<[ created_id db names := MkLocation ids ]> (Location db))
    /\ Location db !! created_id db names = None
    /\ (created_id db names ∉ ids)
    /\ Forall2 (fun v nm => LocationValue (create db names).1 !! v
                            = Some (new_LocationValue nm)) ids names
    /\ NoDup ids
    /\ (forall v, v ∈ ids -> v ∉ used_ids db)
    /\ (forall v, v ∉ ids ->
          LocationValue (create db names).1 !! v = LocationValue db !! v).
Proof.
  destruct (save_names_spec names db []) as (ids & Hacc & Hloc & Hdocs & Hnd & Hfresh & Hframe).
  exists ids. unfold create, created_id. simpl. rewrite Hacc, Hloc. simpl.
  pose proof (new_ObjectId_fresh (save_names db names []).1) as Hnew.
  split; [reflexivity |]. split.
  { destruct (Location db !! new_ObjectId (save_names db names []).1) eqn:E; [| reflexivity].
    destruct Hnew. apply (used_ids_location _ _ l). rewrite Hloc. exact E. }
  split.
  { intros Hin. apply Hnew.
    destruct (proj1 (list_elem_of_lookup _ _) Hin) as [k Hk].
    destruct (Forall2_lookup_l _ _ _ _ _ Hdocs Hk) as (nm & _ & Hd).
    apply (used_ids_value _ _ _ Hd). }
  auto.
Qed.

Lemma Database_eq (d1 d2 : Database) :
  Location d1 = Location d2 -> LocationValue d1 = LocationValue d2 -> d1 = d2.
Proof. destruct d1, d2; simpl; intros -> ->; reflexivity. Qed.

Lemma first_value_zip (lang : string) (names : list LocationName.t) (ids : list N) :
  length ids = length names ->
  first_value (List.filter (fun v : N * LocationValueDoc => String.eqb (language v.2) lang)
                 (zip ids (new_LocationValue <$> names)))
  = match first_name lang names with
    | Some x => Ok x
    | None => Throw "TypeError: Cannot read properties of undefined (reading 'value')"
    end.
Proof.
  unfold first_name. revert ids.
  induction names as [| nm rest IH]; intros [| i ids] Hlen; simpl in *;
    try discriminate; [reflexivity |].
  destruct (String.eqb (LocationName.language nm) lang); simpl; [reflexivity |].
  apply IH. congruence.
Qed.

(** X9. [create] then [getLocation]: the new Location answers, for a
    language, with the first of the given names in that language, and
    with the 400 of the error path for a language none of them has. *)
Theorem create_then_getLocation (db : Database) (names : list LocationName.t)
    (lang : string) :
  Location db !! created_id db names = None
  /\ (create db names).2 = SendStatus 200
  /\ match first_name lang names with
     | Some nm =>
         exists vals,
           getLocation (create db names).1 (created_id db names) lang
           = SendJson (JsonLocation (created_id db names) vals nm)
     | None =>
         status (getLocation (create db names).1 (created_id db names) lang) = 400%Z
     end.
Proof.
  destruct (create_spec db names)
    as (ids & Hloc & Hnew & _ & Hdocs & _ & _ & _).
  split; [exact Hnew |]. split; [reflexivity |].
  unfold getLocation. rewrite Hloc, lookup_insert_eq. cbn [values].
  assert (populate (create db names).1 ids = zip ids (new_LocationValue <$> names)) as ->.
  { apply populate_Forall2, Forall2_fmap_r. exact Hdocs. }
  unfold mbind, result_bind.
  pose proof (first_value_zip lang names ids (Forall2_length _ _ _ Hdocs)) as Hfirst.
  destruct (first_name lang names); [eexists |]; rewrite Hfirst; reflexivity.
Qed.

Lemma created_doc (db : Database) (names : list LocationName.t) (nm : LocationName.t) :
  nm ∈ names ->
  exists v, LocationValue (create db names).1 !! v = Some (new_LocationValue nm).
Proof.
  intros Hin. destruct (create_spec db names) as (ids & _ & _ & _ & Hdocs & _).
  apply list_elem_of_lookup in Hin as [k Hk].
  destruct (Forall2_lookup_r _ _ _ _ _ Hdocs Hk) as (v & _ & Hv). eauto.
Qed.

(** X10. [create] then [validate]: each of the names saved is reported as
    taken in its language. *)
Theorem create_then_validate (db : Database) (names : list LocationName.t)
    (nm : LocationName.t) :
  nm ∈ names ->
  validate (create db names).1 (LocationName.language nm) (LocationName.name nm)
  = SendStatus 204.
Proof.
  intros Hin. destruct (created_doc db names nm Hin) as [v Hv].
  destruct (validate_answers (create db names).1
              (LocationName.language nm) (LocationName.name nm))
    as [[_ H] | [Hnone _]]; [exact H |].
  destruct (Hnone v (new_LocationValue nm) Hv); [reflexivity | left; reflexivity].
Qed.

(** X11. [create] then [deleteLocation] of the new Location: the answer is
    200 and the database is the one before [create]. *)
Theorem create_then_deleteLocation (db : Database) (names : list LocationName.t) :
  deleteLocation (create db names).1 (created_id db names) = (db, SendStatus 200).
Proof.
  destruct (create_spec db names)
    as (ids & Hloc & Hnew & _ & Hdocs & _ & Hfresh & Hframe).
  unfold deleteLocation. rewrite Hloc, lookup_insert_eq. cbn [values].
  f_equal. apply Database_eq; cbn [Location LocationValue].
  - apply delete_insert_id. exact Hnew.
  - apply map_eq. intros v. destruct (decide (v ∈ ids)) as [Hv | Hv].
    + rewrite (deleteMany_lookup_in ids _ v Hv). symmetry.
      destruct (LocationValue db !! v) as [d |] eqn:E; [| reflexivity].
      destruct (Hfresh v Hv). apply (used_ids_value db v d E).
    + rewrite (deleteMany_lookup_notin ids _ v Hv). apply Hframe. exact Hv.
Qed.

Lemma create_frame (db : Database) (names : list LocationName.t) (id v : N)
    (loc : LocationDoc) :
  Location db !! id = Some loc ->
  Location (create db names).1 !! id = Some loc
  /\ (v ∈ values loc ->
      LocationValue (create db names).1 !! v = LocationValue db !! v).
Proof.
  intros Hloc. destruct (create_spec db names)
    as (ids & Hloc' & Hnew & _ & _ & _ & Hfresh & Hframe).
  split.
  - rewrite Hloc', lookup_insert_ne; [exact Hloc | congruence].
  - intros Hv. apply Hframe. intros Hin.
    apply (Hfresh v Hin), (used_ids_reference db id v loc Hloc Hv).
Qed.

(** X12. [create] keeps the data model when the given names are in
    different languages: if no Location had two names in one language
    before, none has after. *)
Theorem create_keeps_one_value_per_language (db : Database)
    (names : list LocationName.t) :
  one_value_per_language db ->
  NoDup (LocationName.language <$> names) ->
  one_value_per_language (create db names).1.
Proof.
  intros Hone Hnd id loc v1 v2 d1 d2 Hloc H1 H2 Hd1 Hd2 Hlang.
  destruct (create_spec db names)
    as (ids & Hloc' & Hnew & _ & Hdocs & _ & _ & _).
  destruct (decide (id = created_id db names)) as [-> | Hne].
  - rewrite Hloc', lookup_insert_eq in Hloc. injection Hloc as <-. simpl in H1, H2.
    apply list_elem_of_lookup in H1 as [k1 Hk1]. apply list_elem_of_lookup in H2 as [k2 Hk2].
    destruct (Forall2_lookup_l _ _ _ _ _ Hdocs Hk1) as (n1 & Hn1 & Hv1).
    destruct (Forall2_lookup_l _ _ _ _ _ Hdocs Hk2) as (n2 & Hn2 & Hv2).
    rewrite Hv1 in Hd1. rewrite Hv2 in Hd2. injection Hd1 as <-. injection Hd2 as <-.
    simpl in Hlang.
    assert (k1 = k2) as ->.
    { apply (NoDup_lookup _ k1 k2 (LocationName.language n1) Hnd);
        rewrite list_lookup_fmap; [rewrite Hn1 | rewrite Hn2, Hlang]; reflexivity. }
    congruence.
  - rewrite Hloc', lookup_insert_ne in Hloc by congruence.
    destruct (create_frame db names id v1 loc Hloc) as [_ F1].
    destruct (create_frame db names id v2 loc Hloc) as [_ F2].
    rewrite (F1 H1) in Hd1. rewrite (F2 H2) in Hd2.
    exact (Hone id loc v1 v2 d1 d2 Hloc H1 H2 Hd1 Hd2 Hlang).
Qed.


End Writes.

End WriteFacts.

(** ** The location controller: update *)

Module UpdateFacts.
Import JsRegExp JsRegExpFacts LocationController LocationFacts LocationStoreFacts
  LocationWrites WriteFacts.

Section Updates.
Context {engine : RegexEngine} {collation : Collation}.

Lemma populate_app (db : Database) (ids ids' : list N) :
  populate db (ids ++ ids') = populate db ids ++ populate db ids'.
Proof. unfold populate. apply omap_app. Qed.

Lemma populate_insert_notin (L : gmap N LocationDoc) (db : Database) (i : N)
    (d : LocationValueDoc) (ids : list N) :
  i ∉ ids ->
  populate (MkDatabase L (<[ i := d ]> (LocationValue db))) ids = populate db ids.
Proof.
  unfold populate. cbn [LocationValue].
  induction ids as [| j ids IH]; intros Hi; csimpl; [reflexivity |].
  apply not_elem_of_cons in Hi as [Hne Hi].
  rewrite lookup_insert_ne by congruence. rewrite (IH Hi). reflexivity.
Qed.

Lemma populate_insert_set_value (L : gmap N LocationDoc) (db : Database) (i : N)
    (d0 : LocationValueDoc) (x : text) (ids : list N) :
  LocationValue db !! i = Some d0 ->
  populate (MkDatabase L (<[ i := MkLocationValue (language d0) x ]> (LocationValue db))) ids
  = set_value i x (populate db ids).
Proof.
  intros Hi. unfold populate, set_value. cbn [LocationValue].
  induction ids as [| j ids IH]; csimpl; [reflexivity |].
  destruct (decide (j = i)) as [-> | Hne].
  - rewrite lookup_insert_eq, Hi. csimpl. rewrite N.eqb_refl, IH. reflexivity.
  - rewrite lookup_insert_ne by congruence.
    destruct (LocationValue db !! j) as [d |]; csimpl; [| exact IH].
    rewrite (proj2 (N.eqb_neq j i) Hne), IH. reflexivity.
Qed.

Lemma filter_set_value (lang : string) (i : N) (x : text) (mem : list ValueObject) :
  List.filter (fun v : ValueObject => String.eqb (language v.2) lang) (set_value i x mem)
  = set_value i x (List.filter (fun v : ValueObject => String.eqb (language v.2) lang) mem).
Proof.
  unfold set_value. induction mem as [| o mem IH]; simpl; [reflexivity |].
  destruct (N.eqb o.1 i) eqn:E; simpl;
    destruct (String.eqb (language o.2) lang); simpl; rewrite ?E, IH; reflexivity.
Qed.

(** The two turns the loop can take. *)
Lemma update_one_cases (db : Database) (id : N) (loc : LocationDoc) (nm : LocationName.t) :
  Location db !! id = Some loc ->
  (exists lv rest,
      List.filter (fun v : ValueObject =>
                     String.eqb (language v.2) (LocationName.language nm))
        (populate db (values loc)) = lv :: rest
      /\ lv.1 ∈ values loc
      /\ LocationValue db !! lv.1 = Some lv.2
      /\ language lv.2 = LocationName.language nm
      /\ update_one db id nm
         = MkDatabase (Location db)
             (<[ lv.1 := MkLocationValue (language lv.2) (LocationName.name nm) ]>
                (LocationValue db)))
  \/ (List.filter (fun v : ValueObject =>
                     String.eqb (language v.2) (LocationName.language nm))
        (populate db (values loc)) = []
      /\ update_one db id nm
         = MkDatabase
             (alter (fun l => MkLocation (values l ++ [new_ObjectId db])) id (Location db))
             (<[ new_ObjectId db := new_LocationValue nm ]> (LocationValue db))).
Proof.
  intros Hloc. unfold update_one. rewrite Hloc. cbn [update_names].
  destruct (List.filter _ (populate db (values loc))) as [| lv rest] eqn:E.
  - right. split; reflexivity.
  - left. exists lv, rest. split; [reflexivity |].
    assert (In lv (List.filter (fun v : ValueObject =>
                      String.eqb (language v.2) (LocationName.language nm))
                     (populate db (values loc)))) as Hin by (rewrite E; left; reflexivity).
    apply filter_In in Hin as [Hin Hl]. destruct lv as [v d].
    apply in_populate in Hin as [Hv Hd]. apply String.eqb_eq in Hl.
    repeat split; assumption.
Qed.

(** After one turn the Location is still stored, and what the loop
    holds in memory is what a new [populate] would read. *)
Lemma update_names_step (db : Database) (id : N) (loc : LocationDoc)
    (nm : LocationName.t) (rest : list LocationName.t) :
  Location db !! id = Some loc ->
  exists loc1,
    Location (update_one db id nm) !! id = Some loc1
    /\ update_names db id (populate db (values loc)) (nm :: rest)
       = update_names (update_one db id nm) id
           (populate (update_one db id nm) (values loc1)) rest.
Proof.
  intros Hloc.
  destruct (update_one_cases db id loc nm Hloc)
    as [(lv & tl & E & Hv & Hd & Hl & Hone) | [E Hone]].
  - exists loc. rewrite Hone. split; [exact Hloc |].
    cbn [update_names]. rewrite E.
    rewrite (populate_insert_set_value _ db lv.1 lv.2 _ _ Hd). reflexivity.
  - exists (MkLocation (values loc ++ [new_ObjectId db])). rewrite Hone. split.
    + cbn [Location]. rewrite lookup_alter_eq, Hloc. reflexivity.
    + cbn [update_names]. rewrite E. cbn [values]. f_equal.
      rewrite populate_app, populate_insert_notin.
      * f_equal. unfold populate. csimpl. rewrite lookup_insert_eq. reflexivity.
      * intros Hin. apply (new_ObjectId_fresh db).
        apply (used_ids_reference db id _ loc Hloc Hin).
Qed.

Lemma update_is_fold (names : list LocationName.t) (db : Database) (id : N)
    (loc : LocationDoc) :
  Location db !! id = Some loc ->
  update_names db id (populate db (values loc)) names
  = fold_left (fun d nm => update_one d id nm) names db
  /\ exists loc', Location (fold_left (fun d nm => update_one d id nm) names db) !! id
                  = Some loc'.
Proof.
  revert db loc. induction names as [| nm rest IH]; intros db loc Hloc.
  - split; [reflexivity | eauto].
  - destruct (update_names_step db id loc nm rest Hloc) as (loc1 & Hloc1 & Hstep).
    rewrite Hstep. simpl. apply (IH _ loc1 Hloc1).
Qed.

Lemma populate_functional (db : Database) (ids : list N) (o o' : ValueObject) :
  In o (populate db ids) -> In o' (populate db ids) -> o.1 = o'.1 -> o.2 = o'.2.
Proof.
  destruct o as [v d], o' as [v' d']. simpl. intros H H' <-.
  apply in_populate in H as [_ H]. apply in_populate in H' as [_ H']. congruence.
Qed.

(** What a new [populate] reads after one turn. *)
Lemma update_one_memory (db : Database) (id : N) (loc : LocationDoc) (nm : LocationName.t) :
  Location db !! id = Some loc ->
  exists loc1,
    Location (update_one db id nm) !! id = Some loc1
    /\ populate (update_one db id nm) (values loc1)
       = match List.filter (fun v : ValueObject =>
                              String.eqb (language v.2) (LocationName.language nm))
                 (populate db (values loc)) with
         | lv :: _ => set_value lv.1 (LocationName.name nm) (populate db (values loc))
         | [] => populate db (values loc) ++ [(new_ObjectId db, new_LocationValue nm)]
         end.
Proof.
  intros Hloc.
  destruct (update_one_cases db id loc nm Hloc)
    as [(lv & tl & E & Hv & Hd & Hl & Hone) | [E Hone]]; rewrite Hone, E.
  - exists loc. split; [exact Hloc |].
    apply (populate_insert_set_value _ db lv.1 lv.2 _ _ Hd).
  - exists (MkLocation (values loc ++ [new_ObjectId db])). split.
    + cbn [Location]. rewrite lookup_alter_eq, Hloc. reflexivity.
    + cbn [values]. rewrite populate_app, populate_insert_notin.
      * f_equal. unfold populate. csimpl. rewrite lookup_insert_eq. reflexivity.
      * intros Hin. apply (new_ObjectId_fresh db).
        apply (used_ids_reference db id _ loc Hloc Hin).
Qed.

(** After one turn the Location has the given name in the language of
    that name, and the names it had in the other languages. *)
Lemma stored_name_update_one (db : Database) (id : N) (loc : LocationDoc)
    (nm : LocationName.t) (lang : string) :
  Location db !! id = Some loc ->
  stored_name (update_one db id nm) id lang
  = if String.eqb (LocationName.language nm) lang then Some (LocationName.name nm)
    else stored_name db id lang.
Proof.
  intros Hloc. destruct (update_one_memory db id loc nm Hloc) as (loc1 & Hloc1 & Hmem).
  unfold stored_name. rewrite Hloc1, Hmem, Hloc. clear Hloc1 Hmem.
  set (mem := populate db (values loc)).
  destruct (List.filter (fun v : ValueObject =>
                           String.eqb (language v.2) (LocationName.language nm)) mem)
    as [| lv tl] eqn:E.
  - rewrite List.filter_app. simpl.
    destruct (String.eqb (LocationName.language nm) lang) eqn:El.
    + apply String.eqb_eq in El. subst lang. rewrite E. reflexivity.
    + rewrite app_nil_r. reflexivity.
  - rewrite filter_set_value.
    assert (In lv mem /\ language lv.2 = LocationName.language nm) as [Hlv Hlang].
    { assert (In lv (List.filter (fun v : ValueObject =>
                        String.eqb (language v.2) (LocationName.language nm)) mem))
        as Hin by (rewrite E; left; reflexivity).
      apply filter_In in Hin as [Hin Hl]. apply String.eqb_eq in Hl. auto. }
    destruct (String.eqb (LocationName.language nm) lang) eqn:El.
    + apply String.eqb_eq in El. subst lang. rewrite E. simpl.
      rewrite N.eqb_refl. reflexivity.
    + destruct (List.filter (fun v : ValueObject => String.eqb (language v.2) lang) mem)
        as [| o t] eqn:Eo; [reflexivity |]. simpl.
      assert (In o mem /\ language o.2 = lang) as [Ho Hol].
      { assert (In o (List.filter (fun v : ValueObject =>
                          String.eqb (language v.2) lang) mem))
          as Hin by (rewrite Eo; left; reflexivity).
        apply filter_In in Hin as [Hin Hl]. apply String.eqb_eq in Hl. auto. }
      destruct (N.eqb o.1 lv.1) eqn:Eid; [| reflexivity].
      apply N.eqb_eq in Eid.
      pose proof (populate_functional db (values loc) o lv Ho Hlv Eid) as Hsame.
      apply String.eqb_neq in El. destruct El. congruence.
Qed.

Lemma find_app_first {A : Type} (f : A -> bool) (l l' : list A) :
  List.find f (l ++ l') = match List.find f l with
                          | Some x => Some x
                          | None => List.find f l'
                          end.
Proof.
  induction l as [| a l IH]; simpl; [reflexivity |]. destruct (f a); [reflexivity | exact IH].
Qed.

Lemma last_name_cons (lang : string) (nm : LocationName.t) (rest : list LocationName.t) :
  last_name lang (nm :: rest)
  = match last_name lang rest with
    | Some x => Some x
    | None => if String.eqb (LocationName.language nm) lang
              then Some (LocationName.name nm) else None
    end.
Proof.
  unfold last_name, first_name. simpl. rewrite find_app_first.
  destruct (List.find _ (rev rest)); simpl; [reflexivity |].
  destruct (String.eqb (LocationName.language nm) lang); reflexivity.
Qed.

Lemma stored_name_fold (names : list LocationName.t) (db : Database) (id : N)
    (loc : LocationDoc) (lang : string) :
  Location db !! id = Some loc ->
  stored_name (fold_left (fun d nm => update_one d id nm) names db) id lang
  = match last_name lang names with
    | Some x => Some x
    | None => stored_name db id lang
    end.
Proof.
  revert db loc. induction names as [| nm rest IH]; intros db loc Hloc; [reflexivity |].
  destruct (update_one_memory db id loc nm Hloc) as (loc1 & Hloc1 & _).
  simpl. rewrite (IH _ loc1 Hloc1), last_name_cons.
  rewrite (stored_name_update_one db id loc nm lang Hloc).
  destruct (last_name lang rest); [reflexivity |].
  destruct (String.eqb (LocationName.language nm) lang); reflexivity.
Qed.

(** [getLocation] in terms of the name stored for the language. *)
Lemma getLocation_stored_name (db : Database) (id : N) (loc : LocationDoc) (lang : string) :
  Location db !! id = Some loc ->
  match stored_name db id lang with
  | Some x => getLocation db id lang
              = SendJson (JsonLocation id (populate db (values loc)) x)
  | None => status (getLocation db id lang) = 400%Z
  end.
Proof.
  intros Hloc. unfold stored_name, getLocation. rewrite Hloc. unfold ValueObject.
  destruct (List.filter (fun v : N * LocationValueDoc => String.eqb (language v.2) lang)
              (populate db (values loc))); reflexivity.
Qed.

(** X14. [update] then [getLocation]: in a language of the given names the
    Location answers with the last of the names given in that
    language; in any other language it answers with the name it had,
    or with the 400 of the error path if it had none. *)
Theorem update_then_getLocation (db : Database) (id : N) (loc : LocationDoc)
    (names : list LocationName.t) (lang : string) :
  Location db !! id = Some loc ->
  (update db id names).2 = SendStatus 200
  /\ match last_name lang names with
     | Some x =>
         exists vals,
           getLocation (update db id names).1 id lang = SendJson (JsonLocation id vals x)
     | None =>
         match stored_name db id lang with
         | Some x =>
             exists vals,
               getLocation (update db id names).1 id lang
               = SendJson (JsonLocation id vals x)
         | None => status (getLocation (update db id names).1 id lang) = 400%Z
         end
     end.
Proof.
  intros Hloc. unfold update. rewrite Hloc. cbn [fst snd].
  split; [reflexivity |].
  destruct (update_is_fold names db id loc Hloc) as [-> [loc' Hloc']].
  pose proof (getLocation_stored_name _ id loc' lang Hloc') as Hget.
  rewrite (stored_name_fold names db id loc lang Hloc) in Hget.
  destruct (last_name lang names); [eauto |].
  destruct (stored_name db id lang); [eauto | exact Hget].
Qed.

Lemma one_value_per_language_update_one (db : Database) (id : N) (loc : LocationDoc)
    (nm : LocationName.t) :
  Location db !! id = Some loc ->
  one_value_per_language db ->
  one_value_per_language (update_one db id nm).
Proof.
  intros Hloc Hone.
  destruct (update_one_cases db id loc nm Hloc)
    as [(lv & tl & E & Hv & Hd & Hl & ->) | [E ->]].
  - assert (forall v d, (<[ lv.1 := MkLocationValue (language lv.2) (LocationName.name nm) ]>
                           (LocationValue db)) !! v = Some d ->
                        exists d0, LocationValue db !! v = Some d0
                                   /\ language d0 = language d) as Hold.
    { intros v d. destruct (decide (v = lv.1)) as [-> | Hne].
      - rewrite lookup_insert_eq. intros [= <-]. exists lv.2. auto.
      - rewrite lookup_insert_ne by congruence. eauto. }
    intros id' loc' v1 v2 d1 d2 Hloc' H1 H2 Hd1 Hd2 Hlang. cbn [Location LocationValue] in *.
    destruct (Hold v1 d1 Hd1) as (e1 & He1 & Hl1).
    destruct (Hold v2 d2 Hd2) as (e2 & He2 & Hl2).
    apply (Hone id' loc' v1 v2 e1 e2 Hloc' H1 H2 He1 He2). congruence.
  - pose proof (new_ObjectId_fresh db) as Hfresh. set (i := new_ObjectId db) in *.
    assert (forall v d, v <> i ->
              (<[ i := new_LocationValue nm ]> (LocationValue db)) !! v = Some d ->
              LocationValue db !! v = Some d) as Hold.
    { intros v d Hne. rewrite lookup_insert_ne by congruence. auto. }
    assert (forall v, v ∈ values loc -> v <> i) as Hused.
    { intros v Hv ->. apply Hfresh, (used_ids_reference db id _ loc Hloc Hv). }
    assert (forall v d, v ∈ values loc -> LocationValue db !! v = Some d ->
                        language d <> LocationName.language nm) as Hnolang.
    { intros v d Hv Hd Hlang.
      assert (In (v, d) (List.filter (fun v : ValueObject =>
                           String.eqb (language v.2) (LocationName.language nm))
                          (populate db (values loc)))) as Hin.
      { apply filter_In. split; [apply in_populate; auto |].
        apply String.eqb_eq. exact Hlang. }
      rewrite E in Hin. destruct Hin. }
    intros id' loc' v1 v2 d1 d2 Hloc' H1 H2 Hd1 Hd2 Hlang. cbn [Location LocationValue] in *.
    destruct (decide (id' = id)) as [-> | Hne].
    + rewrite lookup_alter_eq, Hloc in Hloc'. injection Hloc' as <-. cbn [values] in *.
      apply elem_of_app in H1 as [H1 | H1]; apply elem_of_app in H2 as [H2 | H2].
      * apply (Hone id loc v1 v2 d1 d2 Hloc H1 H2); auto.
      * apply list_elem_of_singleton in H2. subst v2.
        rewrite lookup_insert_eq in Hd2. injection Hd2 as <-.
        destruct (Hnolang v1 d1 H1 (Hold v1 d1 (Hused v1 H1) Hd1)). exact Hlang.
      * apply list_elem_of_singleton in H1. subst v1.
        rewrite lookup_insert_eq in Hd1. injection Hd1 as <-.
        destruct (Hnolang v2 d2 H2 (Hold v2 d2 (Hused v2 H2) Hd2)). auto.
      * apply list_elem_of_singleton in H1, H2. congruence.
    + rewrite lookup_alter_ne in Hloc' by congruence.
      assert (forall v, v ∈ values loc' -> v <> i) as Hused'.
      { intros v Hv ->. apply Hfresh, (used_ids_reference db id' _ loc' Hloc' Hv). }
      apply (Hone id' loc' v1 v2 d1 d2 Hloc' H1 H2); auto.
Qed.

(** X15. [update] keeps the data model, whatever names it is given: if no
    Location had two names in one language before, none has after. *)
Theorem update_keeps_one_value_per_language (db : Database) (id : N)
    (names : list LocationName.t) :
  one_value_per_language db ->
  one_value_per_language (update db id names).1.
Proof.
  intros Hone. unfold update.
  destruct (Location db !! id) as [loc |] eqn:Hloc; [| exact Hone]. cbn [fst].
  destruct (update_is_fold names db id loc Hloc) as [-> _].
  revert db loc Hloc Hone. induction names as [| nm rest IH]; intros db loc Hloc Hone;
    [exact Hone |].
  destruct (update_one_memory db id loc nm Hloc) as (loc1 & Hloc1 & _).
  simpl. apply (IH _ loc1 Hloc1).
  apply (one_value_per_language_update_one db id loc nm Hloc Hone).
Qed.

(** What one turn leaves alone. *)
Lemma update_one_frame (db : Database) (id : N) (loc : LocationDoc) (nm : LocationName.t) :
  Location db !! id = Some loc ->
  (forall j, j <> id -> Location (update_one db id nm) !! j = Location db !! j)
  /\ (exists loc1 new, Location (update_one db id nm) !! id = Some loc1
         /\ values loc1 = values loc ++ new
         /\ forall v, v ∈ new -> LocationValue db !! v = None)
  /\ (forall v d, LocationValue db !! v = Some d ->
        exists d', LocationValue (update_one db id nm) !! v = Some d'
                   /\ language d' = language d
                   /\ (v ∉ values loc -> d' = d)).
Proof.
  intros Hloc.
  destruct (update_one_cases db id loc nm Hloc)
    as [(lv & tl & E & Hv & Hd & Hl & ->) | [E ->]]; cbn [Location LocationValue].
  - split; [reflexivity |]. split.
    + exists loc, []. rewrite app_nil_r. repeat split; [exact Hloc |].
      intros v Hin. apply elem_of_nil in Hin. destruct Hin.
    + intros v d Hvd. destruct (decide (v = lv.1)) as [-> | Hne].
      * rewrite lookup_insert_eq. eexists. split; [reflexivity |].
        rewrite Hd in Hvd. injection Hvd as <-. split; [reflexivity |].
        intros Hnot. destruct (Hnot Hv).
      * rewrite lookup_insert_ne by congruence. eauto.
  - pose proof (new_ObjectId_fresh db) as Hfresh. split; [| split].
    + intros j Hj. apply lookup_alter_ne. congruence.
    + exists (MkLocation (values loc ++ [new_ObjectId db])), [new_ObjectId db].
      rewrite lookup_alter_eq, Hloc. repeat split.
      intros v Hin. apply list_elem_of_singleton in Hin. subst v.
      destruct (LocationValue db !! new_ObjectId db) as [d |] eqn:Ed; [| reflexivity].
      destruct Hfresh. apply (used_ids_value db _ d Ed).
    + intros v d Hvd. exists d. rewrite lookup_insert_ne; [auto |].
      intros <-. apply Hfresh, (used_ids_value db _ d Hvd).
Qed.

(** X16. [update] of a stored Location leaves every other Location as it
    was, keeps the values the Location had at the head of its [values]
    list and only adds ids of new documents after them, keeps the
    [_id] and the language of every stored value, and leaves alone the
    values the Location does not refer to; [update] of an id that
    names no Location changes nothing and answers 204. *)
Theorem update_touches_only_its_names (db : Database) (id : N)
    (names : list LocationName.t) :
  match Location db !! id with
  | Some loc =>
      (forall j, j <> id -> Location (update db id names).1 !! j = Location db !! j)
      /\ (exists loc' new, Location (update db id names).1 !! id = Some loc'
             /\ values loc' = values loc ++ new
             /\ forall v, v ∈ new -> LocationValue db !! v = None)
      /\ (forall v d, LocationValue db !! v = Some d ->
            exists d', LocationValue (update db id names).1 !! v = Some d'
                       /\ language d' = language d
                       /\ (v ∉ values loc -> d' = d))
  | None => update db id names = (db, SendStatus 204)
  end.
Proof.
  unfold update. destruct (Location db !! id) as [loc |] eqn:Hloc; [| reflexivity].
  cbn [fst]. destruct (update_is_fold names db id loc Hloc) as [-> _].
  revert db loc Hloc. induction names as [| nm rest IH]; intros db loc Hloc.
  - simpl. split; [reflexivity |]. split.
    + exists loc, []. rewrite app_nil_r. repeat split; [exact Hloc |].
      intros v Hin. apply elem_of_nil in Hin. destruct Hin.
    + intros v d Hvd. eauto.
  - destruct (update_one_frame db id loc nm Hloc)
      as (F1 & (loc1 & new1 & Hloc1 & Hvals1 & Hnew1) & F3).
    destruct (IH _ loc1 Hloc1) as (G1 & (loc2 & new2 & Hloc2 & Hvals2 & Hnew2) & G3).
    simpl. split; [| split].
    + intros j Hj. rewrite (G1 j Hj). apply F1. exact Hj.
    + exists loc2, (new1 ++ new2). split; [exact Hloc2 |].
      split; [rewrite Hvals2, Hvals1, app_assoc; reflexivity |].
      intros v Hin. apply elem_of_app in Hin as [Hin | Hin]; [apply Hnew1; exact Hin |].
      destruct (LocationValue db !! v) as [d |] eqn:Ed; [| reflexivity].
      destruct (F3 v d Ed) as (d' & Hd' & _). rewrite (Hnew2 v Hin) in Hd'. discriminate.
    + intros v d Hvd. destruct (F3 v d Hvd) as (d1 & Hd1 & Hl1 & Hsame1).
      destruct (G3 v d1 Hd1) as (d2 & Hd2 & Hl2 & Hsame2).
      exists d2. split; [exact Hd2 |]. split; [congruence |].
      intros Hnot. rewrite <- (Hsame1 Hnot). apply Hsame2.
      rewrite Hvals1. intros Hin. apply elem_of_app in Hin as [Hin | Hin]; [auto |].
      rewrite (Hnew1 v Hin) in Hvd. discriminate.
Qed.

End Updates.

End UpdateFacts.

(** ** List components: settling, failures, focus and clear *)

Module HandlerFacts.
Import movininTypes ListComponent ListComponentFacts FetchFacts.

Lemma run_ends_loading {R T : Type} (pre : list (Action R T)) (st : State R) :
  loading (run (pre ++ [setLoading false]) st) = false.
Proof. rewrite run_app. destruct (run pre st). reflexivity. Qed.

Lemma run_ends_loading_init {R T : Type} (pre : list (Action R T)) (st : State R) :
  loading (run (pre ++ [setLoading false; setInit false]) st) = false
  /\ init (run (pre ++ [setLoading false; setInit false]) st) = false.
Proof. rewrite run_app. destruct (run pre st). split; reflexivity. Qed.

(** X17. Whatever the service call does (it throws, resolves to nothing, to
    an envelope), every [_fetch] ends with [loading] down, and in
    AgencyList and BookingList with [init] down too. *)
Theorem fetch_always_settles
    (Env : EnvConfig) (p : Z) (kw : string) (cb aas : bool)
    (stA : State Option) (resA : ServiceResult User)
    (stL : State Location) (resL : ServiceResult Location)
    (stG : State User) (resG : ServiceResult User)
    (stB : State Booking) (resB : ServiceResult Booking) :
  loading (run (AgencySelectList._fetch Env stA p kw cb resA) stA) = false
  /\ loading (run (LocationSelectList._fetch Env stL p kw cb resL) stL) = false
  /\ (loading (run (AgencyList._fetch Env cb stG p kw resG) stG) = false
      /\ init (run (AgencyList._fetch Env cb stG p kw resG) stG) = false)
  /\ (loading (run (BookingList._fetch Env cb aas stB p resB) stB) = false
      /\ init (run (BookingList._fetch Env cb aas stB p resB) stB) = false).
Proof.
  split; [| split; [| split]].
  - unfold AgencySelectList._fetch. rewrite app_assoc. apply run_ends_loading.
  - unfold LocationSelectList._fetch. apply run_ends_loading.
  - unfold AgencyList._fetch. rewrite app_assoc. apply run_ends_loading_init.
  - unfold BookingList._fetch. apply run_ends_loading_init.
Qed.

Lemma same_data_flags {R T : Type} (st : State R) (pre post : list (Action R T)) :
  Forall (fun a => match a with
                   | setLoading _ | setInit _ | Request _ _ _ | Helper_error => True
                   | _ => False
                   end) (pre ++ post) ->
  same_data st (run (pre ++ post) st).
Proof.
  generalize (pre ++ post). clear pre post. intros l. unfold same_data.
  revert st. induction l as [| a l IH]; intros st Hall; [repeat split |].
  apply Forall_cons in Hall as [Ha Hall]. rewrite run_cons.
  destruct (IH (step st a) Hall) as (H1 & H2 & H3 & H4 & H5 & H6).
  rewrite H1, H2, H3, H4, H5, H6.
  destruct st, a; try destruct Ha; repeat split.
Qed.

(** X18. A fetch that fails (the call throws, or the first element of the
    data is missing) leaves the rows, the [fetch] flag, the page, the
    keyword and the counts as they were. It is reported with
    [Helper.error], except by LocationSelectList when the element is
    missing. *)
Theorem failed_fetch_keeps_data
    (Env : EnvConfig) (p : Z) (kw : string) (cb : bool)
    (stA : State Option) (stL : State Location) (stG : State User) (stB : State Booking)
    (resU : ServiceResult User) (resL : ServiceResult Location)
    (resB : ServiceResult Booking) :
  fetch_failed resU -> fetch_failed resL -> fetch_failed resB ->
  (same_data stA (run (AgencySelectList._fetch Env stA p kw cb resU) stA)
   /\ In Helper_error (AgencySelectList._fetch Env stA p kw cb resU))
  /\ (same_data stL (run (LocationSelectList._fetch Env stL p kw cb resL) stL)
      /\ (forall err, resL = Rejected err -> fetch stL = true \/ p = 1%Z ->
            In Helper_error (LocationSelectList._fetch Env stL p kw cb resL))
      /\ (forall data, resL = Resolved data ->
            ~ In Helper_error (LocationSelectList._fetch Env stL p kw cb resL)))
  /\ (same_data stG (run (AgencyList._fetch Env cb stG p kw resU) stG)
      /\ In Helper_error (AgencyList._fetch Env cb stG p kw resU))
  /\ (same_data stB (run (BookingList._fetch Env cb true stB p resB) stB)
      /\ In Helper_error (BookingList._fetch Env cb true stB p resB)).
Proof.
  intros FU FL FB.
  split; [| split; [| split]].
  - unfold AgencySelectList._fetch.
    destruct resU as [err | data]; simpl in FU; [| rewrite FU];
      (split; [apply same_data_flags; repeat constructor | simpl; tauto]).
  - unfold LocationSelectList._fetch.
    destruct resL as [err | data]; simpl in FL; [| rewrite FL].
    + split; [| split].
      * destruct (fetch stL || (p =? 1)%Z);
          apply (same_data_flags stL []); repeat constructor.
      * intros err' _ Hgate.
        assert (fetch stL || (p =? 1)%Z = true) as ->.
        { destruct Hgate as [-> | ->]; [reflexivity | apply orb_true_r]. }
        simpl. tauto.
      * intros data Heq. discriminate Heq.
    + split; [| split].
      * destruct (fetch stL || (p =? 1)%Z);
          apply (same_data_flags stL []); repeat constructor.
      * intros err Heq. discriminate Heq.
      * intros data' _. destruct (fetch stL || (p =? 1)%Z); simpl; intuition discriminate.
  - unfold AgencyList._fetch.
    destruct resU as [err | data]; simpl in FU; [| rewrite FU];
      (split; [apply same_data_flags; repeat constructor | simpl; tauto]).
  - unfold BookingList._fetch.
    destruct resB as [err | data]; simpl in FB; [| rewrite FB];
      (split; [apply (same_data_flags stB []); repeat constructor | simpl; tauto]).
Qed.

(** X19. The first focus of a select list fetches page 1 and, once the
    envelope is there, raises [init]: the rows are the fetched ones and
    a later focus does nothing. When that fetch fails [init] stays
    down, so the next focus fetches again. *)
Theorem onFocus_fetches_once
    (Env : EnvConfig) (stA : State Option) (stL : State Location)
    dataU (_dataU : Envelope User) dataL (_dataL : Envelope Location)
    (failU : ServiceResult User) (failL : ServiceResult Location) :
  init stA = false -> init stL = false ->
  first_or_default dataU = Some _dataU ->
  first_or_default dataL = Some _dataL ->
  fetch_failed failU -> fetch_failed failL ->
  let stA' := run (AgencySelectList.onFocus Env stA (Resolved dataU)) stA in
  let stL' := run (LocationSelectList.onFocus Env stL (Resolved dataL)) stL in
  (requests (AgencySelectList.onFocus Env stA (Resolved dataU))
   = [Request 1 (keyword stA) (PAGE_SIZE Env)]
   /\ init stA' = true /\ page stA' = 1%Z
   /\ rows stA' = AgencySelectList.getAgencies (resultData _dataU)
   /\ (forall res, AgencySelectList.onFocus Env stA' res = [])
   /\ init (run (AgencySelectList.onFocus Env stA failU) stA) = false)
  /\ (requests (LocationSelectList.onFocus Env stL (Resolved dataL))
      = [Request 1 (keyword stL) (PAGE_SIZE Env)]
      /\ init stL' = true /\ page stL' = 1%Z
      /\ rows stL' = resultData _dataL
      /\ (forall res, LocationSelectList.onFocus Env stL' res = [])
      /\ init (run (LocationSelectList.onFocus Env stL failL) stL) = false).
Proof.
  intros IA IL HU HL FU FL stA' stL'. split.
  - assert (init stA' = true) as Hinit.
    { subst stA'. unfold AgencySelectList.onFocus. rewrite IA. cbn [negb].
      rewrite (AgencySelectList_fetch_trace Env stA 1 _ true dataU _dataU HU).
      run_trace stA. reflexivity. }
    split; [| split; [exact Hinit | split; [| split; [| split]]]].
    + unfold AgencySelectList.onFocus. rewrite IA. cbn [negb].
      rewrite (AgencySelectList_fetch_trace Env stA 1 _ true dataU _dataU HU). reflexivity.
    + subst stA'. unfold AgencySelectList.onFocus. rewrite IA. cbn [negb].
      rewrite (AgencySelectList_fetch_trace Env stA 1 _ true dataU _dataU HU).
      run_trace stA. reflexivity.
    + subst stA'. unfold AgencySelectList.onFocus. rewrite IA. cbn [negb].
      rewrite (AgencySelectList_fetch_trace Env stA 1 _ true dataU _dataU HU).
      run_trace stA. reflexivity.
    + intros res. unfold AgencySelectList.onFocus. rewrite Hinit. reflexivity.
    + unfold AgencySelectList.onFocus, AgencySelectList._fetch. rewrite IA. cbn [negb].
      destruct failU as [err | data]; simpl in FU; [| rewrite FU];
        destruct stA; simpl in *; exact IA.
  - assert (init stL' = true) as Hinit.
    { subst stL'. unfold LocationSelectList.onFocus. rewrite IL. cbn [negb].
      rewrite (LocationSelectList_fetch_trace Env stL 1 _ true dataL _dataL HL).
      rewrite orb_true_r. run_trace stL. reflexivity. }
    split; [| split; [exact Hinit | split; [| split; [| split]]]].
    + unfold LocationSelectList.onFocus. rewrite IL. cbn [negb].
      rewrite (LocationSelectList_fetch_trace Env stL 1 _ true dataL _dataL HL).
      rewrite orb_true_r. reflexivity.
    + subst stL'. unfold LocationSelectList.onFocus. rewrite IL. cbn [negb].
      rewrite (LocationSelectList_fetch_trace Env stL 1 _ true dataL _dataL HL).
      rewrite orb_true_r. run_trace stL. reflexivity.
    + subst stL'. unfold LocationSelectList.onFocus. rewrite IL. cbn [negb].
      rewrite (LocationSelectList_fetch_trace Env stL 1 _ true dataL _dataL HL).
      rewrite orb_true_r. run_trace stL. reflexivity.
    + intros res. unfold LocationSelectList.onFocus. rewrite Hinit. reflexivity.
    + unfold LocationSelectList.onFocus, LocationSelectList._fetch. rewrite IL.
      cbn [negb]. rewrite orb_true_r.
      destruct failL as [err | data]; simpl in FL; [| rewrite FL];
        destruct stL; simpl in *; exact IL.
Qed.

(** X20. Clearing a select list starts it over whatever it held: it asks
    for page 1 of the empty keyword, and with the envelope there the
    rows are the fetched ones, the page is 1, the keyword is empty and
    the [fetch] flag tells whether the page had rows. *)
Theorem onClear_starts_over
    (Env : EnvConfig) (stA : State Option) (stL : State Location)
    dataU (_dataU : Envelope User) dataL (_dataL : Envelope Location) :
  first_or_default dataU = Some _dataU ->
  first_or_default dataL = Some _dataL ->
  let traceA := AgencySelectList.onClear Env stA (Resolved dataU) in
  let traceL := LocationSelectList.onClear Env stL (Resolved dataL) in
  (requests traceA = [Request 1 "" (PAGE_SIZE Env)]
   /\ rows (run traceA stA) = AgencySelectList.getAgencies (resultData _dataU)
   /\ page (run traceA stA) = 1%Z
   /\ keyword (run traceA stA) = ""
   /\ fetch (run traceA stA) = nonempty (resultData _dataU)
   /\ loading (run traceA stA) = false)
  /\ (requests traceL = [Request 1 "" (PAGE_SIZE Env)]
      /\ rows (run traceL stL) = resultData _dataL
      /\ page (run traceL stL) = 1%Z
      /\ keyword (run traceL stL) = ""
      /\ fetch (run traceL stL) = nonempty (resultData _dataL)
      /\ loading (run traceL stL) = false).
Proof.
  intros HU HL traceA traceL. subst traceA traceL.
  unfold AgencySelectList.onClear, LocationSelectList.onClear.
  rewrite (AgencySelectList_fetch_trace Env stA 1 _ false dataU _dataU HU).
  rewrite (LocationSelectList_fetch_trace Env stL 1 _ false dataL _dataL HL).
  rewrite orb_true_r.
  split; (split; [reflexivity |]); [destruct stA | destruct stL]; repeat split.
Qed.

End HandlerFacts.

(** ** Select lists: scrolling through the pages *)

Module ScrollPagesFacts.
Import movininTypes ListComponent ListComponentFacts FetchFacts.

Lemma AgencySelectList_onScroll_step (Env : EnvConfig) (st : State Option)
    (ev : ListboxScroll) (e : Envelope User) :
  fetch st = true -> loading st = false -> (1 <= page st)%Z ->
  at_end Env ev -> resultData e <> [] ->
  let trace := AgencySelectList.onScroll Env st ev (Resolved (Some [Some e])) in
  requests trace = [Request (page st + 1) (keyword st) (PAGE_SIZE Env)]
  /\ rows (run trace st) = rows st ++ AgencySelectList.getAgencies (resultData e)
  /\ page (run trace st) = (page st + 1)%Z
  /\ keyword (run trace st) = keyword st
  /\ fetch (run trace st) = true
  /\ loading (run trace st) = false.
Proof.
  intros Hf Hl Hp Hend Hrd trace. subst trace. unfold AgencySelectList.onScroll.
  rewrite Hf, Hl. cbn [negb andb]. rewrite (proj2 (Z.leb_le _ _) Hend).
  rewrite (AgencySelectList_fetch_trace Env st _ _ false (Some [Some e]) e eq_refl).
  assert ((page st + 1 =? 1)%Z = false) as -> by (apply Z.eqb_neq; lia).
  assert (nonempty (resultData e) = true) as -> by (apply ScrollFacts.nonempty_true, Hrd).
  split; [reflexivity |]. destruct st; repeat split.
Qed.

(** X21. Scrolling AgencySelectList to the end again and again, each time
    answered by a page that has rows: the pages asked for are the
    next ones, one by one and with the same keyword, and their rows
    follow the rows on display in the order they came. *)
Theorem AgencySelectList_scroll_accumulates (Env : EnvConfig)
    (pages : list (ListboxScroll * Envelope User)) (st : State Option) :
  fetch st = true -> loading st = false -> (1 <= page st)%Z ->
  Forall (fun ev => at_end Env ev.1 /\ resultData ev.2 <> []) pages ->
  let trace := handle_all (AgencySelectList.onScroll Env) st (scrolled_page <$> pages) in
  requests trace
  = imap (fun k _ => Request (page st + Z.of_nat k + 1) (keyword st) (PAGE_SIZE Env)) pages
  /\ rows (run trace st)
     = rows st ++ flat_map (fun ev => AgencySelectList.getAgencies (resultData ev.2)) pages
  /\ page (run trace st) = (page st + Z.of_nat (length pages))%Z
  /\ keyword (run trace st) = keyword st.
Proof.
  intros Hf Hl Hp Hall. cbn zeta. revert st Hf Hl Hp.
  induction Hall as [| [ev e] pages [Hend Hrd] _ IH]; intros st Hf Hl Hp.
  - simpl. rewrite app_nil_r, Z.add_0_r. repeat split.
  - cbn [fmap list_fmap scrolled_page fst snd handle_all].
    destruct (AgencySelectList_onScroll_step Env st ev e Hf Hl Hp Hend Hrd)
      as (Hreq & Hrows & Hpage & Hkw & Hf1 & Hl1).
    set (st1 := run (AgencySelectList.onScroll Env st ev (Resolved (Some [Some e]))) st) in *.
    destruct (IH st1 Hf1 Hl1 ltac:(lia)) as (Ireq & Irows & Ipage & Ikw).
    rewrite requests_app, run_app. fold st1.
    rewrite Hreq, Ireq, Irows, Ipage, Ikw, Hrows, Hpage, Hkw.
    split; [| split; [| split]].
    + cbn [imap app]. rewrite Z.add_0_r. f_equal. apply imap_ext.
      intros k x _. cbn. f_equal. lia.
    + cbn [flat_map fst snd]. rewrite <- app_assoc. reflexivity.
    + cbn [length]. lia.
    + reflexivity.
Qed.

Lemma LocationSelectList_onScroll_step (Env : EnvConfig) (st : State Location)
    (ev : ListboxScroll) (e : Envelope Location) :
  fetch st = true -> loading st = false -> (1 <= page st)%Z ->
  at_end Env ev -> resultData e <> [] ->
  let trace := LocationSelectList.onScroll Env st ev (Resolved (Some [Some e])) in
  requests trace = [Request (page st + 1) (keyword st) (PAGE_SIZE Env)]
  /\ rows (run trace st) = rows st ++ resultData e
  /\ page (run trace st) = (page st + 1)%Z
  /\ keyword (run trace st) = keyword st
  /\ fetch (run trace st) = true
  /\ loading (run trace st) = false.
Proof.
  intros Hf Hl Hp Hend Hrd trace. subst trace. unfold LocationSelectList.onScroll.
  rewrite Hf, Hl. cbn [negb andb]. rewrite (proj2 (Z.leb_le _ _) Hend).
  rewrite (LocationSelectList_fetch_trace Env st _ _ false (Some [Some e]) e eq_refl).
  rewrite Hf. cbn [orb].
  assert ((page st + 1 =? 1)%Z = false) as -> by (apply Z.eqb_neq; lia).
  assert (nonempty (resultData e) = true) as -> by (apply ScrollFacts.nonempty_true, Hrd).
  split; [reflexivity |]. destruct st; repeat split.
Qed.

(** X22. Scrolling LocationSelectList to the end again and again, each
    time answered by a page that has rows: the pages asked for are the
    next ones, one by one and with the same keyword, and their rows
    follow the rows on display in the order they came. *)
Theorem LocationSelectList_scroll_accumulates (Env : EnvConfig)
    (pages : list (ListboxScroll * Envelope Location)) (st : State Location) :
  fetch st = true -> loading st = false -> (1 <= page st)%Z ->
  Forall (fun ev => at_end Env ev.1 /\ resultData ev.2 <> []) pages ->
  let trace := handle_all (LocationSelectList.onScroll Env) st (scrolled_page <$> pages) in
  requests trace
  = imap (fun k _ => Request (page st + Z.of_nat k + 1) (keyword st) (PAGE_SIZE Env)) pages
  /\ rows (run trace st) = rows st ++ flat_map (fun ev => resultData ev.2) pages
  /\ page (run trace st) = (page st + Z.of_nat (length pages))%Z
  /\ keyword (run trace st) = keyword st.
Proof.
  intros Hf Hl Hp Hall. cbn zeta. revert st Hf Hl Hp.
  induction Hall as [| [ev e] pages [Hend Hrd] _ IH]; intros st Hf Hl Hp.
  - simpl. rewrite app_nil_r, Z.add_0_r. repeat split.
  - cbn [fmap list_fmap scrolled_page fst snd handle_all].
    destruct (LocationSelectList_onScroll_step Env st ev e Hf Hl Hp Hend Hrd)
      as (Hreq & Hrows & Hpage & Hkw & Hf1 & Hl1).
    set (st1 := run (LocationSelectList.onScroll Env st ev (Resolved (Some [Some e]))) st) in *.
    destruct (IH st1 Hf1 Hl1 ltac:(lia)) as (Ireq & Irows & Ipage & Ikw).
    rewrite requests_app, run_app. fold st1.
    rewrite Hreq, Ireq, Irows, Ipage, Ikw, Hrows, Hpage, Hkw.
    split; [| split; [| split]].
    + cbn [imap app]. rewrite Z.add_0_r. f_equal. apply imap_ext.
      intros k x _. cbn. f_equal. lia.
    + cbn [flat_map fst snd]. rewrite <- app_assoc. reflexivity.
    + cbn [length]. lia.
    + reflexivity.
Qed.

End ScrollPagesFacts.

(** ** AgencyList: counts and the delete dialog *)

Module AgencyListFacts.
Import movininTypes ListComponent ListComponentFacts FetchFacts AgencyListDelete.

Lemma AgencyList_fetch_counts (Env : EnvConfig) (cb : bool) (st cur : State User)
    data (e : Envelope User) :
  first_or_default data = Some e ->
  page cur = page st ->
  rowCount_counts_rows Env
    (run (AgencyList._fetch Env cb st (page st) (keyword st) (Resolved data)) cur)
  /\ totalRecords (run (AgencyList._fetch Env cb st (page st) (keyword st) (Resolved data)) cur)
     = pageInfo_totalRecords (pageInfo e).
Proof.
  intros He Hp. unfold rowCount_counts_rows.
  rewrite (AgencyList_fetch_trace Env cb st _ _ data e He).
  destruct ((infinite_scroll Env && (page st =? 1)%Z) || classic_pager Env), cb;
    destruct cur; simpl in *; subst; split; reflexivity.
Qed.

(** X23. After the fetch of a page has come back with an envelope, whether
    the page was set by the pager or is the one on display, [rowCount]
    is the number of rows up to the end of the page on display and
    [totalRecords] the total of the envelope. *)
Theorem AgencyList_counts_after_fetch (Env : EnvConfig) (cb : bool) (st : State User)
    data (e : Envelope User) :
  first_or_default data = Some e ->
  (rowCount_counts_rows Env (run (AgencyList.page_effect Env cb st (Resolved data)) st)
   /\ page (run (AgencyList.page_effect Env cb st (Resolved data)) st) = page st
   /\ totalRecords (run (AgencyList.page_effect Env cb st (Resolved data)) st)
      = pageInfo_totalRecords (pageInfo e))
  /\ (rowCount_counts_rows Env (run (AgencyList.onNext Env cb st (Resolved data)) st)
      /\ page (run (AgencyList.onNext Env cb st (Resolved data)) st) = (page st + 1)%Z
      /\ totalRecords (run (AgencyList.onNext Env cb st (Resolved data)) st)
         = pageInfo_totalRecords (pageInfo e))
  /\ (rowCount_counts_rows Env (run (AgencyList.onPrevious Env cb st (Resolved data)) st)
      /\ page (run (AgencyList.onPrevious Env cb st (Resolved data)) st) = (page st - 1)%Z
      /\ totalRecords (run (AgencyList.onPrevious Env cb st (Resolved data)) st)
         = pageInfo_totalRecords (pageInfo e)).
Proof.
  intros He.
  assert (forall (s cur : State User), page cur = page s ->
            page (run (AgencyList._fetch Env cb s (page s) (keyword s) (Resolved data)) cur)
            = page s) as Hpage.
  { intros s cur Hp. rewrite (AgencyList_fetch_trace Env cb s _ _ data e He).
    destruct ((infinite_scroll Env && (page s =? 1)%Z) || classic_pager Env), cb;
      destruct cur; simpl in *; exact Hp. }
  split; [| split].
  - unfold AgencyList.page_effect.
    destruct (AgencyList_fetch_counts Env cb st st data e He eq_refl) as [H1 H2].
    split; [exact H1 |]. split; [apply Hpage; reflexivity | exact H2].
  - unfold AgencyList.onNext, AgencyList.page_effect. rewrite run_app.
    set (s := run [setPage (page st + 1)] st).
    assert (page s = (page st + 1)%Z) as Hs by (subst s; destruct st; reflexivity).
    destruct (AgencyList_fetch_counts Env cb s s data e He eq_refl) as [H1 H2].
    split; [exact H1 |]. split; [rewrite <- Hs; apply Hpage; reflexivity | exact H2].
  - unfold AgencyList.onPrevious, AgencyList.page_effect. rewrite run_app.
    set (s := run [setPage (page st - 1)] st).
    assert (page s = (page st - 1)%Z) as Hs by (subst s; destruct st; reflexivity).
    destruct (AgencyList_fetch_counts Env cb s s data e He eq_refl) as [H1 H2].
    split; [exact H1 |]. split; [rewrite <- Hs; apply Hpage; reflexivity | exact H2].
Qed.

(** X24. Delete confirmed for the agency shown at position [i], the service
    answering 200: that row and no other leaves the rows, both counts
    go down by one, [rowCount] stays the number of rows up to the end
    of the page if it was, the dialog is back to its initial state and
    [onDelete] gets the new [rowCount]. *)
Theorem confirmed_delete_removes_the_row (Env : EnvConfig) (cb : bool) (st : State User)
    (i : nat) (agency : User) (id : string) :
  rows st !! i = Some agency ->
  id <> "" ->
  let out := handleConfirmDelete cb st (handleDelete id (Z.of_nat i)) (Status 200) in
  let st' := run (trace out) st in
  rows st' = take i (rows st) ++ drop (S i) (rows st)
  /\ S (length (rows st')) = length (rows st)
  /\ rowCount st' = (rowCount st - 1)%Z
  /\ totalRecords st' = (totalRecords st - 1)%Z
  /\ loading st' = false
  /\ page st' = page st
  /\ (rowCount_counts_rows Env st -> rowCount_counts_rows Env st')
  /\ dialog out = initial
  /\ onDelete out = (if cb then Some (rowCount st - 1)%Z else None).
Proof.
  intros Hi Hid out st'. subst st' out. unfold handleConfirmDelete, handleDelete.
  cbn [agencyId agencyIndex]. rewrite (proj2 (String.eqb_neq id "") Hid).
  assert ((-1 <? Z.of_nat i)%Z = true) as -> by (apply Z.ltb_lt; lia).
  cbn [negb andb Z.eqb Pos.eqb trace dialog onDelete]. unfold splice1. rewrite Nat2Z.id.
  assert (S (length (delete i (rows st))) = length (rows st)) as Hlen.
  { rewrite length_delete by eauto. apply lookup_lt_Some in Hi. lia. }
  unfold rowCount_counts_rows.
  destruct st as [? ? rws ? ? ? ? ? ? ? ?]; simpl in *.
  rewrite <- delete_take_drop.
  repeat split; try assumption. intros ->. lia.
Qed.

(** X25. Delete confirmed but refused: when the service answers another
    status, or throws, or the dialog holds no agency, the rows and the
    counts stay as they were, the error is reported and the dialog is
    closed. *)
Theorem refused_delete_keeps_rows (cb : bool) (st : State User) (dlg : Dialog)
    (res : StatusResult) :
  res <> Status 200 \/ agencyId dlg = "" \/ (agencyIndex dlg <= -1)%Z ->
  let out := handleConfirmDelete cb st dlg res in
  same_data st (run (trace out) st)
  /\ In Helper_error (trace out)
  /\ openDeleteDialog (dialog out) = false
  /\ onDelete out = None.
Proof.
  intros Hcase out. subst out. unfold handleConfirmDelete, same_data.
  destruct (negb (String.eqb (agencyId dlg) "") && (-1 <? agencyIndex dlg)%Z) eqn:Hguard.
  - apply andb_true_iff in Hguard as [Hid Hidx].
    apply negb_true_iff, String.eqb_neq in Hid. apply Z.ltb_lt in Hidx.
    destruct res as [err | code].
    + destruct st; simpl; tauto.
    + destruct (code =? 200)%Z eqn:Ecode.
      * apply Z.eqb_eq in Ecode. subst code.
        destruct Hcase as [H | [H | H]]; [congruence | congruence | lia].
      * destruct st; simpl; tauto.
  - destruct st; simpl; tauto.
Qed.

End AgencyListFacts.

(** ** BookingList: the cancel dialog *)

Module BookingCancelFacts.
Import movininTypes ListComponent ListComponentFacts BookingList BookingListCancel.

Lemma request_cancel_first (selected : string) (rows : list Booking) (k : nat)
    (b : Booking) :
  rows !! k = Some b ->
  booking_id b = selected ->
  (forall j r, (j < k)%nat -> rows !! j = Some r -> booking_id r <> selected) ->
  request_cancel selected rows = Some (<[ k := with_cancelRequest b ]> rows).
Proof.
  revert k. induction rows as [| r rest IH]; intros k Hk Hid Hbefore; [discriminate |].
  destruct k as [| k]; simpl in *.
  - injection Hk as ->. rewrite (proj2 (String.eqb_eq _ _) Hid). reflexivity.
  - rewrite (proj2 (String.eqb_neq _ _) (Hbefore 0%nat r ltac:(lia) eq_refl)).
    rewrite (IH k Hk Hid); [reflexivity |].
    intros j r' Hj Hr'. apply (Hbefore (S j) r'); [lia | exact Hr'].
Qed.

Lemma request_cancel_none (selected : string) (rows : list Booking) :
  (forall r, r ∈ rows -> booking_id r <> selected) ->
  request_cancel selected rows = None.
Proof.
  induction rows as [| r rest IH]; intros Hall; simpl; [reflexivity |].
  rewrite (proj2 (String.eqb_neq _ _) (Hall r ltac:(left))).
  rewrite IH; [reflexivity |]. intros r' Hr'. apply Hall. right. exact Hr'.
Qed.

Lemma no_cancel_button_once_requested (Env : EnvConfig) (tz : TimeZone) (now : Z)
    (b : Booking) :
  cancelBooking Env tz now (with_cancelRequest b) = None.
Proof.
  unfold cancelBooking, cancel_button, mobile_cancel_button, action_cell_cancel.
  simpl. rewrite !andb_false_r. destruct (isMobile Env); reflexivity.
Qed.

(** X26. The cancellation confirmed and accepted by the service (200): the
    first row of the selected booking, and no other row, gets its
    cancel request set; the selection is emptied and the dialog shows
    that the request was sent. From then on that row shows no cancel
    button, on the desktop or on mobile, at any time. *)
Theorem confirmed_cancel_marks_the_row (st : State Booking) (dlg : Dialog) (k : nat)
    (b : Booking) :
  rows st !! k = Some b ->
  booking_id b = selectedId st ->
  (forall j r, (j < k)%nat -> rows st !! j = Some r -> booking_id r <> selectedId st) ->
  let out := handleConfirmCancelBooking st dlg (Status 200) in
  let st' := run out.1 st in
  rows st' = <[ k := with_cancelRequest b ]> (rows st)
  /\ rows st' !! k = Some (with_cancelRequest b)
  /\ (forall j, j <> k -> rows st' !! j = rows st !! j)
  /\ selectedId st' = ""
  /\ out.2 = MkDialog true false
  /\ (forall Env tz now,
        cancelBooking Env tz now (with_cancelRequest b) = None).
Proof.
  intros Hk Hid Hbefore out st'. subst st' out. unfold handleConfirmCancelBooking.
  cbn [Z.eqb Pos.eqb]. rewrite (request_cancel_first _ _ k b Hk Hid Hbefore). cbn [fst snd].
  assert (rows (@run Booking Booking
                  [setRows (<[ k := with_cancelRequest b ]> (rows st)); setSelectedId ""] st)
          = <[ k := with_cancelRequest b ]> (rows st)) as Hrows
    by (destruct st; reflexivity).
  rewrite Hrows. split; [reflexivity |]. split.
  { apply list_lookup_insert_eq. apply lookup_lt_Some in Hk. exact Hk. }
  split; [intros j Hj; apply list_lookup_insert_ne; congruence |].
  split; [destruct st; reflexivity |]. split; [reflexivity |].
  intros Env tz now. apply no_cancel_button_once_requested.
Qed.

(** X27. The cancellation accepted by the service for a booking that is no
    longer among the rows: the error is reported, the rows stay as
    they were, and the dialog is left processing, which shows neither
    of its buttons. *)
Theorem cancel_of_missing_row_keeps_processing (st : State Booking) (dlg : Dialog) :
  (forall r, r ∈ rows st -> booking_id r <> selectedId st) ->
  let out := handleConfirmCancelBooking st dlg (Status 200) in
  out.1 = [Helper_error]
  /\ run out.1 st = st
  /\ cancelRequestProcessing out.2 = true
  /\ cancelRequestSent out.2 = cancelRequestSent dlg.
Proof.
  intros Hnone out. subst out. unfold handleConfirmCancelBooking.
  cbn [Z.eqb Pos.eqb]. rewrite (request_cancel_none _ _ Hnone). cbn [fst snd].
  destruct st; repeat split.
Qed.

End BookingCancelFacts.

(** ** ImageEditor: images and file names *)

Module ImageEditorFacts.
Import ImageEditor.

Lemma length_delete_le {A : Type} (l : list A) (i : nat) :
  length (delete i l) = (if decide (i < length l)%nat then length l - 1 else length l)%nat.
Proof.
  revert i. induction l as [| a l IH]; intros [| i]; simpl; try reflexivity.
  - lia.
  - rewrite IH. destruct (decide (i < length l)%nat), (decide (S i < S (length l))%nat);
      lia.
Qed.

Lemma handle_keeps (st : State) (ev : Event) :
  NoDup (filenames st) ->
  (length (filenames st) <= length (images st))%nat ->
  NoDup (filenames (handle st ev).1)
  /\ (length (filenames (handle st ev).1) <= length (images (handle st ev).1))%nat
  /\ (length (filenames st) = length (images st) ->
      length (filenames (handle st ev).1) = length (images (handle st ev).1)).
Proof.
  intros Hnd Hlen. destruct ev as [file_name uploaded | index res]; simpl.
  - unfold onloadend.
    destruct (existsb (String.eqb file_name) (filenames st)) eqn:E; simpl; [auto |].
    destruct uploaded as [name |]; simpl; [| auto].
    rewrite !length_app. simpl. split; [| split; lia].
    apply NoDup_app. split; [exact Hnd |]. split; [| apply NoDup_singleton].
    intros x Hx Hin. apply list_elem_of_singleton in Hin. subst x.
    assert (existsb (String.eqb file_name) (filenames st) = true) as Habs.
    { apply existsb_exists. exists file_name.
      split; [apply list_elem_of_In; exact Hx | apply String.eqb_refl]. }
    congruence.
  - unfold onClick_delete. destruct (images st !! index) as [img |] eqn:Ei; simpl; [| auto].
    destruct res as [err | code]; simpl; [auto |].
    destruct (code =? 200)%Z; simpl; [| auto].
    apply lookup_lt_Some in Ei. rewrite !length_delete_le.
    split; [eapply sublist_NoDup; [exact Hnd | apply sublist_delete] |].
    destruct (decide (index < length (filenames st))%nat),
             (decide (index < length (images st))%nat); lia.
Qed.

(** X30. Whatever files are loaded and whatever images are deleted, one
    event after the other: no file name is kept twice, there are never
    more file names than images, and when the editor starts without
    images there are as many file names as images. *)
Theorem ImageEditor_filenames_follow_images (ieImages : list ImageItem)
    (evs : list Event) :
  NoDup (filenames (handle_events (initial ieImages) evs).1)
  /\ (length (filenames (handle_events (initial ieImages) evs).1)
      <= length (images (handle_events (initial ieImages) evs).1))%nat
  /\ (ieImages = [] ->
      length (filenames (handle_events (initial ieImages) evs).1)
      = length (images (handle_events (initial ieImages) evs).1)).
Proof.
  assert (forall st, NoDup (filenames st) ->
            (length (filenames st) <= length (images st))%nat ->
            NoDup (filenames (handle_events st evs).1)
            /\ (length (filenames (handle_events st evs).1)
                <= length (images (handle_events st evs).1))%nat
            /\ (length (filenames st) = length (images st) ->
                length (filenames (handle_events st evs).1)
                = length (images (handle_events st evs).1))) as Hgen.
  { induction evs as [| ev rest IH]; intros st Hnd Hlen; [simpl; auto |].
    destruct (handle_keeps st ev Hnd Hlen) as (Hnd1 & Hlen1 & Heq1).
    destruct (IH _ Hnd1 Hlen1) as (Hnd2 & Hlen2 & Heq2).
    simpl. auto. }
  destruct (Hgen (initial ieImages) (NoDup_nil_2) ltac:(simpl; lia)) as (H1 & H2 & H3).
  split; [exact H1 |]. split; [exact H2 |]. intros ->. apply H3. reflexivity.
Qed.

(** A file whose name is among the file names kept is not uploaded
    again, and a file loaded right after its own upload changes
    nothing. *)
Theorem ImageEditor_same_file_is_uploaded_once (st : State) (file_name name name' : string) :
  file_name ∉ filenames st ->
  let st1 := (onloadend st file_name (Some name)).1 in
  (onloadend st file_name (Some name)).2
  = [uploadImage file_name; onAdd (MkImageItem true name)]
  /\ images st1 = images st ++ [MkImageItem true name]
  /\ onloadend st1 file_name (Some name') = (st1, []).
Proof.
  intros Hnot st1. subst st1. unfold onloadend.
  assert (existsb (String.eqb file_name) (filenames st) = false) as ->.
  { destruct (existsb _ _) eqn:E; [| reflexivity].
    apply existsb_exists in E as (x & Hx & Heq). apply String.eqb_eq in Heq. subst x.
    destruct Hnot. apply list_elem_of_In. exact Hx. }
  cbn [negb fst snd filenames images]. split; [reflexivity |]. split; [reflexivity |].
  rewrite existsb_app. simpl. rewrite String.eqb_refl, orb_true_r. reflexivity.
Qed.

End ImageEditorFacts.

(** ** BookingList: when the cancel button is shown *)

Module CancelButtonFacts.
Import movininTypes ListComponent BookingList CancellationFacts.

(** X28. In a time zone whose offset does not change: the grid shows
    the cancel button exactly when cancellation is enabled, no cancel
    request was made, the status is not Cancelled and the calendar day
    on which the booking starts is the current day or a later one; the
    list on mobile exactly when the first three hold and the booking
    starts after the current instant, which is a stronger condition.
    A click on the button selects the booking and opens the dialog. *)
Theorem cancel_button_conditions (Env : EnvConfig) (timezoneOffset now : Z)
    (booking : Booking) :
  let tz := fixed_offset timezoneOffset in
  let enabled := cancellation booking = true /\ cancelRequest booking = false
                 /\ status booking <> Cancelled in
  (isMobile Env = false ->
     (cancel_button Env tz now booking = true
      <-> enabled /\ today_or_later tz now (from booking)))
  /\ (isMobile Env = true ->
      (cancel_button Env tz now booking = true
       <-> enabled /\ (now < from booking)%Z))
  /\ ((now < from booking)%Z -> today_or_later tz now (from booking))
  /\ (cancel_button Env tz now booking = true ->
      cancelBooking Env tz now booking
      = Some [setSelectedId (booking_id booking); setOpenCancelDialog true])
  /\ (cancel_button Env tz now booking = false ->
      cancelBooking Env tz now booking = None).
Proof.
  intros tz enabled. subst tz enabled. unfold cancelBooking, cancel_button.
  split; [| split; [| split; [| split]]].
  - intros ->. unfold action_cell_cancel.
    rewrite !andb_true_iff, negb_true_iff, status_not_Cancelled, Z.leb_le, today_le_iff.
    tauto.
  - intros ->. unfold mobile_cancel_button.
    rewrite !andb_true_iff, negb_true_iff, status_not_Cancelled, Z.ltb_lt. tauto.
  - intros Hlt. apply today_le_iff.
    pose proof (today_le_now timezoneOffset now). lia.
  - intros ->. reflexivity.
  - intros ->. reflexivity.
Qed.

End CancelButtonFacts.

(** ** The further theorems at the sample data *)

Module MoreInstances.
Import movininTypes ListComponent LocationController JsRegExp LocationWrites
  AgencyListDelete Samples MoreSamples.

Lemma lex_leb_total (a b : text) : lex_leb a b = true \/ lex_leb b a = true.
Proof.
  revert b. induction a as [| x a IH]; intros [| y b]; simpl; auto.
  destruct (N.ltb_spec x y), (N.ltb_spec y x); simpl; auto; try lia.
  assert (x = y) as -> by lia. rewrite N.eqb_refl. simpl. apply IH.
Qed.

Lemma lex_leb_trans (a b c : text) :
  lex_leb a b = true -> lex_leb b c = true -> lex_leb a c = true.
Proof.
  revert b c. induction a as [| x a IH]; intros [| y b] [| z c]; simpl; auto;
    try discriminate.
  rewrite !orb_true_iff, !andb_true_iff, !N.ltb_lt, !N.eqb_eq.
  intros [Hxy | [-> Hab]] [Hyz | [-> Hbc]]; auto; [left; lia |].
  right. split; [reflexivity |]. exact (IH b c Hab Hbc).
Qed.

(** The sample collator is an order. *)
Lemma sample_collation_total_preorder : collation_total_preorder.
Proof.
  split.
  - intros a b. apply lex_leb_total.
  - intros a b c. apply lex_leb_trans.
Qed.

Lemma getLocations_rows_are_matches_witness :
  let p := 1%Z in
  let s := 10%Z in
  let lang := "en" in
  let kw := text_of "par" in
  let env := paris_page in
  let r := paris_row in
  (getLocations db p s lang kw = SendJson (JsonPage [env]))
  /\   (r ∈ resultData env)
  /\ (
  exists loc,
    Location db !! _id r = Some loc
    /\ row_values r = values loc
    /\ (row_value r).1 ∈ values loc
    /\ LocationValue db !! (row_value r).1 = Some (row_value r).2
    /\ language (row_value r).2 = lang
    /\ name r = value (row_value r).2
    /\ matches_some_substring kw (name r)).
Proof.
  intros p s lang kw env r.
  split; [vm_compute; reflexivity |].
  split; [apply list_elem_of_here |].
  apply (SearchFacts.getLocations_rows_are_matches db p s lang kw env r);
    [vm_compute; reflexivity | apply list_elem_of_here].
Defined.

Lemma getLocations_page_is_sorted_witness :
  let p := 1%Z in
  let p' := 2%Z in
  let s := 1%Z in
  let lang := "en" in
  let kw := text_of "Rom" in
  let env := roma_page in
  let env' := rome_page in
  (collation_total_preorder)
  /\   (getLocations rome_db p s lang kw = SendJson (JsonPage [env]))
  /\   (getLocations rome_db p' s lang kw = SendJson (JsonPage [env']))
  /\ (
  Sorted name_le (resultData env)
  /\ ((p < p')%Z ->
      forall r r', r ∈ resultData env -> r' ∈ resultData env' -> name_le r r')).
Proof.
  intros p p' s lang kw env env'.
  split; [exact sample_collation_total_preorder |].
  split; [vm_compute; reflexivity |].
  split; [vm_compute; reflexivity |].
  apply (SearchFacts.getLocations_page_is_sorted rome_db p p' s lang kw env env');
    [exact sample_collation_total_preorder | vm_compute; reflexivity | vm_compute; reflexivity].
Defined.

Lemma getLocations_page_length_witness :
  let p := 1%Z in
  let s := 10%Z in
  let lang := "en" in
  let kw := text_of "par" in
  ((1 <= p)%Z)
  /\   ((0 < s)%Z)
  /\ (
  let total := Z.of_nat (length (matching_rows db lang (keyword_regex kw))) in
  exists env,
    getLocations db p s lang kw = SendJson (JsonPage [env])
    /\ Z.of_nat (length (resultData env)) = Z.max 0 (Z.min s (total - (p - 1) * s))
    /\ ((p * s <= total)%Z -> Z.of_nat (length (resultData env)) = s)
    /\ ((total <= (p - 1) * s)%Z -> resultData env = [])).
Proof.
  intros p s lang kw.
  split; [lia |].
  split; [lia |].
  apply (SearchFacts.getLocations_page_length db p s lang kw);
    [lia | lia].
Defined.


Lemma keyword_case_is_ignored_witness :
  let p := 1%Z in
  let s := 10%Z in
  let lang := "en" in
  let kw := text_of "par" in
  let kw' := text_of "PaR" in
  (fold_case kw = fold_case kw')
  /\ (
  getLocations db p s lang kw = getLocations db p s lang kw'
  /\ validate db lang kw = validate db lang kw').
Proof.
  intros p s lang kw kw'.
  split; [reflexivity |].
  apply (SearchFacts.keyword_case_is_ignored db p s lang kw kw');
    [reflexivity].
Defined.

Lemma create_then_validate_witness :
  let names := rome in
  let nm := LocationName.Mk "fr" (text_of "Rome") in
  (nm ∈ names)
  /\ (
  validate (create db names).1 (LocationName.language nm) (LocationName.name nm)
  = SendStatus 204).
Proof.
  intros names nm.
  split; [apply list_elem_of_further, list_elem_of_here |].
  apply (WriteFacts.create_then_validate db names nm);
    [apply list_elem_of_further, list_elem_of_here].
Defined.

Lemma create_keeps_one_value_per_language_witness :
  let names := lisbon in
  (one_value_per_language db)
  /\   (NoDup (LocationName.language <$> names))
  /\ (
  one_value_per_language (create db names).1).
Proof.
  intros names.
  split; [exact Instances.db_one_value_per_language |].
  split; [apply (bool_decide_unpack _); vm_compute; exact I |].
  apply (WriteFacts.create_keeps_one_value_per_language db names);
    [exact Instances.db_one_value_per_language | apply (bool_decide_unpack _); vm_compute; exact I].
Defined.


Lemma update_then_getLocation_witness :
  let id := 2%N in
  let loc := MkLocation [12%N] in
  let names := rome in
  let lang := "en" in
  (Location db !! id = Some loc)
  /\ (
  (update db id names).2 = SendStatus 200
  /\ match last_name lang names with
     | Some x =>
         exists vals,
           getLocation (update db id names).1 id lang = SendJson (JsonLocation id vals x)
     | None =>
         match stored_name db id lang with
         | Some x =>
             exists vals,
               getLocation (update db id names).1 id lang
               = SendJson (JsonLocation id vals x)
         | None => status (getLocation (update db id names).1 id lang) = 400%Z
         end
     end).
Proof.
  intros id loc names lang.
  split; [reflexivity |].
  apply (UpdateFacts.update_then_getLocation db id loc names lang);
    [reflexivity].
Defined.

Lemma update_keeps_one_value_per_language_witness :
  let id := 2%N in
  let names := rome in
  (one_value_per_language db)
  /\ (
  one_value_per_language (update db id names).1).
Proof.
  intros id names.
  split; [exact Instances.db_one_value_per_language |].
  apply (UpdateFacts.update_keeps_one_value_per_language db id names);
    [exact Instances.db_one_value_per_language].
Defined.

Lemma failed_fetch_keeps_data_witness :
  let p := 2%Z in
  let kw := "" in
  let cb := false in
  let resU := @Rejected User "Network Error" in
  let resL := @Resolved movininTypes.Location (Some [None]) in
  let resB := @Resolved Booking (Some [None]) in
  (fetch_failed resU)
  /\   (fetch_failed resL)
  /\   (fetch_failed resB)
  /\ (
  (same_data stA (run (AgencySelectList._fetch Env stA p kw cb resU) stA)
   /\ In Helper_error (AgencySelectList._fetch Env stA p kw cb resU))
  /\ (same_data stL (run (LocationSelectList._fetch Env stL p kw cb resL) stL)
      /\ (forall err, resL = Rejected err -> fetch stL = true \/ p = 1%Z ->
            In Helper_error (LocationSelectList._fetch Env stL p kw cb resL))
      /\ (forall data, resL = Resolved data ->
            ~ In Helper_error (LocationSelectList._fetch Env stL p kw cb resL)))
  /\ (same_data stG (run (AgencyList._fetch Env cb stG p kw resU) stG)
      /\ In Helper_error (AgencyList._fetch Env cb stG p kw resU))
  /\ (same_data stB (run (BookingList._fetch Env cb true stB p resB) stB)
      /\ In Helper_error (BookingList._fetch Env cb true stB p resB))).
Proof.
  intros p kw cb resU resL resB.
  split; [exact I |].
  split; [reflexivity |].
  split; [reflexivity |].
  apply (HandlerFacts.failed_fetch_keeps_data Env p kw cb stA stL stG stB resU resL resB);
    [exact I | reflexivity | reflexivity].
Defined.

Lemma onFocus_fetches_once_witness :
  let stA := fresh_agencies in
  let stL := fresh_locations in
  let dataU := users in
  let _dataU := users_envelope in
  let dataL := locations in
  let _dataL := locations_envelope in
  let failU := @Rejected User "Network Error" in
  let failL := @Resolved movininTypes.Location (Some [None]) in
  (init stA = false)
  /\   (init stL = false)
  /\   (first_or_default dataU = Some _dataU)
  /\   (first_or_default dataL = Some _dataL)
  /\   (fetch_failed failU)
  /\   (fetch_failed failL)
  /\ (
  let stA' := run (AgencySelectList.onFocus Env stA (Resolved dataU)) stA in
  let stL' := run (LocationSelectList.onFocus Env stL (Resolved dataL)) stL in
  (requests (AgencySelectList.onFocus Env stA (Resolved dataU))
   = [Request 1 (keyword stA) (PAGE_SIZE Env)]
   /\ init stA' = true /\ page stA' = 1%Z
   /\ rows stA' = AgencySelectList.getAgencies (resultData _dataU)
   /\ (forall res, AgencySelectList.onFocus Env stA' res = [])
   /\ init (run (AgencySelectList.onFocus Env stA failU) stA) = false)
  /\ (requests (LocationSelectList.onFocus Env stL (Resolved dataL))
      = [Request 1 (keyword stL) (PAGE_SIZE Env)]
      /\ init stL' = true /\ page stL' = 1%Z
      /\ rows stL' = resultData _dataL
      /\ (forall res, LocationSelectList.onFocus Env stL' res = [])
      /\ init (run (LocationSelectList.onFocus Env stL failL) stL) = false)).
Proof.
  intros stA stL dataU _dataU dataL _dataL failU failL.
  split; [reflexivity |].
  split; [reflexivity |].
  split; [reflexivity |].
  split; [reflexivity |].
  split; [exact I |].
  split; [reflexivity |].
  apply (HandlerFacts.onFocus_fetches_once Env stA stL dataU _dataU dataL _dataL failU failL);
    [reflexivity | reflexivity | reflexivity | reflexivity | exact I | reflexivity].
Defined.

Lemma onClear_starts_over_witness :
  let dataU := users in
  let _dataU := users_envelope in
  let dataL := locations in
  let _dataL := locations_envelope in
  (first_or_default dataU = Some _dataU)
  /\   (first_or_default dataL = Some _dataL)
  /\ (
  let traceA := AgencySelectList.onClear Env stA (Resolved dataU) in
  let traceL := LocationSelectList.onClear Env stL (Resolved dataL) in
  (requests traceA = [Request 1 "" (PAGE_SIZE Env)]
   /\ rows (run traceA stA) = AgencySelectList.getAgencies (resultData _dataU)
   /\ page (run traceA stA) = 1%Z
   /\ keyword (run traceA stA) = ""
   /\ fetch (run traceA stA) = nonempty (resultData _dataU)
   /\ loading (run traceA stA) = false)
  /\ (requests traceL = [Request 1 "" (PAGE_SIZE Env)]
      /\ rows (run traceL stL) = resultData _dataL
      /\ page (run traceL stL) = 1%Z
      /\ keyword (run traceL stL) = ""
      /\ fetch (run traceL stL) = nonempty (resultData _dataL)
      /\ loading (run traceL stL) = false)).
Proof.
  intros dataU _dataU dataL _dataL.
  split; [reflexivity |].
  split; [reflexivity |].
  apply (HandlerFacts.onClear_starts_over Env stA stL dataU _dataU dataL _dataL);
    [reflexivity | reflexivity].
Defined.

Lemma AgencySelectList_scroll_accumulates_witness :
  let pages := [(scrolled, users_envelope)] in
  let st := stA in
  (fetch st = true)
  /\   (loading st = false)
  /\   ((1 <= page st)%Z)
  /\   (Forall (fun ev => at_end Env ev.1 /\ resultData ev.2 <> []) pages)
  /\ (
  let trace := handle_all (AgencySelectList.onScroll Env) st (scrolled_page <$> pages) in
  requests trace
  = imap (fun k _ => Request (page st + Z.of_nat k + 1) (keyword st) (PAGE_SIZE Env)) pages
  /\ rows (run trace st)
     = rows st ++ flat_map (fun ev => AgencySelectList.getAgencies (resultData ev.2)) pages
  /\ page (run trace st) = (page st + Z.of_nat (length pages))%Z
  /\ keyword (run trace st) = keyword st).
Proof.
  intros pages st.
  split; [reflexivity |].
  split; [reflexivity |].
  split; [simpl; lia |].
  split; [repeat constructor; [unfold at_end; simpl; lia | discriminate] |].
  apply (ScrollPagesFacts.AgencySelectList_scroll_accumulates Env pages st);
    [reflexivity | reflexivity | simpl; lia | repeat constructor; [unfold at_end; simpl; lia | discriminate]].
Defined.

Lemma LocationSelectList_scroll_accumulates_witness :
  let pages := [(scrolled, locations_envelope)] in
  let st := stL in
  (fetch st = true)
  /\   (loading st = false)
  /\   ((1 <= page st)%Z)
  /\   (Forall (fun ev => at_end Env ev.1 /\ resultData ev.2 <> []) pages)
  /\ (
  let trace := handle_all (LocationSelectList.onScroll Env) st (scrolled_page <$> pages) in
  requests trace
  = imap (fun k _ => Request (page st + Z.of_nat k + 1) (keyword st) (PAGE_SIZE Env)) pages
  /\ rows (run trace st) = rows st ++ flat_map (fun ev => resultData ev.2) pages
  /\ page (run trace st) = (page st + Z.of_nat (length pages))%Z
  /\ keyword (run trace st) = keyword st).
Proof.
  intros pages st.
  split; [reflexivity |].
  split; [reflexivity |].
  split; [simpl; lia |].
  split; [repeat constructor; [unfold at_end; simpl; lia | discriminate] |].
  apply (ScrollPagesFacts.LocationSelectList_scroll_accumulates Env pages st);
    [reflexivity | reflexivity | simpl; lia | repeat constructor; [unfold at_end; simpl; lia | discriminate]].
Defined.

Lemma AgencyList_counts_after_fetch_witness :
  let cb := true in
  let st := stG in
  let data := users in
  let e := users_envelope in
  (first_or_default data = Some e)
  /\ (
  (rowCount_counts_rows Env (run (AgencyList.page_effect Env cb st (Resolved data)) st)
   /\ page (run (AgencyList.page_effect Env cb st (Resolved data)) st) = page st
   /\ totalRecords (run (AgencyList.page_effect Env cb st (Resolved data)) st)
      = pageInfo_totalRecords (pageInfo e))
  /\ (rowCount_counts_rows Env (run (AgencyList.onNext Env cb st (Resolved data)) st)
      /\ page (run (AgencyList.onNext Env cb st (Resolved data)) st) = (page st + 1)%Z
      /\ totalRecords (run (AgencyList.onNext Env cb st (Resolved data)) st)
         = pageInfo_totalRecords (pageInfo e))
  /\ (rowCount_counts_rows Env (run (AgencyList.onPrevious Env cb st (Resolved data)) st)
      /\ page (run (AgencyList.onPrevious Env cb st (Resolved data)) st) = (page st - 1)%Z
      /\ totalRecords (run (AgencyList.onPrevious Env cb st (Resolved data)) st)
         = pageInfo_totalRecords (pageInfo e))).
Proof.
  intros cb st data e.
  split; [reflexivity |].
  apply (AgencyListFacts.AgencyList_counts_after_fetch Env cb st data e);
    [reflexivity].
Defined.

Lemma confirmed_delete_removes_the_row_witness :
  let cb := true in
  let st := stG in
  let i := 0%nat in
  let agency := alpha in
  let id := "a1" in
  (rows st !! i = Some agency)
  /\   (id <> "")
  /\ (
  let out := handleConfirmDelete cb st (handleDelete id (Z.of_nat i)) (Status 200) in
  let st' := run (trace out) st in
  rows st' = take i (rows st) ++ drop (S i) (rows st)
  /\ S (length (rows st')) = length (rows st)
  /\ rowCount st' = (rowCount st - 1)%Z
  /\ totalRecords st' = (totalRecords st - 1)%Z
  /\ loading st' = false
  /\ page st' = page st
  /\ (rowCount_counts_rows Env st -> rowCount_counts_rows Env st')
  /\ dialog out = initial
  /\ onDelete out = (if cb then Some (rowCount st - 1)%Z else None)).
Proof.
  intros cb st i agency id.
  split; [reflexivity |].
  split; [discriminate |].
  apply (AgencyListFacts.confirmed_delete_removes_the_row Env cb st i agency id);
    [reflexivity | discriminate].
Defined.

Lemma refused_delete_keeps_rows_witness :
  let cb := true in
  let st := stG in
  let dlg := handleDelete "a1" 0 in
  let res := Status 400 in
  (res <> Status 200 \/ agencyId dlg = "" \/ (agencyIndex dlg <= -1)%Z)
  /\ (
  let out := handleConfirmDelete cb st dlg res in
  same_data st (run (trace out) st)
  /\ In Helper_error (trace out)
  /\ openDeleteDialog (dialog out) = false
  /\ onDelete out = None).
Proof.
  intros cb st dlg res.
  split; [left; discriminate |].
  apply (AgencyListFacts.refused_delete_keeps_rows cb st dlg res);
    [left; discriminate].
Defined.

End MoreInstances.

Module BookingInstances.
Import movininTypes ListComponent BookingList BookingListCancel Samples MoreSamples.

Lemma confirmed_cancel_marks_the_row_witness :
  let st := stB_selected in
  let dlg := MkDialog false true in
  let k := 0%nat in
  let b := booking1 in
  (rows st !! k = Some b)
  /\   (booking_id b = selectedId st)
  /\   ((forall j r, (j < k)%nat -> rows st !! j = Some r -> booking_id r <> selectedId st))
  /\ (
  let out := handleConfirmCancelBooking st dlg (Status 200) in
  let st' := run out.1 st in
  rows st' = <[ k := with_cancelRequest b ]> (rows st)
  /\ rows st' !! k = Some (with_cancelRequest b)
  /\ (forall j, j <> k -> rows st' !! j = rows st !! j)
  /\ selectedId st' = ""
  /\ out.2 = MkDialog true false
  /\ (forall Env tz now,
        cancelBooking Env tz now (with_cancelRequest b) = None)).
Proof.
  intros st dlg k b.
  split; [reflexivity |].
  split; [reflexivity |].
  split; [intros j r Hj; lia |].
  apply (BookingCancelFacts.confirmed_cancel_marks_the_row st dlg k b);
    [reflexivity | reflexivity | intros j r Hj; lia].
Defined.

Lemma cancel_of_missing_row_keeps_processing_witness :
  let st := stB_stale in
  let dlg := MkDialog false true in
  ((forall r, r ∈ rows st -> booking_id r <> selectedId st))
  /\ (
  let out := handleConfirmCancelBooking st dlg (Status 200) in
  out.1 = [Helper_error]
  /\ run out.1 st = st
  /\ cancelRequestProcessing out.2 = true
  /\ cancelRequestSent out.2 = cancelRequestSent dlg).
Proof.
  intros st dlg.
  split; [intros r Hr; apply list_elem_of_singleton in Hr; subst r; discriminate |].
  apply (BookingCancelFacts.cancel_of_missing_row_keeps_processing st dlg);
    [intros r Hr; apply list_elem_of_singleton in Hr; subst r; discriminate].
Defined.

End BookingInstances.
